(** * music-usher: a shallow embedding of [music_usher.py]

    The script scans a directory tree for mp3/ogg files, groups them in a
    [Library] of [Discography] objects (one per artist) holding [Album]
    objects, and exports the library as [Artist/Album/No. Title.ext].

    Layout of this development:
    - [PyStr]: the Python string primitives the script relies on;
    - [os_path]: [os.path.join], [os.path.basename], [os.path.splitext];
    - [re_]: the two regular expressions of the script;
    - [Dict]: Python's insertion-ordered [dict] with string keys;
    - [FS]: a tree model of the file system with [os.walk], [os.makedirs],
      [shutil.copy], [shutil.move];
    - the object store, the monad of state and exceptions, and the classes
      [Track], [Album], [Discography], [Library] with [main];
    - the vocabulary of the statements and the example trees;
    - the properties: strings and paths, the store, the scan, the export
      under [DRY_RUN], and the statements C1 to C10 about the script.

    Strings are sequences of 8-bit characters, read as the code points
    below 256. Python objects are entries of a store, named by their
    index, so that aliasing is what it is in the script. *)

From stdpp Require Import base list strings.
From Stdlib Require Import Ascii ZArith Lia Bool.

Open Scope string_scope.

(** ** Python string primitives *)

Module PyStr.

(** Line feed, the only character [.] and [$] treat specially. *)
Definition LF : ascii := "010"%char.

Definition is_digit (c : ascii) : bool :=
  let n := nat_of_ascii c in (48 <=? n)%nat && (n <=? 57)%nat.

Definition is_upper (c : ascii) : bool :=
  let n := nat_of_ascii c in (65 <=? n)%nat && (n <=? 90)%nat.

Definition lower_ascii (c : ascii) : ascii :=
  if is_upper c then ascii_of_nat (nat_of_ascii c + 32) else c.

(** [s.lower()] on the characters a 8-bit string can hold. *)
Fixpoint lower (s : string) : string :=
  match s with
  | EmptyString => EmptyString
  | String c r => String (lower_ascii c) (lower r)
  end.

(** [s[:n]] and [s[n:]] for [0 <= n]. *)
Fixpoint take (n : nat) (s : string) : string :=
  match n, s with
  | S n', String c r => String c (take n' r)
  | _, _ => EmptyString
  end.

Fixpoint drop (n : nat) (s : string) : string :=
  match n, s with
  | S n', String _ r => drop n' r
  | _, _ => s
  end.

(** [s[i:i+1]], the empty string when [i] is out of range. *)
Definition char_at (i : nat) (s : string) : string := take 1 (drop i s).

(** [s.rfind(c)]: index of the last occurrence of [c], [-1] when there
    is none. *)
Fixpoint rfind_from (c : ascii) (s : string) (i : Z) (last : Z) : Z :=
  match s with
  | EmptyString => last
  | String d r =>
      rfind_from c r (i + 1) (if Ascii.eqb d c then i else last)
  end.

Definition rfind (c : ascii) (s : string) : Z := rfind_from c s 0 (-1).

Definition startswith (pre s : string) : bool := String.prefix pre s.

Fixpoint last_char (s : string) : option ascii :=
  match s with
  | EmptyString => None
  | String c EmptyString => Some c
  | String _ r => last_char r
  end.

(** [s.endswith("/")]. *)
Definition ends_with_char (c : ascii) (s : string) : bool :=
  match last_char s with
  | Some d => Ascii.eqb d c
  | None => false
  end.

(** [sep.join(l)]. *)
Fixpoint join (sep : string) (l : list string) : string :=
  match l with
  | [] => ""
  | [x] => x
  | x :: r => x +:+ sep +:+ join sep r
  end.

(** Truth value of a string: non-empty. *)
Definition truthy (s : string) : bool :=
  match s with EmptyString => false | _ => true end.

(** [s.endswith(suf)]. *)
Fixpoint endswith (suf s : string) : bool :=
  String.eqb s suf
  || match s with
     | EmptyString => false
     | String _ r => endswith suf r
     end.

Fixpoint all_chars (p : ascii -> bool) (s : string) : bool :=
  match s with
  | EmptyString => true
  | String c r => p c && all_chars p r
  end.

End PyStr.

(** ** [os.path] on POSIX *)

Module os_path.
Import PyStr.

(** [os.path.join(a, b)]:
    an absolute [b] replaces [a]; otherwise [b] is appended, with a
    separator unless [a] is empty or already ends with one. *)
Definition join (a b : string) : string :=
  if startswith "/" b then b
  else if negb (truthy a) || ends_with_char "/" a then a +:+ b
  else a +:+ "/" +:+ b.

(** [os.path.basename(p)]: [p[p.rfind('/') + 1:]]. *)
Definition basename (p : string) : string :=
  drop (Z.to_nat (rfind "/" p + 1)) p.

(** The loop of [genericpath._splitext] that skips leading dots:
    [n] iterations remain, [filenameIndex] is the loop variable. The
    result is [true] when a character other than [.] is met before
    [dotIndex]. *)
Fixpoint has_non_dot (p : string) (n : nat) (filenameIndex : nat) : bool :=
  match n with
  | O => false
  | S n' =>
      if negb (String.eqb (char_at filenameIndex p) ".") then true
      else has_non_dot p n' (S filenameIndex)
  end.

(** [os.path.splitext(p)]: [(root, ext)] where [ext] starts at the last
    dot of the last path component, leading dots of that component
    excepted; [ext] keeps its dot. *)
Definition splitext (p : string) : string * string :=
  let sepIndex := rfind "/" p in
  let dotIndex := rfind "." p in
  if (dotIndex >? sepIndex)%Z then
    let filenameIndex := Z.to_nat (sepIndex + 1) in
    if has_non_dot p (Z.to_nat dotIndex - filenameIndex) filenameIndex
    then (take (Z.to_nat dotIndex) p, drop (Z.to_nat dotIndex) p)
    else (p, "")
  else (p, "").

End os_path.

(** ** The regular expressions of the script *)

Module re_.
Import PyStr.

(** [(mp3|ogg)$] under [re.IGNORECASE] at the current position: the
    three letters, then the end of the string, or one line feed and the
    end of the string (Python's [$] without [re.MULTILINE]). *)
Definition media_tail (r : string) : bool :=
  let l := lower r in
  String.eqb l "mp3" || String.eqb l "ogg"
  || String.eqb l (String "m" (String "p" (String "3" (String LF ""))))
  || String.eqb l (String "o" (String "g" (String "g" (String LF "")))).

(** [MEDIA_FILES_REGEX.match(f)] for
    [MEDIA_FILES_REGEX = re.compile(r'.*\.(mp3|ogg)$', re.IGNORECASE)].
    [match] anchors at the start; [.*] consumes characters other than a
    line feed; at some dot the tail has to be [(mp3|ogg)$]. *)
Fixpoint MEDIA_FILES_REGEX_match (f : string) : bool :=
  match f with
  | EmptyString => false
  | String c r =>
      (Ascii.eqb c "." && media_tail r)
      || (negb (Ascii.eqb c LF) && MEDIA_FILES_REGEX_match r)
  end.

(** [\d+$] at the current position: one or more digits up to the end of
    the string or up to a final line feed. The result is what follows
    the match ([""] or the line feed), [None] when there is no match. *)
Fixpoint digits_end (s : string) : option string :=
  match s with
  | EmptyString => None
  | String c r =>
      if is_digit c then
        match r with
        | EmptyString => Some ""
        | String d EmptyString =>
            if Ascii.eqb d LF then Some r else digits_end r
        | _ => digits_end r
        end
      else None
  end.

(** [re.sub(r'/\d+$', '', s)]: the leftmost match is removed; nothing
    after it can match again. *)
Fixpoint sub_total_tracks (s : string) : string :=
  match s with
  | EmptyString => EmptyString
  | String c r =>
      if Ascii.eqb c "/" then
        match digits_end r with
        | Some rest => rest
        | None => String c (sub_total_tracks r)
        end
      else String c (sub_total_tracks r)
  end.

End re_.

(** ** Python's [dict] with string keys

    Iteration follows insertion order and assigning to a key that is
    already there keeps its position, so the dictionary is a list of
    bindings with distinct keys. *)

Module Dict.

Definition dict (V : Type) : Type := list (string * V).

Section Ops.
Context {V : Type}.

(** [d.get(k, None)]. *)
Fixpoint get (k : string) (d : dict V) : option V :=
  match d with
  | [] => None
  | (k', v) :: r => if String.eqb k' k then Some v else get k r
  end.

(** [k in d]. *)
Definition contains (k : string) (d : dict V) : bool :=
  match get k d with Some _ => true | None => false end.

(** [d[k] = v]. *)
Fixpoint set (k : string) (v : V) (d : dict V) : dict V :=
  match d with
  | [] => [(k, v)]
  | (k', v') :: r =>
      if String.eqb k' k then (k', v) :: r else (k', v') :: set k v r
  end.

(** [d.values()]. *)
Definition values (d : dict V) : list V := map snd d.

Definition keys (d : dict V) : list string := map fst d.

End Ops.

End Dict.

(** ** Tags

    [EasyID3] maps a tag name to a list of strings; the fallback
    dictionary of [Track.__init__] maps ["title"] to a plain string. *)

Inductive tagvalue : Type :=
| TStr (s : string)
| TList (l : list string).

Definition metadata : Type := Dict.dict tagvalue.

(** What a regular file holds as far as [EasyID3] can tell: an ID3 header
    with its tags, no header at all ([ID3NoHeaderError]), or something
    mutagen fails on with another error. [audio] stands for the rest of
    the bytes. *)
Inductive id3 : Type :=
| ID3Header (tags : Dict.dict (list string))
| ID3NoHeader
| ID3Broken.

Record content : Type := Content { tag : id3; audio : string }.

(** ** Exceptions and results

    The exceptions the modelled calls can raise. [DanglingReference] has
    no Python counterpart: it is what reading the store at an index that
    names no object gives, and no state the script builds reaches it. *)

Inductive exn : Type :=
| FileNotFoundError
| FileExistsError
| NotADirectoryError
| IsADirectoryError
| SameFileError
| ShutilError
| ID3NoHeaderError
| MutagenError
| AttributeError
| DanglingReference.

Inductive result (A : Type) : Type :=
| Ok (a : A)
| Raise (e : exn).
Arguments Ok {A} a.
Arguments Raise {A} e.

Definition rbind {A B} (r : result A) (k : A -> result B) : result B :=
  match r with
  | Ok a => k a
  | Raise e => Raise e
  end.

(** ** The file system

    A tree of named entries. A path is resolved from the root, component
    by component; empty components (doubled or trailing separators) are
    skipped. *)

Module FS.
Import PyStr.

#[warnings="-register-all"]
Inductive node : Type :=
| File (c : content)
| Dir (entries : list (string * node)).

(** The components of a path: [split "/"] without the empty pieces.
    [cur] is the component being read, reversed. *)
Fixpoint components_from (s : string) (cur : string) : list string :=
  let flush := match cur with EmptyString => [] | _ => [cur] end in
  match s with
  | EmptyString => flush
  | String c r =>
      if Ascii.eqb c "/" then flush ++ components_from r ""
      else components_from r (cur +:+ String c "")
  end.

Definition components (p : string) : list string := components_from p "".

Definition lookup_entry (name : string) (es : list (string * node))
  : option node := Dict.get name es.

Definition set_entry (name : string) (n : node) (es : list (string * node))
  : list (string * node) := Dict.set name n es.

Fixpoint remove_entry (name : string) (es : list (string * node))
  : list (string * node) :=
  match es with
  | [] => []
  | (k, n) :: r =>
      if String.eqb k name then r else (k, n) :: remove_entry name r
  end.

Fixpoint resolve (comps : list string) (n : node) : option node :=
  match comps with
  | [] => Some n
  | c :: rest =>
      match n with
      | File _ => None
      | Dir es =>
          match lookup_entry c es with
          | Some child => resolve rest child
          | None => None
          end
      end
  end.

Definition lookup (p : string) (root : node) : option node :=
  resolve (components p) root.

(** [os.path.isdir(p)], [os.path.exists(p)]. *)
Definition isdir (p : string) (root : node) : bool :=
  match lookup p root with Some (Dir _) => true | _ => false end.

Definition exists_ (p : string) (root : node) : bool :=
  match lookup p root with Some _ => true | None => false end.

Definition read (p : string) (root : node) : option content :=
  match lookup p root with Some (File c) => Some c | _ => None end.

(** The chain of fresh directories [c1/c2/.../cn]. *)
Fixpoint fresh_dirs (comps : list string) : node :=
  match comps with
  | [] => Dir []
  | c :: rest => Dir [(c, fresh_dirs rest)]
  end.

(** [os.makedirs(p)]: every missing directory on the way is created;
    the leaf must not exist. *)
Fixpoint makedirs_at (comps : list string) (n : node) : result node :=
  match comps, n with
  | [], _ => Raise FileExistsError
  | _ :: _, File _ => Raise NotADirectoryError
  | c :: rest, Dir es =>
      match lookup_entry c es with
      | None => Ok (Dir (es ++ [(c, fresh_dirs rest)]))
      | Some child =>
          rbind (makedirs_at rest child)
                (fun child' => Ok (Dir (set_entry c child' es)))
      end
  end.

Definition makedirs (p : string) (root : node) : result node :=
  makedirs_at (components p) root.

(** Writing the node [new] at a path whose parent directory exists; a
    file already there is replaced. *)
Fixpoint write_at (comps : list string) (new : node) (n : node)
  : result node :=
  match comps, n with
  | [], _ => Raise IsADirectoryError
  | _ :: _, File _ => Raise NotADirectoryError
  | [c], Dir es =>
      match lookup_entry c es, new with
      | Some (Dir _), File _ => Raise IsADirectoryError
      | Some (File _), Dir _ => Raise NotADirectoryError
      | _, _ => Ok (Dir (set_entry c new es))
      end
  | c :: rest, Dir es =>
      match lookup_entry c es with
      | None => Raise FileNotFoundError
      | Some child =>
          rbind (write_at rest new child)
                (fun child' => Ok (Dir (set_entry c child' es)))
      end
  end.

(** Unlinking the entry at a path. *)
Fixpoint remove_at (comps : list string) (n : node) : result node :=
  match comps, n with
  | [], _ => Raise FileNotFoundError
  | _ :: _, File _ => Raise NotADirectoryError
  | [c], Dir es =>
      match lookup_entry c es with
      | None => Raise FileNotFoundError
      | Some _ => Ok (Dir (remove_entry c es))
      end
  | c :: rest, Dir es =>
      match lookup_entry c es with
      | None => Raise FileNotFoundError
      | Some child =>
          rbind (remove_at rest child)
                (fun child' => Ok (Dir (set_entry c child' es)))
      end
  end.

Definition same_path (a b : string) : bool :=
  bool_decide (components a = components b).

(** What the system reports for a path that names nothing: [ENOTDIR]
    when the path runs through a regular file, [ENOENT] when an entry
    is missing. *)
Fixpoint resolve_error (comps : list string) (n : node) : exn :=
  match comps, n with
  | [], _ => FileNotFoundError
  | _ :: _, File _ => NotADirectoryError
  | c :: rest, Dir es =>
      match lookup_entry c es with
      | Some child => resolve_error rest child
      | None => FileNotFoundError
      end
  end.

Definition lookup_error (p : string) (root : node) : exn :=
  resolve_error (components p) root.

(** [shutil.copy(src, dst)]: into [dst/basename(src)] when [dst] is a
    directory; the source has to be a regular file and must not be the
    destination itself; a source that names nothing gives the error of
    opening it. Returns the tree and the path written. *)
Definition copy (src dst : string) (root : node) : result (node * string) :=
  let dst := if isdir dst root
             then os_path.join dst (os_path.basename src) else dst in
  match lookup src root with
  | None => Raise (lookup_error src root)
  | Some (Dir _) => Raise IsADirectoryError
  | Some (File c) =>
      if same_path src dst then Raise SameFileError
      else rbind (write_at (components dst) (File c) root)
                 (fun root' => Ok (root', dst))
  end.

(** [os.rename(src, dst)]; for a source that names nothing, the error
    [shutil.move] ends with is the same. *)
Definition rename (src dst : string) (root : node) : result node :=
  match lookup src root with
  | None => Raise (lookup_error src root)
  | Some n =>
      if same_path src dst then Ok root
      else rbind (remove_at (components src) root)
                 (fun root' => write_at (components dst) n root')
  end.

(** [shutil.move(src, dst)]: into [dst/basename(src)] when [dst] is a
    directory, refusing to replace what is already there; otherwise a
    rename. *)
Definition move (src dst : string) (root : node) : result (node * string) :=
  if isdir dst root then
    if same_path src dst then Ok (root, dst)
    else
      let real_dst := os_path.join dst (os_path.basename src) in
      if exists_ real_dst root then Raise ShutilError
      else rbind (rename src real_dst root)
                 (fun root' => Ok (root', real_dst))
  else rbind (rename src dst root) (fun root' => Ok (root', dst)).

Definition dirnames (es : list (string * node)) : list string :=
  map fst (List.filter
         (fun e => match snd e with Dir _ => true | _ => false end) es).

Definition filenames (es : list (string * node)) : list string :=
  map fst (List.filter
         (fun e => match snd e with File _ => true | _ => false end) es).

(** [os.walk(top)] below the node [n] that [top] names: top-down, one
    triple per directory; a [top] that is no directory yields
    nothing. *)
Fixpoint walk_node (top : string) (n : node)
  : list (string * list string * list string) :=
  match n with
  | File _ => []
  | Dir es =>
      (top, dirnames es, filenames es)
      :: (fix subdirs (l : list (string * node)) :=
            match l with
            | [] => []
            | (name, child) :: r =>
                (walk_node (os_path.join top name) child ++ subdirs r)%list
            end) es
  end.

Definition walk (top : string) (root : node)
  : list (string * list string * list string) :=
  match lookup top root with
  | Some n => walk_node top n
  | None => []
  end.

End FS.

(** ** Objects and the store

    Objects live in a store and are named by their index in it, so that
    two names of one object see each other's updates. [Album.tracks] is a
    Python [set] of [Track] objects, compared by identity: a list of
    distinct references, in insertion order (one of the orders a [set]
    may iterate in). *)

Abbreviation ref := nat (only parsing).

Record track : Type := MkTrack {
  t_path : string;
  t_type : string;
  t_metadata : metadata
}.

Record album : Type := MkAlbum {
  a_tracks : list ref;
  a_artist : string;
  a_name : string
}.

Record discography : Type := MkDiscography {
  d_albums : Dict.dict ref;
  d_artist : string
}.

Record library : Type := MkLibrary {
  l_path : string;
  l_discographies : Dict.dict ref
}.

(** A record of [LOGGER]: level, message template, arguments. *)
Inductive level : Type := DEBUG | WARNING | ERROR.

Inductive logarg : Type :=
| AStr (s : string)
| ATrack (r : ref)
| AAlbum (r : ref)
| ADiscography (r : ref).

Record logrec : Type := Log {
  lg_level : level;
  lg_msg : string;
  lg_args : list logarg
}.

Record world : Type := World {
  tracks : list track;
  albums : list album;
  discographies : list discography;
  libraries : list library;
  fs : FS.node;
  logs : list logrec
}.

(** The two module-level flags [main] sets from the command line. *)
Record globals : Type := Globals {
  DRY_RUN : bool;
  MOVE_EXPORT : bool
}.

(** ** The monad of the script: state and exceptions *)

Definition M (A : Type) : Type := world -> result (A * world).

Definition ret {A} (a : A) : M A := fun w => Ok (a, w).

Definition bind {A B} (m : M A) (k : A -> M B) : M B :=
  fun w => match m w with
           | Ok (a, w') => k a w'
           | Raise e => Raise e
           end.

Definition raise {A} (e : exn) : M A := fun _ => Raise e.

(** [try: m except e: h]. The bodies guarded in the script do not change
    the state before they raise. *)
Definition try_except {A} (m : M A) (h : exn -> M A) : M A :=
  fun w => match m w with
           | Ok r => Ok r
           | Raise e => h e w
           end.

#[global] Instance M_ret : MRet M := @ret.
#[global] Instance M_bind : MBind M := fun A B k m => bind m k.

(** [for x in l: body(x)]. *)
Fixpoint for_each {A} (l : list A) (body : A -> M unit) : M unit :=
  match l with
  | [] => ret tt
  | x :: r => body x;; for_each r body
  end.

(** [if b: m]. *)
Definition when (b : bool) (m : M unit) : M unit :=
  if b then m else ret tt.

(** [LOGGER.debug(msg, *args)] and its siblings: a record is appended. *)
Definition logger (lv : level) (msg : string) (args : list logarg) : M unit :=
  fun w => Ok (tt, World (tracks w) (albums w) (discographies w)
                         (libraries w) (fs w) (logs w ++ [Log lv msg args])).

Definition get_fs : M FS.node := fun w => Ok (fs w, w).

(** Running a file-system operation that may raise. *)
Definition fs_op {A} (op : FS.node -> result (FS.node * A)) : M A :=
  fun w => match op (fs w) with
           | Ok (root, a) =>
               Ok (a, World (tracks w) (albums w) (discographies w)
                            (libraries w) root (logs w))
           | Raise e => Raise e
           end.

(** [os.makedirs(path)], [shutil.copy(src, dst)], [shutil.move(src, dst)]. *)
Definition makedirs (path : string) : M unit :=
  fs_op (fun root => rbind (FS.makedirs path root)
                           (fun root' => Ok (root', tt))).

Definition copy (src dst : string) : M string := fs_op (FS.copy src dst).

Definition move (src dst : string) : M string := fs_op (FS.move src dst).

(** The object a reference names. *)
Definition deref {A} (sel : world -> list A) (r : ref) : M A :=
  fun w => match sel w !! r with
           | Some o => Ok (o, w)
           | None => Raise DanglingReference
           end.

(** Object creation: the new object gets the next index. *)
Definition new_track (t : track) : M ref :=
  fun w => Ok (length (tracks w),
               World (tracks w ++ [t]) (albums w) (discographies w)
                     (libraries w) (fs w) (logs w)).

Definition new_album (a : album) : M ref :=
  fun w => Ok (length (albums w),
               World (tracks w) (albums w ++ [a]) (discographies w)
                     (libraries w) (fs w) (logs w)).

Definition new_discography (d : discography) : M ref :=
  fun w => Ok (length (discographies w),
               World (tracks w) (albums w) (discographies w ++ [d])
                     (libraries w) (fs w) (logs w)).

Definition new_library (l : library) : M ref :=
  fun w => Ok (length (libraries w),
               World (tracks w) (albums w) (discographies w)
                     (libraries w ++ [l]) (fs w) (logs w)).

(** Mutation in place: every holder of the reference sees it. *)
Definition put_album (r : ref) (a : album) : M unit :=
  fun w => Ok (tt, World (tracks w) (<[r := a]> (albums w))
                         (discographies w) (libraries w) (fs w) (logs w)).

Definition put_discography (r : ref) (d : discography) : M unit :=
  fun w => Ok (tt, World (tracks w) (albums w)
                         (<[r := d]> (discographies w)) (libraries w)
                         (fs w) (logs w)).

Definition put_library (r : ref) (l : library) : M unit :=
  fun w => Ok (tt, World (tracks w) (albums w) (discographies w)
                         (<[r := l]> (libraries w)) (fs w) (logs w)).

(** ** [mutagen.easyid3.EasyID3]

    [EasyID3(path)] reads the tags of the file; each tag is a list of
    strings. *)
Definition EasyID3 (path : string) : M metadata :=
  root ← get_fs;
  match FS.read path root with
  | Some (Content (ID3Header tags) _) =>
      ret (map (fun kv => (fst kv, TList (snd kv))) tags)
  | Some (Content ID3NoHeader _) => raise ID3NoHeaderError
  | _ => raise MutagenError
  end.

(** ** class Track *)

Module Track.
Import PyStr.

(** [str.format] prints [None] as ["None"]. *)
Definition str_ (o : option string) : string :=
  match o with Some s => s | None => "None" end.

(** [a or b] on optional strings: [a] unless it is [None] or empty. *)
Definition or_ (a b : option string) : option string :=
  match a with
  | Some s => if truthy s then a else b
  | None => b
  end.

Definition __init__ (path : string) : M ref :=
  logger DEBUG "Initialising track: %s" [AStr path];;
  let '(trunk, type) := os_path.splitext path in
  md ← try_except (EasyID3 path)
          (fun e =>
             match e with
             | ID3NoHeaderError =>
                 logger ERROR "File %s has no ID3 tag" [AStr path];;
                 ret [("title", TStr (os_path.basename trunk))]
             | _ => raise e
             end);
  new_track (MkTrack path type md).

Definition get_path (self : track) : string := t_path self.

Definition get_type (self : track) : string :=
  if truthy (t_type self) then t_type self else "mp3".

Definition _get_metadata (self : track) (name : string) : option string :=
  match Dict.get name (t_metadata self) with
  | None => None
  | Some (TStr s) => Some s
  | Some (TList l) => Some (join " & " l)
  end.

(** The [or] chains end with a string literal, so that [str_] only
    unwraps here. *)
Definition get_album (self : track) : string :=
  str_ (or_ (_get_metadata self "album") (Some "Unknown Album")).

Definition get_artist (self : track) : string :=
  str_ (or_ (or_ (_get_metadata self "albumartist")
                 (_get_metadata self "artist"))
            (Some "Unknown Artist")).

Definition get_title (self : track) : option string :=
  _get_metadata self "title".

Definition get_track_number (self : track) : string :=
  match _get_metadata self "tracknumber" with
  | Some track_number =>
      if truthy track_number then re_.sub_total_tracks track_number
      else ""
  | None => ""
  end.

(** The name [export] gives the file. *)
Definition filename (self : track) : string :=
  let track_no := get_track_number self in
  let track_title := get_title self in
  if truthy track_no
  then track_no +:+ ". " +:+ str_ track_title +:+ "." +:+ get_type self
  else str_ track_title +:+ "." +:+ get_type self.

Section Flags.
Variable G : globals.

Definition export (self : ref) (path : string) : M string :=
  logger DEBUG "Exporting %s to %s" [ATrack self; AStr path];;
  t ← deref tracks self;
  let filename := filename t in
  let export_path := os_path.join path filename in
  when (negb (DRY_RUN G))
    (if MOVE_EXPORT G then
       logger DEBUG "Moving %s to %s" [AStr (t_path t); AStr export_path];;
       _ ← move (t_path t) export_path;
       ret tt
     else
       logger DEBUG "Copying %s to %s" [AStr (t_path t); AStr export_path];;
       _ ← copy (t_path t) export_path;
       ret tt);;
  ret (os_path.join path filename).

End Flags.

End Track.

(** ** class Album *)

Module Album.

Definition __init__ (artist name : string) : M ref :=
  logger DEBUG "Initialising album: %s - %s" [AStr artist; AStr name];;
  new_album (MkAlbum [] artist name).

(** [self.tracks.add(track)] on a set of objects. *)
Definition set_add (r : ref) (s : list ref) : list ref :=
  if bool_decide (r ∈ s) then s else s ++ [r].

Definition add (self : ref) (track : ref) : M unit :=
  t ← deref tracks track;
  a ← deref albums self;
  let track_artist := Track.get_artist t in
  when (negb (String.eqb track_artist (a_artist a)))
    (logger WARNING
       "Track artist (%s) does not match album artist (%s): "
       [AStr track_artist; AStr (a_artist a)]);;
  put_album self (MkAlbum (set_add track (a_tracks a))
                          (a_artist a) (a_name a)).

Section Flags.
Variable G : globals.

Definition export (self : ref) (path : string) : M unit :=
  logger DEBUG "Exporting %s to %s" [AAlbum self; AStr path];;
  a ← deref albums self;
  let export_path := os_path.join path (a_name a) in
  root ← get_fs;
  when (negb (FS.isdir export_path root))
    (logger DEBUG "Creating album directory: %s" [AStr export_path];;
     when (negb (DRY_RUN G)) (makedirs export_path));;
  for_each (a_tracks a)
    (fun track => _ ← Track.export G track export_path ; ret tt).

End Flags.

End Album.

(** ** class Discography *)

Module Discography.

Definition __init__ (artist : string) : M ref :=
  logger DEBUG "Initialising discography: %s" [AStr artist];;
  new_discography (MkDiscography [] artist).

Definition get_album (self : ref) (album : string) (create : bool)
  : M (option ref) :=
  d ← deref discographies self;
  when (negb (Dict.contains album (d_albums d)) && create)
    (logger DEBUG "Creating album: %s - %s"
       [AStr (d_artist d); AStr album];;
     a ← Album.__init__ (d_artist d) album;
     put_discography self
       (MkDiscography (Dict.set album a (d_albums d)) (d_artist d)));;
  d ← deref discographies self;
  ret (Dict.get album (d_albums d)).

Section Flags.
Variable G : globals.

Definition export (self : ref) (path : string) : M unit :=
  logger DEBUG "Exporting %s to %s" [ADiscography self; AStr path];;
  d ← deref discographies self;
  let export_path := os_path.join path (d_artist d) in
  root ← get_fs;
  when (negb (FS.isdir export_path root))
    (logger DEBUG "Creating discography directory: %s"
       [AStr export_path];;
     when (negb (DRY_RUN G)) (makedirs export_path));;
  for_each (Dict.values (d_albums d))
    (fun album => Album.export G album export_path).

End Flags.

End Discography.

(** ** class Library *)

Module Library.

Definition get_discography (self : ref) (artist : string) (create : bool)
  : M (option ref) :=
  l ← deref libraries self;
  when (negb (Dict.contains artist (l_discographies l)) && create)
    (logger DEBUG "Creating discography: %s" [AStr artist];;
     d ← Discography.__init__ artist;
     put_library self
       (MkLibrary (l_path l) (Dict.set artist d (l_discographies l))));;
  l ← deref libraries self;
  ret (Dict.get artist (l_discographies l)).

(** The body of the inner loop of [load]. *)
Definition load_file (self : ref) (parent_dir file_ : string) : M unit :=
  track ← Track.__init__ (os_path.join parent_dir file_);
  t ← deref tracks track;
  let track_artist := Track.get_artist t in
  let track_album := Track.get_album t in
  discography ← get_discography self track_artist true;
  match discography with
  | None => raise AttributeError
  | Some discography =>
      album ← Discography.get_album discography track_album true;
      match album with
      | None => raise AttributeError
      | Some album => Album.add album track
      end
  end.

(** The body of the outer loop of [load]. *)
Definition load_dir (self : ref)
    (entry : string * list string * list string) : M unit :=
  let '(parent_dir, _dirs, files) := entry in
  logger DEBUG "Loading media files in sub directory: %s"
    [AStr parent_dir];;
  let files := List.filter re_.MEDIA_FILES_REGEX_match files in
  for_each files (load_file self parent_dir).

Definition load (self : ref) : M unit :=
  l ← deref libraries self;
  logger DEBUG "Loading files from %s" [AStr (l_path l)];;
  root ← get_fs;
  for_each (FS.walk (l_path l) root) (load_dir self).

Definition __init__ (path : string) (autoload : bool) : M ref :=
  logger DEBUG "Initialising library: %s" [AStr path];;
  self ← new_library (MkLibrary path []);
  when autoload (load self);;
  ret self.

Section Flags.
Variable G : globals.

Definition export (self : ref) (path : string) : M unit :=
  logger DEBUG "Exporting library to %s" [AStr path];;
  root ← get_fs;
  when (negb (FS.isdir path root))
    (logger DEBUG "Creating library directory: %s" [];;
     when (negb (DRY_RUN G)) (makedirs path));;
  l ← deref libraries self;
  for_each (Dict.values (l_discographies l))
    (fun discography => Discography.export G discography path).

End Flags.

End Library.

(** ** [main]: the library is loaded from [source] and exported to
    [target] under the flags [G]. *)
Definition main (G : globals) (source target : string) : M unit :=
  library ← Library.__init__ source true;
  Library.export G library target.

Definition initial_world (root : FS.node) : world :=
  World [] [] [] [] root [].

(** * The vocabulary of the statements *)

(** Every reference held by an object names an object of the store. *)
Record wf (w : world) : Prop := {
  wf_libraries :
    Forall (fun l => Forall (fun r => r < length (discographies w))
                            (Dict.values (l_discographies l)))
           (libraries w);
  wf_discographies :
    Forall (fun d => Forall (fun r => r < length (albums w))
                            (Dict.values (d_albums d)))
           (discographies w);
  wf_albums :
    Forall (fun a => Forall (fun r => r < length (tracks w)) (a_tracks a))
           (albums w)
}.

(** [grows w w']: every object of [w] is still there in [w'], holding at
    least what it held; tracks and the file system are as they were. *)
Record grows (w w' : world) : Prop := {
  grows_libraries : forall i l,
    libraries w !! i = Some l ->
    exists l', libraries w' !! i = Some l' /\ l_path l' = l_path l
      /\ forall k v, Dict.get k (l_discographies l) = Some v ->
                     Dict.get k (l_discographies l') = Some v;
  grows_discographies : forall i d,
    discographies w !! i = Some d ->
    exists d', discographies w' !! i = Some d' /\ d_artist d' = d_artist d
      /\ forall k v, Dict.get k (d_albums d) = Some v ->
                     Dict.get k (d_albums d') = Some v;
  grows_albums : forall i a,
    albums w !! i = Some a ->
    exists a', albums w' !! i = Some a' /\ a_artist a' = a_artist a
      /\ a_name a' = a_name a
      /\ forall r, r ∈ a_tracks a -> r ∈ a_tracks a';
  grows_tracks : forall i t,
    tracks w !! i = Some t -> tracks w' !! i = Some t;
  grows_fs : fs w' = fs w
}.

(** The state after [get_discography] has created the discography of
    [artist] in the library [self], which was [l]. *)
Definition with_new_discography (self : ref) (artist : string) (l : library)
    (w : world) : world :=
  World (tracks w) (albums w)
        (discographies w ++ [MkDiscography [] artist])
        (<[self := MkLibrary (l_path l)
                     (Dict.set artist (length (discographies w))
                               (l_discographies l))]> (libraries w))
        (fs w)
        (logs w ++ [Log DEBUG "Creating discography: %s" [AStr artist]]
                ++ [Log DEBUG "Initialising discography: %s" [AStr artist]]).

(** The state after [get_album] has created the album [name] in the
    discography [self], which was [d]. *)
Definition with_new_album (self : ref) (name : string) (d : discography)
    (w : world) : world :=
  World (tracks w)
        (albums w ++ [MkAlbum [] (d_artist d) name])
        (<[self := MkDiscography
                     (Dict.set name (length (albums w)) (d_albums d))
                     (d_artist d)]> (discographies w))
        (libraries w) (fs w)
        (logs w ++ [Log DEBUG "Creating album: %s - %s"
                       [AStr (d_artist d); AStr name]]
                ++ [Log DEBUG "Initialising album: %s - %s"
                       [AStr (d_artist d); AStr name]]).

(** The state after [Album.add] has put the track [tr] in the album
    [self], which was [a]; [lg] is the log it leaves. *)
Definition with_added_track (self tr : ref) (a : album) (lg : list logrec)
    (w : world) : world :=
  World (tracks w)
        (<[self := MkAlbum (Album.set_add tr (a_tracks a))
                           (a_artist a) (a_name a)]> (albums w))
        (discographies w) (libraries w) (fs w) lg.

(** The tags [Track.__init__] keeps for the file at [path] holding [c]. *)
Definition metadata_of (path : string) (c : content) : metadata :=
  match tag c with
  | ID3Header tags => map (fun kv => (fst kv, TList (snd kv))) tags
  | _ => [("title", TStr (os_path.basename (fst (os_path.splitext path))))]
  end.

(** [t] is the track [Track.__init__] builds from a file of [root]. *)
Definition made_from (root : FS.node) (t : track) : Prop :=
  exists c, FS.read (t_path t) root = Some c /\ tag c <> ID3Broken
    /\ t = MkTrack (t_path t) (snd (os_path.splitext (t_path t)))
                   (metadata_of (t_path t) c).

(** The track [r] is in the album [name] of the discography of [artist]
    of the library [self]. *)
Definition in_album (w : world) (self : ref) (artist name : string) (r : ref)
  : Prop :=
  exists l dr d ar a,
    libraries w !! self = Some l
    /\ Dict.get artist (l_discographies l) = Some dr
    /\ discographies w !! dr = Some d
    /\ Dict.get name (d_albums d) = Some ar
    /\ albums w !! ar = Some a
    /\ r ∈ a_tracks a.

(** The invariant of a library under construction: references are valid,
    every track was built from a file of the tree and is filed under its
    own artist and album. *)
Record loaded (self : ref) (w : world) : Prop := {
  loaded_wf : wf w;
  loaded_self : is_Some (libraries w !! self);
  loaded_made : forall r t, tracks w !! r = Some t -> made_from (fs w) t;
  loaded_filed : forall r t,
    tracks w !! r = Some t ->
    in_album w self (Track.get_artist t) (Track.get_album t) r
}.

(** A file [EasyID3] can open: tagged or without a header. *)
Definition readable (root : FS.node) (path : string) : bool :=
  match FS.read path root with
  | Some (Content ID3Broken _) | None => false
  | Some _ => true
  end.

(** The paths [Library.load] builds tracks from, in order. *)
Definition scanned (top : string) (root : FS.node) : list string :=
  flat_map (fun '(parent_dir, _, files) =>
              map (os_path.join parent_dir)
                  (List.filter re_.MEDIA_FILES_REGEX_match files))
           (FS.walk top root).

(** The state with [lg] appended to the log and nothing else changed. *)
Definition add_logs (w : world) (lg : list logrec) : world :=
  World (tracks w) (albums w) (discographies w) (libraries w) (fs w)
        (logs w ++ lg).

(** Two states that differ in their logs at most. *)
Definition same_store (w w' : world) : Prop :=
  tracks w' = tracks w /\ albums w' = albums w
  /\ discographies w' = discographies w /\ libraries w' = libraries w
  /\ fs w' = fs w.

(** The record [Track.export] logs first. *)
Definition exporting_track (r : ref) (path : string) : logrec :=
  Log DEBUG "Exporting %s to %s" [ATrack r; AStr path].

(** A tag that is absent or resolves to the empty string. *)
Definition missing (o : option string) : Prop := o = None \/ o = Some "".

(** The character [c] does not occur in [s]. *)
Definition lacks (c : ascii) (s : string) : bool :=
  PyStr.all_chars (fun d => negb (Ascii.eqb d c)) s.

(** The path of the file [stem.ext] in the directory [dir]. *)
Definition file_path (dir stem ext : string) : string :=
  dir +:+ String "/" (stem +:+ String "." ext).

(** The extension test as the specification words it: the name ends,
    letter case aside, with [.mp3] or [.ogg]. *)
Definition has_media_extension (f : string) : bool :=
  PyStr.endswith ".mp3" (PyStr.lower f) || PyStr.endswith ".ogg" (PyStr.lower f).

(** A record that is no warning. *)
Definition no_warning (rec : logrec) : Prop := lg_level rec <> WARNING.

(** The grouping the scan keeps: a discography carries the artist it is
    bound to, an album the artist of its discography and the name it is
    bound to, a track sits in an album of its own artist and album name,
    and no warning was logged. *)
Record grouped (w : world) : Prop := {
  grouped_discographies : forall i l k dr d,
    libraries w !! i = Some l ->
    Dict.get k (l_discographies l) = Some dr ->
    discographies w !! dr = Some d ->
    d_artist d = k;
  grouped_albums : forall dr d n ar a,
    discographies w !! dr = Some d ->
    Dict.get n (d_albums d) = Some ar ->
    albums w !! ar = Some a ->
    a_artist a = d_artist d /\ a_name a = n;
  grouped_tracks : forall ar a r t,
    albums w !! ar = Some a -> r ∈ a_tracks a ->
    tracks w !! r = Some t ->
    Track.get_artist t = a_artist a /\ Track.get_album t = a_name a;
  grouped_quiet : Forall no_warning (logs w)
}.

(** Two nodes of the same kind: both files or both directories. *)
Definition same_kind (a b : FS.node) : Prop :=
  match a, b with
  | FS.File _, FS.File _ | FS.Dir _, FS.Dir _ => True
  | _, _ => False
  end.

(** [keeps root root']: whatever a path names in [root], it names
    something of the same kind in [root']. *)
Definition keeps (root root' : FS.node) : Prop :=
  forall comps n,
    FS.resolve comps root = Some n ->
    exists n', FS.resolve comps root' = Some n' /\ same_kind n n'.

(** No directory of the tree holds two entries of the same name. *)
Fixpoint names_distinct (n : FS.node) : bool :=
  match n with
  | FS.File _ => true
  | FS.Dir es =>
      bool_decide (NoDup (map fst es))
      && (fix all (l : list (string * FS.node)) : bool :=
            match l with
            | [] => true
            | (_, child) :: r => names_distinct child && all r
            end) es
  end.

(** The objects of two states are the same; the file system and the log
    may differ. *)
Definition same_objects (w w' : world) : Prop :=
  tracks w' = tracks w /\ albums w' = albums w
  /\ discographies w' = discographies w /\ libraries w' = libraries w.

(** What an export may do to a state under the flags [G]: the objects
    stay, and unless files are moved whatever a path names stays of its
    kind. *)
Definition frame (G : globals) (w w' : world) : Prop :=
  same_objects w w'
  /\ (MOVE_EXPORT G = false -> keeps (fs w) (fs w')).

(** In the tree [root] the album [a] stands exported below [dir]: its
    directory is there and so is, for each of its tracks, the path the
    export computes. [trs] are the track objects. *)
Definition album_placed (trs : list track) (dir : string) (a : album)
    (root : FS.node) : Prop :=
  FS.isdir (os_path.join dir (a_name a)) root = true
  /\ forall r t, r ∈ a_tracks a -> trs !! r = Some t ->
       FS.exists_ (os_path.join (os_path.join dir (a_name a))
                                (Track.filename t)) root = true.

(** The same for a discography and its albums [albs]. *)
Definition discography_placed (trs : list track) (albs : list album)
    (dir : string) (d : discography) (root : FS.node) : Prop :=
  FS.isdir (os_path.join dir (d_artist d)) root = true
  /\ forall ar a, ar ∈ Dict.values (d_albums d) -> albs !! ar = Some a ->
       album_placed trs (os_path.join dir (d_artist d)) a root.

(** A file whose tag header [EasyID3] cannot read: it has none, or one
    the reader fails on. *)
Definition no_readable_header (c : content) : Prop :=
  forall tags, tag c <> ID3Header tags.

(** The path [p] runs through a regular file: a proper prefix of it
    names one. *)
Definition through_file (p : string) (root : FS.node) : Prop :=
  exists pre suf c,
    FS.components p = (pre ++ suf)%list /\ suf <> []
    /\ FS.resolve pre root = Some (FS.File c).

(** * Example trees and objects *)

(** The world in which only [/src/song1.mp3] exists, with the tags of the
    scenario of the specification. *)
Definition song1_tags : Dict.dict (list string) :=
  [("artist", ["Foo"]); ("album", ["Bar"]); ("title", ["Baz"]);
   ("tracknumber", ["3/12"])].

Definition song1_root : FS.node :=
  FS.Dir [("src", FS.Dir [("song1.mp3",
                           FS.File (Content (ID3Header song1_tags) "audio-1"))])].

(** The state after [Track("/src/song1.mp3")] in that world. *)
Definition song1_made : world :=
  Eval vm_compute in
    match Track.__init__ "/src/song1.mp3" (initial_world song1_root) with
    | Ok (_, w) => w
    | Raise _ => initial_world song1_root
    end.

(** A track whose [albumartist] tag is there but empty, as [EasyID3]
    gives it for an empty frame. *)
Definition empty_albumartist : track :=
  MkTrack "/src/a.mp3" ".mp3"
          [("albumartist", TList [""]); ("artist", TList ["Foo"])].

(** A library with no discography yet, and one discography with no
    album. *)
Definition fresh_library : world :=
  World [] [] [MkDiscography [] "Foo"] [MkLibrary "/src" []] (FS.Dir []) [].

(** A tree with a headerless [a.ogg] next to the tagged [song1.mp3]. *)
Definition mixed_root : FS.node :=
  FS.Dir [("src", FS.Dir [("a.ogg", FS.File (Content ID3NoHeader "audio-a"));
                          ("song1.mp3",
                           FS.File (Content (ID3Header song1_tags) "audio-1"))])].

(** The library of [mixed_root], loaded. *)
Definition mixed_loaded : world :=
  Eval vm_compute in
    match Library.__init__ "/src" true (initial_world mixed_root) with
    | Ok (_, w) => w
    | Raise _ => initial_world mixed_root
    end.

(** The tags of the collision scenario: no track number. *)
Definition same_title_tags : Dict.dict (list string) :=
  [("artist", ["A"]); ("album", ["B"]); ("title", ["Same Title"])].

(** Two distinct files with the same tags. *)
Definition same_title_root : FS.node :=
  FS.Dir [("src",
           FS.Dir [("a.mp3", FS.File (Content (ID3Header same_title_tags) "audio-a"));
                   ("b.mp3", FS.File (Content (ID3Header same_title_tags) "audio-b"))])].

(** The same two files without an extension, for which [get_type]
    answers ["mp3"]. *)
Definition bare_root : FS.node :=
  FS.Dir [("src",
           FS.Dir [("a", FS.File (Content (ID3Header same_title_tags) "audio-a"));
                   ("b", FS.File (Content (ID3Header same_title_tags) "audio-b"))])].

(** An album of the two bare files, added in the given order (a [set]
    may iterate either way), exported in copy mode. *)
Definition export_two (first_b : bool) : M unit :=
  a ← Track.__init__ "/src/a";
  b ← Track.__init__ "/src/b";
  album ← Album.__init__ "A" "B";
  Album.add album (if first_b then b else a);;
  Album.add album (if first_b then a else b);;
  Album.export (Globals false false) album "/dst/A".

(** The file system [m] leaves when run on the tree [root]. *)
Definition fs_after {A} (m : M A) (root : FS.node) : option FS.node :=
  match m (initial_world root) with
  | Ok (_, w) => Some (fs w)
  | Raise _ => None
  end.

(** A line feed as a string. *)
Definition nl : string := String PyStr.LF "".

(** A tree with a file whose name ends with a line feed after [.mp3]. *)
Definition newline_root : FS.node :=
  FS.Dir [("src",
           FS.Dir [("x.mp3" +:+ nl, FS.File (Content ID3NoHeader "audio-x"));
                   ("y.flac", FS.File (Content ID3NoHeader "audio-y"));
                   ("notes.txt", FS.File (Content ID3NoHeader "text"))])].

(** A tagged file without a title. *)
Definition untitled_root : FS.node :=
  FS.Dir [("src",
           FS.Dir [("u.mp3",
                    FS.File (Content (ID3Header [("artist", ["Foo"])]) "audio-u"))])].

(** An empty album of another artist and one track to add to it. *)
Definition stray_track : world :=
  World [MkTrack "/src/a.mp3" ".mp3" [("artist", TList ["Foo"])]]
        [MkAlbum [] "Various" "Hits"] [] [] (FS.Dir []) [].

(** The library of [song1_root], loaded, then exported to [/dst] in copy
    mode. *)
Definition song1_loaded : world :=
  Eval vm_compute in
    match Library.__init__ "/src" true (initial_world song1_root) with
    | Ok (_, w) => w
    | Raise _ => initial_world song1_root
    end.

Definition song1_exported : world :=
  Eval vm_compute in
    match Library.export (Globals false false) 0 "/dst" song1_loaded with
    | Ok (_, w) => w
    | Raise _ => song1_loaded
    end.

(** The track of [song1_made] copied, or moved, into [/src]. *)
Definition song1_copied : world :=
  Eval vm_compute in
    match Track.export (Globals false false) 0 "/src" song1_made with
    | Ok (_, w) => w
    | Raise _ => song1_made
    end.

Definition song1_moved : world :=
  Eval vm_compute in
    match Track.export (Globals false true) 0 "/src" song1_made with
    | Ok (_, w) => w
    | Raise _ => song1_made
    end.

(** A tree with [b.mp3], whose header cannot be read, next to the
    tagged [song1.mp3]. *)
Definition broken_root : FS.node :=
  FS.Dir [("src", FS.Dir [("b.mp3", FS.File (Content ID3Broken "junk"));
                          ("song1.mp3",
                           FS.File (Content (ID3Header song1_tags) "audio-1"))])].

(** A track whose path runs through the regular file [/src/song1.mp3]. *)
Definition inner_track : world :=
  World [MkTrack "/src/song1.mp3/inner.mp3" ".mp3" [("title", TStr "inner")]]
        [] [] [] song1_root [].

(** * Properties *)

Ltac run :=
  unfold mbind, mret, M_bind, M_ret, bind, ret, raise, when, logger, deref,
    get_fs, makedirs, copy, move, fs_op, new_track, new_album, new_discography,
    new_library, put_album, put_discography, put_library; simpl.

(** ** Strings, paths and the regular expressions *)

#[local] Arguments String.append !s1 s2 / : simpl nomatch.

Section StringFacts.
Import PyStr.

Lemma append_nil_r (s : string) : s +:+ "" = s.
Proof. induction s as [|c s IH]; simpl; [done | by f_equal]. Qed.

Lemma is_digit_not_LF (c : ascii) : is_digit c = true -> Ascii.eqb c LF = false.
Proof.
  intros H. destruct (Ascii.eqb_spec c LF) as [->|]; [|done].
  by vm_compute in H.
Qed.

(** [\d+$] matches a non-empty run of digits that ends the string. *)
Lemma digits_end_all_digits (m : string) :
  m <> "" -> all_chars is_digit m = true -> re_.digits_end m = Some "".
Proof.
  induction m as [|c r IH]; [done|]. intros _ H. simpl in H.
  apply andb_true_iff in H as [Hc Hr]. simpl. rewrite Hc.
  destruct r as [|d r']; [done|].
  assert (Hd : Ascii.eqb d LF = false).
  { simpl in Hr. apply andb_true_iff in Hr as [Hd _].
    by apply is_digit_not_LF. }
  destruct r' as [|e r'']; [rewrite Hd|]; by apply IH.
Qed.

(** [\d+$] cannot run across a slash. *)
Lemma digits_end_slash (s t : string) :
  re_.digits_end (s +:+ String "/" t) = None.
Proof.
  induction s as [|c r IH]; [done|].
  simpl. destruct (is_digit c); [|done].
  destruct r as [|d r']; simpl.
  - by destruct t.
  - destruct (r' +:+ String "/" t) eqn:E; [by destruct r'|].
    simpl in IH. by rewrite E in IH.
Qed.

(** [re.sub(r'/\d+$', '', n + "/" + m)] is [n] for digits [m]. *)
Lemma sub_total_tracks_suffix (n m : string) :
  m <> "" -> all_chars is_digit m = true ->
  re_.sub_total_tracks (n +:+ String "/" m) = n.
Proof.
  intros Hm Hd. induction n as [|c r IH]; simpl.
  - by rewrite digits_end_all_digits.
  - rewrite digits_end_slash, IH. by destruct (Ascii.eqb c "/").
Qed.

(** Where [rfind] finds the character, the string continues with it. *)
Lemma rfind_from_spec (c : ascii) (s : string) (i last : Z) :
  rfind_from c s i last = last
  \/ exists (k : nat) (r : string),
       rfind_from c s i last = (i + Z.of_nat k)%Z /\ drop k s = String c r.
Proof.
  revert i last. induction s as [|d s IH]; intros i last; simpl; [by left|].
  destruct (IH (i + 1)%Z (if Ascii.eqb d c then i else last))
    as [E | (k & r & E & Hk)].
  - rewrite E. destruct (Ascii.eqb_spec d c) as [->|]; [|by left].
    right. exists 0%nat, s. split; [lia | done].
  - right. exists (S k), r. split; [lia | done].
Qed.

Lemma rfind_drop (c : ascii) (s : string) :
  (0 <= rfind c s)%Z -> exists r, drop (Z.to_nat (rfind c s)) s = String c r.
Proof.
  intros H. unfold rfind in *.
  destruct (rfind_from_spec c s 0 (-1)) as [E | (k & r & E & Hk)]; [lia|].
  exists r. rewrite E. by replace (Z.to_nat (0 + Z.of_nat k)) with k by lia.
Qed.

Lemma rfind_ge (c : ascii) (s : string) : (-1 <= rfind c s)%Z.
Proof.
  unfold rfind.
  destruct (rfind_from_spec c s 0 (-1)) as [E | (k & r & E & Hk)]; lia.
Qed.

(** The extension [os.path.splitext] returns is empty or starts with
    its dot. *)
Lemma splitext_ext (p : string) :
  snd (os_path.splitext p) = ""
  \/ exists e, snd (os_path.splitext p) = String "." e.
Proof.
  unfold os_path.splitext.
  destruct (Z.gtb_spec (rfind "." p) (rfind "/" p)) as [Hgt|]; [|by left].
  destruct (os_path.has_non_dot _ _ _); [|by left].
  right. simpl. apply rfind_drop. pose proof (rfind_ge "/" p). lia.
Qed.

Lemma rfind_from_lacks (c : ascii) (s : string) (i last : Z) :
  lacks c s = true -> rfind_from c s i last = last.
Proof.
  revert i last. induction s as [|d s IH]; intros i last H; [done|].
  simpl in *. apply andb_true_iff in H as [Hd Hs].
  apply negb_true_iff in Hd. rewrite Hd. by apply IH.
Qed.

Lemma rfind_from_app (c : ascii) (a b : string) (i last : Z) :
  lacks c b = true ->
  rfind_from c (a +:+ String c b) i last = (i + Z.of_nat (String.length a))%Z.
Proof.
  intros Hb. revert i last. induction a as [|d a IH]; intros i last; simpl.
  - rewrite Ascii.eqb_refl, rfind_from_lacks by done. lia.
  - rewrite IH. lia.
Qed.

Lemma rfind_app (c : ascii) (a b : string) :
  lacks c b = true -> rfind c (a +:+ String c b) = Z.of_nat (String.length a).
Proof. intros H. unfold rfind. by rewrite rfind_from_app. Qed.

Lemma lacks_app (c : ascii) (a b : string) :
  lacks c (a +:+ b) = lacks c a && lacks c b.
Proof.
  unfold lacks. induction a as [|d a IH]; simpl; [done|].
  by rewrite IH, andb_assoc.
Qed.

Lemma append_assoc (a b c : string) : (a +:+ b) +:+ c = a +:+ (b +:+ c).
Proof. induction a as [|d a IH]; simpl; [done | by f_equal]. Qed.

Lemma take_app (a b : string) : take (String.length a) (a +:+ b) = a.
Proof. induction a as [|d a IH]; simpl; [by destruct b | by f_equal]. Qed.

Lemma drop_app (a b : string) : drop (String.length a) (a +:+ b) = b.
Proof. induction a as [|d a IH]; simpl; [by destruct b | done]. Qed.

Lemma length_append (a b : string) :
  String.length (a +:+ b) = String.length a + String.length b.
Proof. induction a as [|d a IH]; simpl; [done | by f_equal]. Qed.

(** [splitext] and [basename] on [dir/stem.ext], for a stem and an
    extension without dots and separators. *)
Lemma splitext_file_path (dir stem ext : string) :
  stem <> "" -> lacks "/" stem = true -> lacks "." stem = true ->
  lacks "/" ext = true -> lacks "." ext = true ->
  os_path.splitext (file_path dir stem ext)
  = (dir +:+ String "/" stem, String "." ext).
Proof.
  intros Hne Hs1 Hs2 He1 He2. unfold os_path.splitext, file_path.
  assert (Hsep : rfind "/" (dir +:+ String "/" (stem +:+ String "." ext))
                 = Z.of_nat (String.length dir)).
  { apply rfind_app. rewrite lacks_app, Hs1. simpl. exact He1. }
  assert (Hp : dir +:+ String "/" (stem +:+ String "." ext)
               = (dir +:+ String "/" stem) +:+ String "." ext).
  { by rewrite append_assoc. }
  assert (Hdot : rfind "." (dir +:+ String "/" (stem +:+ String "." ext))
                 = Z.of_nat (String.length (dir +:+ String "/" stem))).
  { rewrite Hp. by apply rfind_app. }
  rewrite Hsep, Hdot, length_append. simpl String.length.
  destruct (Z.gtb_spec (Z.of_nat (String.length dir + S (String.length stem)))
                       (Z.of_nat (String.length dir))) as [_|]; [|lia].
  replace (Z.to_nat (Z.of_nat (String.length dir) + 1))
    with (String.length (dir +:+ "/")) by (rewrite length_append; simpl; lia).
  rewrite Nat2Z.id.
  replace (String.length dir + S (String.length stem)
           - String.length (dir +:+ "/"))
    with (String.length stem) by (rewrite length_append; simpl; lia).
  destruct stem as [|s0 stem]; [done|]. cbn [String.length os_path.has_non_dot].
  unfold char_at.
  replace (dir +:+ String "/" (String s0 stem +:+ String "." ext))
    with ((dir +:+ "/") +:+ (String s0 stem +:+ String "." ext))
    by (by rewrite append_assoc).
  rewrite drop_app. simpl in Hs2. apply andb_true_iff in Hs2 as [Hs0 _].
  apply negb_true_iff in Hs0.
  assert (E : String.eqb (take 1 (String s0 stem +:+ String "." ext)) "."
              = false).
  { simpl. destruct (stem +:+ String "." ext); simpl; by rewrite Hs0. }
  rewrite E. simpl negb. cbv iota.
  assert (Hlen : String.length dir + S (S (String.length stem))
                 = String.length (dir +:+ String "/" (String s0 stem))).
  { rewrite length_append. simpl. lia. }
  assert (Hq : (dir +:+ "/") +:+ String s0 stem +:+ String "." ext
               = (dir +:+ String "/" (String s0 stem)) +:+ String "." ext).
  { rewrite !append_assoc. reflexivity. }
  by rewrite Hlen, Hq, take_app, drop_app.
Qed.

Lemma basename_stem (dir stem : string) :
  lacks "/" stem = true -> os_path.basename (dir +:+ String "/" stem) = stem.
Proof.
  intros H. unfold os_path.basename. rewrite rfind_app by done.
  replace (Z.to_nat (Z.of_nat (String.length dir) + 1))
    with (String.length (dir +:+ "/")) by (rewrite length_append; simpl; lia).
  replace (dir +:+ String "/" stem) with ((dir +:+ "/") +:+ stem)
    by (by rewrite append_assoc).
  apply drop_app.
Qed.

End StringFacts.

(** ** Track: the pure accessors *)

Section TrackFacts.
Import PyStr.

Lemma or__nonempty (s : string) (b : option string) :
  s <> "" -> Track.or_ (Some s) b = Some s.
Proof. by destruct s. Qed.

Lemma or__assoc (a b c : option string) :
  Track.or_ (Track.or_ a b) c = Track.or_ a (Track.or_ b c).
Proof. destruct a as [[|]|]; done. Qed.

(** [Track.__init__] stores the path, the extension as
    [os.path.splitext] gives it, and the tags or the fallback title. *)
Lemma Track_init_spec (path : string) (w : world) (r : ref) (w' : world) :
  Track.__init__ path w = Ok (r, w') ->
  exists md,
    r = length (tracks w)
    /\ tracks w'
       = (tracks w ++ [MkTrack path (snd (os_path.splitext path)) md])%list
    /\ albums w' = albums w /\ discographies w' = discographies w
    /\ libraries w' = libraries w /\ fs w' = fs w.
Proof.
  unfold Track.__init__, EasyID3, try_except, logger, new_track, get_fs,
    raise, mbind, mret, M_bind, M_ret, bind, ret. simpl.
  destruct (os_path.splitext path) as [trunk type] eqn:E. simpl.
  destruct (FS.read path (fs w)) as [[[tags| |] a]|]; simpl; try done;
    intros [= <- <-]; simpl; eauto 10.
Qed.

End TrackFacts.

(** ** Dictionaries *)

Section DictFacts.
Context {V : Type}.
Implicit Types (d : Dict.dict V) (k : string) (v : V).

Lemma get_set_eq k v d : Dict.get k (Dict.set k v d) = Some v.
Proof.
  induction d as [|[k' v'] d IH]; simpl.
  - by rewrite String.eqb_refl.
  - destruct (String.eqb_spec k' k) as [->|N]; simpl.
    + by rewrite String.eqb_refl.
    + by destruct (String.eqb_spec k' k).
Qed.

Lemma get_set_ne k k' v d : k <> k' -> Dict.get k' (Dict.set k v d) = Dict.get k' d.
Proof.
  intros N. induction d as [|[k0 v0] d IH]; simpl.
  - by destruct (String.eqb_spec k k').
  - destruct (String.eqb_spec k0 k) as [->|N0]; simpl.
    + by destruct (String.eqb_spec k k').
    + by rewrite IH.
Qed.

(** An assignment to a new key keeps every binding there was. *)
Lemma get_set_mono k k' v v' d :
  Dict.get k d = None -> Dict.get k' d = Some v' ->
  Dict.get k' (Dict.set k v d) = Some v'.
Proof.
  intros Hk Hk'. rewrite get_set_ne; [done|]. intros ->. congruence.
Qed.

Lemma contains_get k d :
  Dict.contains k d = match Dict.get k d with Some _ => true | None => false end.
Proof. done. Qed.

Lemma get_values k v d : Dict.get k d = Some v -> v ∈ Dict.values d.
Proof.
  induction d as [|[k' v'] d IH]; simpl; [done|].
  destruct (String.eqb k' k).
  - intros [= ->]. apply list_elem_of_here.
  - intros H. apply list_elem_of_further. by apply IH.
Qed.

Lemma Forall_values_set (P : V -> Prop) k v d :
  P v -> Forall P (Dict.values d) -> Forall P (Dict.values (Dict.set k v d)).
Proof.
  intros Hv. induction d as [|[k' v'] d IH]; simpl.
  - by constructor.
  - intros H. apply Forall_cons in H as [H1 H2].
    destruct (String.eqb k' k); simpl; constructor; auto.
Qed.

End DictFacts.

(** ** The store: valid references and growth *)

Lemma grows_refl (w : world) : grows w w.
Proof. split; eauto 10. Qed.

Lemma grows_trans (w1 w2 w3 : world) : grows w1 w2 -> grows w2 w3 -> grows w1 w3.
Proof.
  intros [L1 D1 A1 T1 F1] [L2 D2 A2 T2 F2]. split.
  - intros i l H. destruct (L1 _ _ H) as (l' & H' & P' & G').
    destruct (L2 _ _ H') as (l'' & H'' & P'' & G'').
    exists l''. split; [done|]. split; [congruence | eauto].
  - intros i d H. destruct (D1 _ _ H) as (d' & H' & P' & G').
    destruct (D2 _ _ H') as (d'' & H'' & P'' & G'').
    exists d''. split; [done|]. split; [congruence | eauto].
  - intros i a H. destruct (A1 _ _ H) as (a' & H' & P' & Q' & G').
    destruct (A2 _ _ H') as (a'' & H'' & P'' & Q'' & G'').
    exists a''. split; [done|]. split; [congruence|]. split; [congruence | eauto].
  - eauto.
  - congruence.
Qed.

Lemma Forall_lt_mono (n m : nat) (l : list nat) :
  n <= m -> Forall (fun r => r < n) l -> Forall (fun r => r < m) l.
Proof.
  intros H HF. eapply Forall_impl; [exact HF|]. intros r Hr. simpl in Hr. lia.
Qed.

Lemma lookup_snoc {A} (l : list A) (x : A) : (l ++ [x])%list !! length l = Some x.
Proof. by apply list_lookup_middle. Qed.

Lemma lookup_snoc_old {A} (l : list A) (x y : A) (i : nat) :
  l !! i = Some y -> (l ++ [x])%list !! i = Some y.
Proof. apply lookup_app_l_Some. Qed.

(** ** Lookup-or-create *)

Lemma get_discography_lookup (self : ref) (artist : string) (w : world)
    (l : library) :
  libraries w !! self = Some l ->
  Library.get_discography self artist false w
  = Ok (Dict.get artist (l_discographies l), w).
Proof.
  intros H. unfold Library.get_discography. run. rewrite H. simpl.
  rewrite andb_false_r. simpl. by rewrite H.
Qed.

Lemma get_discography_found (self : ref) (artist : string) (w : world)
    (l : library) (dr : ref) :
  libraries w !! self = Some l ->
  Dict.get artist (l_discographies l) = Some dr ->
  Library.get_discography self artist true w = Ok (Some dr, w).
Proof.
  intros H Hd. unfold Library.get_discography. run. rewrite H. simpl.
  rewrite contains_get, Hd. simpl. by rewrite H, Hd.
Qed.

Lemma get_discography_created (self : ref) (artist : string) (w : world)
    (l : library) :
  libraries w !! self = Some l ->
  Dict.get artist (l_discographies l) = None ->
  Library.get_discography self artist true w
  = Ok (Some (length (discographies w)), with_new_discography self artist l w).
Proof.
  intros H Hd. unfold Library.get_discography, Discography.__init__. run.
  rewrite H. simpl. rewrite contains_get, Hd. simpl.
  rewrite list_lookup_insert_eq by (by eapply lookup_lt_Some).
  simpl. rewrite get_set_eq. unfold with_new_discography.
  by rewrite <- app_assoc.
Qed.

Lemma get_album_lookup (self : ref) (name : string) (w : world)
    (d : discography) :
  discographies w !! self = Some d ->
  Discography.get_album self name false w
  = Ok (Dict.get name (d_albums d), w).
Proof.
  intros H. unfold Discography.get_album. run. rewrite H. simpl.
  rewrite andb_false_r. simpl. by rewrite H.
Qed.

Lemma get_album_found (self : ref) (name : string) (w : world)
    (d : discography) (ar : ref) :
  discographies w !! self = Some d ->
  Dict.get name (d_albums d) = Some ar ->
  Discography.get_album self name true w = Ok (Some ar, w).
Proof.
  intros H Hd. unfold Discography.get_album. run. rewrite H. simpl.
  rewrite contains_get, Hd. simpl. by rewrite H, Hd.
Qed.

Lemma get_album_created (self : ref) (name : string) (w : world)
    (d : discography) :
  discographies w !! self = Some d ->
  Dict.get name (d_albums d) = None ->
  Discography.get_album self name true w
  = Ok (Some (length (albums w)), with_new_album self name d w).
Proof.
  intros H Hd. unfold Discography.get_album, Album.__init__. run.
  rewrite H. simpl. rewrite contains_get, Hd. simpl.
  rewrite list_lookup_insert_eq by (by eapply lookup_lt_Some).
  simpl. rewrite get_set_eq. unfold with_new_album.
  by rewrite <- app_assoc.
Qed.

Lemma wf_with_new_discography (self : ref) (artist : string) (l : library)
    (w : world) :
  wf w -> libraries w !! self = Some l ->
  wf (with_new_discography self artist l w).
Proof.
  intros [WL WD WA] H. split; simpl.
  - rewrite length_app. simpl.
    assert (WL' : Forall (fun l => Forall (fun r => r < length (discographies w) + 1)
                                     (Dict.values (l_discographies l)))
                         (libraries w)).
    { eapply Forall_impl; [exact WL|]. intros l0. simpl.
      apply Forall_lt_mono. lia. }
    apply Forall_insert; [exact WL'|]. simpl.
    apply Forall_values_set; [lia|].
    by apply (Forall_lookup_1 _ _ _ _ WL' H).
  - apply Forall_app. split; [exact WD|]. by repeat constructor.
  - exact WA.
Qed.

Lemma grows_with_new_discography (self : ref) (artist : string) (l : library)
    (w : world) :
  libraries w !! self = Some l ->
  Dict.get artist (l_discographies l) = None ->
  grows w (with_new_discography self artist l w).
Proof.
  intros H Hd. split; [| |by eauto 10|by eauto|done].
  - intros i l0 Hi. simpl. destruct (decide (self = i)) as [->|N].
    + rewrite list_lookup_insert_eq by (by eapply lookup_lt_Some).
      rewrite H in Hi. injection Hi as <-.
      eexists. split; [done|]. simpl. split; [done|].
      intros k v Hk. by apply get_set_mono.
    + rewrite list_lookup_insert_ne by done. eauto.
  - intros i d Hi. exists d. split; [by apply lookup_snoc_old | done].
Qed.

Lemma wf_with_new_album (self : ref) (name : string) (d : discography)
    (w : world) :
  wf w -> discographies w !! self = Some d ->
  wf (with_new_album self name d w).
Proof.
  intros [WL WD WA] H. split; simpl.
  - by rewrite length_insert.
  - rewrite length_app. simpl.
    assert (WD' : Forall (fun d => Forall (fun r => r < length (albums w) + 1)
                                     (Dict.values (d_albums d)))
                         (discographies w)).
    { eapply Forall_impl; [exact WD|]. intros d0. simpl.
      apply Forall_lt_mono. lia. }
    apply Forall_insert; [exact WD'|]. simpl.
    apply Forall_values_set; [lia|].
    by apply (Forall_lookup_1 _ _ _ _ WD' H).
  - apply Forall_app. split; [exact WA|]. by repeat constructor.
Qed.

Lemma grows_with_new_album (self : ref) (name : string) (d : discography)
    (w : world) :
  discographies w !! self = Some d ->
  Dict.get name (d_albums d) = None ->
  grows w (with_new_album self name d w).
Proof.
  intros H Hd. split; [by eauto 10| | |by eauto|done].
  - intros i d0 Hi. simpl. destruct (decide (self = i)) as [->|N].
    + rewrite list_lookup_insert_eq by (by eapply lookup_lt_Some).
      rewrite H in Hi. injection Hi as <-.
      eexists. split; [done|]. simpl. split; [done|].
      intros k v Hk. by apply get_set_mono.
    + rewrite list_lookup_insert_ne by done. eauto.
  - intros i a Hi. exists a. split; [by apply lookup_snoc_old | done].
Qed.

(** [get_discography(artist, create=True)] returns a discography of the
    store, in a state that has only grown. *)
Lemma get_discography_ok (self : ref) (artist : string) (w : world)
    (l : library) :
  wf w -> libraries w !! self = Some l ->
  exists dr w' l' d,
    Library.get_discography self artist true w = Ok (Some dr, w')
    /\ wf w' /\ grows w w' /\ tracks w' = tracks w
    /\ libraries w' !! self = Some l'
    /\ Dict.get artist (l_discographies l') = Some dr
    /\ discographies w' !! dr = Some d.
Proof.
  intros W H. destruct (Dict.get artist (l_discographies l)) as [dr|] eqn:E.
  - assert (Hlt : dr < length (discographies w)).
    { pose proof (Forall_lookup_1 _ _ _ _ (wf_libraries _ W) H) as F.
      simpl in F. rewrite Forall_forall in F. apply F.
      by eapply get_values. }
    destruct (lookup_lt_is_Some_2 _ _ Hlt) as [d Hd].
    exists dr, w, l, d. rewrite (get_discography_found _ _ _ _ _ H E).
    split_and!; auto using grows_refl.
  - eexists _, _, _, _. rewrite (get_discography_created _ _ _ _ H E).
    split; [done|]. split; [by apply wf_with_new_discography|].
    split; [by apply grows_with_new_discography|]. split; [done|]. simpl.
    rewrite list_lookup_insert_eq by (by eapply lookup_lt_Some).
    split; [done|]. simpl. split; [apply get_set_eq | apply lookup_snoc].
Qed.

Lemma get_album_ok (self : ref) (name : string) (w : world)
    (d : discography) :
  wf w -> discographies w !! self = Some d ->
  exists ar w' d' a,
    Discography.get_album self name true w = Ok (Some ar, w')
    /\ wf w' /\ grows w w' /\ tracks w' = tracks w
    /\ discographies w' !! self = Some d'
    /\ Dict.get name (d_albums d') = Some ar
    /\ albums w' !! ar = Some a.
Proof.
  intros W H. destruct (Dict.get name (d_albums d)) as [ar|] eqn:E.
  - assert (Hlt : ar < length (albums w)).
    { pose proof (Forall_lookup_1 _ _ _ _ (wf_discographies _ W) H) as F.
      simpl in F. rewrite Forall_forall in F. apply F.
      by eapply get_values. }
    destruct (lookup_lt_is_Some_2 _ _ Hlt) as [a Ha].
    exists ar, w, d, a. rewrite (get_album_found _ _ _ _ _ H E).
    split_and!; auto using grows_refl.
  - eexists _, _, _, _. rewrite (get_album_created _ _ _ _ H E).
    split; [done|]. split; [by apply wf_with_new_album|].
    split; [by apply grows_with_new_album|]. split; [done|]. simpl.
    rewrite list_lookup_insert_eq by (by eapply lookup_lt_Some).
    split; [done|]. simpl. split; [apply get_set_eq | apply lookup_snoc].
Qed.

(** ** [Album.add] *)

Lemma elem_of_set_add (r : ref) (s : list ref) : r ∈ Album.set_add r s.
Proof.
  unfold Album.set_add. case_bool_decide; [done|].
  apply elem_of_app. right. apply list_elem_of_here.
Qed.

Lemma set_add_mono (r r' : ref) (s : list ref) : r' ∈ s -> r' ∈ Album.set_add r s.
Proof.
  unfold Album.set_add. case_bool_decide; [done|].
  intros Hin. apply elem_of_app. by left.
Qed.

Lemma add_spec (self tr : ref) (w : world) (a : album) (t : track) :
  albums w !! self = Some a -> tracks w !! tr = Some t ->
  exists lg, Album.add self tr w = Ok (tt, with_added_track self tr a lg w).
Proof.
  intros Ha Ht. unfold Album.add. run. rewrite Ht, Ha. simpl.
  destruct (negb _); simpl; eauto.
Qed.

Lemma wf_with_added_track (self tr : ref) (a : album) (lg : list logrec)
    (w : world) (t : track) :
  wf w -> albums w !! self = Some a -> tracks w !! tr = Some t ->
  wf (with_added_track self tr a lg w).
Proof.
  intros [WL WD WA] Ha Ht. split; simpl.
  - exact WL.
  - by rewrite length_insert.
  - apply Forall_insert; [exact WA|]. simpl.
    pose proof (Forall_lookup_1 _ _ _ _ WA Ha) as F. simpl in F.
    unfold Album.set_add. case_bool_decide; [done|].
    apply Forall_app. split; [done|].
    repeat constructor. by eapply lookup_lt_Some.
Qed.

Lemma grows_with_added_track (self tr : ref) (a : album) (lg : list logrec)
    (w : world) :
  albums w !! self = Some a -> grows w (with_added_track self tr a lg w).
Proof.
  intros Ha. split; [by eauto 10|by eauto 10| |by eauto|done].
  intros i a0 Hi. simpl. destruct (decide (self = i)) as [->|N].
  - rewrite list_lookup_insert_eq by (by eapply lookup_lt_Some).
    rewrite Ha in Hi. injection Hi as <-.
    eexists. split; [done|]. simpl. split; [done|]. split; [done|].
    intros r. apply set_add_mono.
  - rewrite list_lookup_insert_ne by done. eauto 10.
Qed.

Lemma add_ok (self tr : ref) (w : world) (a : album) (t : track) :
  wf w -> albums w !! self = Some a -> tracks w !! tr = Some t ->
  exists w' a',
    Album.add self tr w = Ok (tt, w')
    /\ wf w' /\ grows w w' /\ tracks w' = tracks w
    /\ albums w' !! self = Some a' /\ tr ∈ a_tracks a'.
Proof.
  intros W Ha Ht. destruct (add_spec _ _ _ _ _ Ha Ht) as [lg E].
  eexists _, _. split; [exact E|].
  split; [by eapply wf_with_added_track|].
  split; [by apply grows_with_added_track|]. split; [done|]. simpl.
  rewrite list_lookup_insert_eq by (by eapply lookup_lt_Some).
  split; [done|]. apply elem_of_set_add.
Qed.

(** ** The scan *)

Lemma in_album_grows (w w' : world) (self : ref) (artist name : string)
    (r : ref) :
  grows w w' -> in_album w self artist name r -> in_album w' self artist name r.
Proof.
  intros [GL GD GA _ _] (l & dr & d & ar & a & Hl & Hdr & Hd & Har & Ha & Hr).
  destruct (GL _ _ Hl) as (l' & Hl' & _ & Gl).
  destruct (GD _ _ Hd) as (d' & Hd' & _ & Gd).
  destruct (GA _ _ Ha) as (a' & Ha' & _ & _ & Ga).
  exists l', dr, d', ar, a'. split_and!; auto.
Qed.

Lemma readable_spec (root : FS.node) (path : string) :
  readable root path = true ->
  exists c, FS.read path root = Some c /\ tag c <> ID3Broken.
Proof.
  unfold readable. destruct (FS.read path root) as [[[tags| |] a]|]; try done;
    eexists; split; done.
Qed.

Lemma Track_init_ok (path : string) (w : world) (c : content) :
  FS.read path (fs w) = Some c -> tag c <> ID3Broken -> wf w ->
  exists w',
    Track.__init__ path w = Ok (length (tracks w), w')
    /\ wf w' /\ grows w w'
    /\ tracks w' = (tracks w ++ [MkTrack path (snd (os_path.splitext path))
                                         (metadata_of path c)])%list.
Proof.
  intros Hc Hb [WL WD WA].
  unfold Track.__init__, EasyID3, try_except, metadata_of. run.
  destruct (os_path.splitext path) as [trunk type] eqn:E. simpl.
  rewrite Hc. destruct c as [[tags| |] a]; simpl; [| |done];
    (eexists; split; [done|]; split; [|split; [|done]]).
  1, 3: split; simpl; [done | done |];
    (eapply Forall_impl; [exact WA|]); intros a0; simpl;
    apply Forall_lt_mono; rewrite length_app; lia.
  1, 2: split; simpl; eauto 10; intros i t; apply lookup_snoc_old.
Qed.

Lemma loaded_logs (self : ref) (w : world) (lg : list logrec) :
  loaded self w ->
  loaded self (World (tracks w) (albums w) (discographies w) (libraries w)
                     (fs w) lg).
Proof. intros [[WL WD WA] S M F]. split; [split|..]; done. Qed.

Lemma grows_logs (w : world) (lg : list logrec) :
  grows w (World (tracks w) (albums w) (discographies w) (libraries w)
                 (fs w) lg).
Proof. split; eauto 10. Qed.

(** One file of the scan: a track is built, filed, and the invariant
    holds again. *)
Lemma load_file_ok (self : ref) (parent_dir file_ : string) (w : world) :
  loaded self w ->
  readable (fs w) (os_path.join parent_dir file_) = true ->
  exists w',
    Library.load_file self parent_dir file_ w = Ok (tt, w')
    /\ loaded self w' /\ grows w w'
    /\ map t_path (tracks w')
       = (map t_path (tracks w) ++ [os_path.join parent_dir file_])%list.
Proof.
  intros [W [l Hl] Hmade Hfiled] Hr.
  destruct (readable_spec _ _ Hr) as (c & Hc & Hb).
  destruct (Track_init_ok _ _ _ Hc Hb W) as (w1 & E1 & W1 & G1 & T1).
  set (t := MkTrack (os_path.join parent_dir file_)
                    (snd (os_path.splitext (os_path.join parent_dir file_)))
                    (metadata_of (os_path.join parent_dir file_) c)) in *.
  set (r := length (tracks w)) in *.
  assert (Ht1 : tracks w1 !! r = Some t) by (rewrite T1; apply lookup_snoc).
  destruct (grows_libraries _ _ G1 _ _ Hl) as (l1 & Hl1 & _ & _).
  destruct (get_discography_ok self (Track.get_artist t) w1 l1 W1 Hl1)
    as (dr & w2 & l2 & d2 & E2 & W2 & G2 & T2 & Hl2 & Hdr & Hd2).
  destruct (get_album_ok dr (Track.get_album t) w2 d2 W2 Hd2)
    as (ar & w3 & d3 & a3 & E3 & W3 & G3 & T3 & Hd3 & Har & Ha3).
  assert (Ht3 : tracks w3 !! r = Some t) by (by rewrite T3, T2).
  destruct (add_ok ar r w3 a3 t W3 Ha3 Ht3)
    as (w4 & a4 & E4 & W4 & G4 & T4 & Ha4 & Hin).
  assert (G14 : grows w1 w4) by eauto using grows_trans.
  assert (G04 : grows w w4) by eauto using grows_trans.
  exists w4. split.
  { unfold Library.load_file. unfold mbind, M_bind, bind at 1.
    rewrite E1. unfold deref at 1, bind at 1. rewrite Ht1.
    unfold bind at 1. rewrite E2. unfold bind at 1. by rewrite E3. }
  assert (T : tracks w4 = (tracks w ++ [t])%list) by (by rewrite T4, T3, T2).
  split; [|split; [done|]].
  - split; [done | | |].
    + destruct (grows_libraries _ _ G04 _ _ Hl) as (l4 & Hl4 & _). eauto.
    + intros i t0 Hi. rewrite T in Hi. rewrite (grows_fs _ _ G04).
      apply lookup_app_Some in Hi as [Hi | [_ Hi]]; [by eapply Hmade|].
      destruct (i - length (tracks w)) as [|n]; [|done].
      injection Hi as <-. exists c. done.
    + intros i t0 Hi. rewrite T in Hi.
      apply lookup_app_Some in Hi as [Hi | [Hge Hi]].
      * eapply in_album_grows; [exact G04|]. by eapply Hfiled.
      * destruct (i - length (tracks w)) as [|n] eqn:En; [|done].
        injection Hi as <-. assert (i = r) as -> by (unfold r; lia).
        destruct (grows_libraries _ _ (grows_trans _ _ _ G3 G4) _ _ Hl2)
          as (l4 & Hl4 & _ & Gl4).
        destruct (grows_discographies _ _ G4 _ _ Hd3)
          as (d4 & Hd4 & _ & Gd4).
        exists l4, dr, d4, ar, a4. split_and!; auto.
  - by rewrite T, map_app.
Qed.

Lemma load_files_ok (self : ref) (parent_dir : string) (files : list string)
    (w : world) :
  loaded self w ->
  forallb (readable (fs w)) (map (os_path.join parent_dir) files) = true ->
  exists w',
    for_each files (Library.load_file self parent_dir) w = Ok (tt, w')
    /\ loaded self w' /\ grows w w'
    /\ map t_path (tracks w')
       = (map t_path (tracks w) ++ map (os_path.join parent_dir) files)%list.
Proof.
  revert w. induction files as [|f files IH]; intros w L Hr; simpl in *.
  - exists w. rewrite app_nil_r. auto using grows_refl.
  - apply andb_true_iff in Hr as [Hf Hrest].
    destruct (load_file_ok self parent_dir f w L Hf) as (w1 & E1 & L1 & G1 & T1).
    rewrite <- (grows_fs _ _ G1) in Hrest.
    destruct (IH w1 L1 Hrest) as (w2 & E2 & L2 & G2 & T2).
    exists w2. split.
    { unfold mbind, M_bind, bind. by rewrite E1. }
    split; [done|]. split; [eauto using grows_trans|].
    by rewrite T2, T1, <- app_assoc.
Qed.

Lemma load_dir_ok (self : ref) (entry : string * list string * list string)
    (w : world) :
  loaded self w ->
  forallb (readable (fs w))
          (map (os_path.join entry.1.1)
               (List.filter re_.MEDIA_FILES_REGEX_match entry.2)) = true ->
  exists w',
    Library.load_dir self entry w = Ok (tt, w')
    /\ loaded self w' /\ grows w w'
    /\ map t_path (tracks w')
       = (map t_path (tracks w)
          ++ map (os_path.join entry.1.1)
                 (List.filter re_.MEDIA_FILES_REGEX_match entry.2))%list.
Proof.
  destruct entry as [[parent_dir dirs] files]. simpl. intros L Hr.
  set (lg := (logs w ++ [Log DEBUG "Loading media files in sub directory: %s"
                             [AStr parent_dir]])%list).
  destruct (load_files_ok self parent_dir
              (List.filter re_.MEDIA_FILES_REGEX_match files) _
              (loaded_logs self w lg L) Hr) as (w' & E & L' & G' & T').
  exists w'. split; [exact E|]. split; [done|]. split; [|done].
  eapply grows_trans; [apply (grows_logs w lg) | done].
Qed.

Lemma load_dirs_ok (self : ref)
    (entries : list (string * list string * list string)) (w : world) :
  loaded self w ->
  forallb (readable (fs w))
    (flat_map (fun '(parent_dir, _, files) =>
                 map (os_path.join parent_dir)
                     (List.filter re_.MEDIA_FILES_REGEX_match files))
              entries) = true ->
  exists w',
    for_each entries (Library.load_dir self) w = Ok (tt, w')
    /\ loaded self w' /\ grows w w'
    /\ map t_path (tracks w')
       = (map t_path (tracks w)
          ++ flat_map (fun '(parent_dir, _, files) =>
                         map (os_path.join parent_dir)
                             (List.filter re_.MEDIA_FILES_REGEX_match files))
                      entries)%list.
Proof.
  revert w. induction entries as [|e entries IH]; intros w L Hr; simpl in *.
  - exists w. rewrite app_nil_r. auto using grows_refl.
  - rewrite forallb_app in Hr. apply andb_true_iff in Hr as [He Hrest].
    destruct e as [[parent_dir dirs] files].
    destruct (load_dir_ok self (parent_dir, dirs, files) w L He)
      as (w1 & E1 & L1 & G1 & T1).
    rewrite <- (grows_fs _ _ G1) in Hrest.
    destruct (IH w1 L1 Hrest) as (w2 & E2 & L2 & G2 & T2).
    exists w2. split.
    { unfold mbind, M_bind, bind. by rewrite E1. }
    split; [done|]. split; [eauto using grows_trans|].
    by rewrite T2, T1, <- app_assoc.
Qed.

(** [Library(path)] on a tree whose media files [EasyID3] can open: the
    scan builds one track per media file, in order, each filed under its
    artist and album; the tree is left as it was. *)
Lemma Library_init_ok (top : string) (root : FS.node) :
  forallb (readable root) (scanned top root) = true ->
  exists w,
    Library.__init__ top true (initial_world root) = Ok (0, w)
    /\ loaded 0 w /\ fs w = root
    /\ map t_path (tracks w) = scanned top root.
Proof.
  intros Hr.
  set (w0 := World [] [] [] [MkLibrary top []] root
               [Log DEBUG "Initialising library: %s" [AStr top];
                Log DEBUG "Loading files from %s" [AStr top]]).
  assert (L0 : loaded 0 w0).
  { split; [split; simpl; repeat constructor | by eexists | done | done]. }
  destruct (load_dirs_ok 0 (FS.walk top root) w0 L0 Hr)
    as (w & E & L & G & T).
  exists w. split.
  { unfold Library.__init__, Library.load. run. fold w0.
    unfold mbind, M_bind, bind in E. by rewrite E. }
  split; [done|]. split; [by rewrite (grows_fs _ _ G) | done].
Qed.

(** A media file [EasyID3] fails on, other than for a missing header,
    stops the scan. *)
Lemma load_file_unreadable (self : ref) (parent_dir file_ : string) (w : world) :
  readable (fs w) (os_path.join parent_dir file_) = false ->
  Library.load_file self parent_dir file_ w = Raise MutagenError.
Proof.
  intros H. unfold Library.load_file, Track.__init__, EasyID3, try_except.
  run. destruct (os_path.splitext _) as [trunk type]. simpl.
  unfold readable in H.
  by destruct (FS.read _ (fs w)) as [[[tags| |] a]|].
Qed.

Lemma load_files_raise (self : ref) (parent_dir : string) (files : list string)
    (w : world) :
  loaded self w ->
  forallb (readable (fs w)) (map (os_path.join parent_dir) files) = false ->
  for_each files (Library.load_file self parent_dir) w = Raise MutagenError.
Proof.
  revert w. induction files as [|f files IH]; intros w L Hr; simpl in *;
    [done|].
  unfold mbind, M_bind, bind.
  destruct (readable (fs w) (os_path.join parent_dir f)) eqn:Hf.
  - destruct (load_file_ok self parent_dir f w L Hf) as (w1 & E1 & L1 & G1 & _).
    rewrite E1. apply IH; [done|]. by rewrite (grows_fs _ _ G1).
  - by rewrite load_file_unreadable.
Qed.

Lemma load_dirs_raise (self : ref)
    (entries : list (string * list string * list string)) (w : world) :
  loaded self w ->
  forallb (readable (fs w))
    (flat_map (fun '(parent_dir, _, files) =>
                 map (os_path.join parent_dir)
                     (List.filter re_.MEDIA_FILES_REGEX_match files))
              entries) = false ->
  for_each entries (Library.load_dir self) w = Raise MutagenError.
Proof.
  revert w. induction entries as [|e entries IH]; intros w L Hr; simpl in *;
    [done|].
  rewrite forallb_app in Hr. destruct e as [[parent_dir dirs] files].
  unfold mbind, M_bind, bind.
  destruct (forallb _ (map _ _)) eqn:He; simpl in Hr.
  - destruct (load_dir_ok self (parent_dir, dirs, files) w L He)
      as (w1 & E1 & L1 & G1 & _).
    rewrite E1. apply IH; [done|]. by rewrite (grows_fs _ _ G1).
  - unfold Library.load_dir. run.
    by rewrite (load_files_raise self parent_dir _ _ (loaded_logs self w _ L) He).
Qed.

(** [Library(path)] returns exactly when [EasyID3] can open every media
    file of the tree, and then with the library the scan describes. *)
Lemma Library_init_inv (top : string) (root : FS.node) (self : ref) (w : world) :
  Library.__init__ top true (initial_world root) = Ok (self, w) ->
  self = 0%nat /\ loaded 0 w /\ fs w = root
  /\ map t_path (tracks w) = scanned top root
  /\ forallb (readable root) (scanned top root) = true.
Proof.
  intros H. destruct (forallb (readable root) (scanned top root)) eqn:Hr.
  - destruct (Library_init_ok top root Hr) as (w' & E & L & F & T).
    rewrite E in H. injection H as <- <-. done.
  - exfalso. revert H.
    set (w0 := World [] [] [] [MkLibrary top []] root
                 [Log DEBUG "Initialising library: %s" [AStr top];
                  Log DEBUG "Loading files from %s" [AStr top]]).
    assert (L0 : loaded 0 w0).
    { split; [split; simpl; repeat constructor | by eexists | done | done]. }
    pose proof (load_dirs_raise 0 (FS.walk top root) w0 L0 Hr) as E.
    unfold Library.__init__, Library.load. run. fold w0.
    by rewrite E.
Qed.

(** ** Export under [DRY_RUN] *)

Lemma add_logs_nil (w : world) : add_logs w [] = w.
Proof. destruct w. unfold add_logs. simpl. by rewrite app_nil_r. Qed.

Lemma add_logs_app (w : world) (a b : list logrec) :
  add_logs (add_logs w a) b = add_logs w (a ++ b).
Proof. unfold add_logs. simpl. by rewrite app_assoc. Qed.

Lemma same_store_refl (w : world) : same_store w w.
Proof. by repeat split. Qed.

Lemma same_store_add_logs (w w' : world) (lg : list logrec) :
  same_store w w' -> same_store w (add_logs w' lg).
Proof. done. Qed.

Section DryRun.
Variable G : globals.
Hypothesis dry : DRY_RUN G = true.

(** A loop whose body only logs, only logs; the log of each round is
    part of the whole. *)
Lemma for_each_dry {A} (body : A -> M unit) (Q : A -> list logrec -> Prop)
    (l : list A) (w : world) :
  (forall x w', x ∈ l -> same_store w w' ->
     exists lg, body x w' = Ok (tt, add_logs w' lg) /\ Q x lg) ->
  exists lg, for_each l body w = Ok (tt, add_logs w lg)
    /\ forall x, x ∈ l -> exists lgx, Q x lgx /\ lgx ⊆ lg.
Proof.
  revert w. induction l as [|x l IH]; intros w H; simpl.
  - exists []. rewrite add_logs_nil. split; [done|].
    intros x Hx. by apply elem_of_nil in Hx.
  - destruct (H x w) as (lg1 & E1 & Q1);
      [apply list_elem_of_here | apply same_store_refl |].
    destruct (IH (add_logs w lg1)) as (lg2 & E2 & Q2).
    { intros y w' Hy S. apply H; [by apply list_elem_of_further|].
      destruct S as (? & ? & ? & ? & ?). repeat split; done. }
    exists (lg1 ++ lg2)%list. split.
    { unfold mbind, M_bind, bind. by rewrite E1, E2, add_logs_app. }
    intros y Hy. apply elem_of_cons in Hy as [-> | Hy].
    + exists lg1. split; [done|]. intros e He. apply elem_of_app. by left.
    + destruct (Q2 y Hy) as (lgy & Qy & Sy). exists lgy. split; [done|].
      intros e He. apply elem_of_app. right. by apply Sy.
Qed.

Lemma Track_export_dry (r : ref) (path : string) (w : world) (t : track) :
  tracks w !! r = Some t ->
  Track.export G r path w
  = Ok (os_path.join path (Track.filename t),
        add_logs w [exporting_track r path]).
Proof. intros H. unfold Track.export. run. by rewrite H, dry. Qed.

Lemma Album_export_dry (ar : ref) (path : string) (w : world) (a : album) :
  wf w -> albums w !! ar = Some a ->
  exists lg, Album.export G ar path w = Ok (tt, add_logs w lg)
    /\ forall r, r ∈ a_tracks a ->
                 exporting_track r (os_path.join path (a_name a)) ∈ lg.
Proof.
  intros W Ha.
  set (export_path := os_path.join path (a_name a)).
  set (lg0 := ([Log DEBUG "Exporting %s to %s" [AAlbum ar; AStr path]]
               ++ if negb (FS.isdir export_path (fs w))
                  then [Log DEBUG "Creating album directory: %s"
                            [AStr export_path]]
                  else [])%list).
  destruct (for_each_dry
              (fun track => _ ← Track.export G track export_path; mret tt)
              (fun r lg => lg = [exporting_track r export_path])
              (a_tracks a) (add_logs w lg0)) as (lg & E & Q).
  { intros r w' Hr (T & _). simpl in T.
    pose proof (Forall_lookup_1 _ _ _ _ (wf_albums _ W) Ha) as F.
    simpl in F. rewrite Forall_forall in F.
    destruct (lookup_lt_is_Some_2 (tracks w') r) as [t Ht];
      [rewrite T; by apply F|].
    eexists. split; [|done]. unfold mbind, M_bind, bind.
    by rewrite (Track_export_dry _ _ _ _ Ht). }
  exists (lg0 ++ lg)%list. split.
  - rewrite <- add_logs_app, <- E. unfold Album.export. run.
    rewrite Ha, dry. simpl. fold export_path. unfold add_logs, lg0. simpl.
    destruct (FS.isdir export_path (fs w)); simpl;
      by rewrite <- ?app_assoc.
  - intros r Hr. destruct (Q r Hr) as (lgx & -> & S).
    apply elem_of_app. right. apply S, list_elem_of_here.
Qed.

Lemma Discography_export_dry (dr : ref) (path : string) (w : world)
    (d : discography) :
  wf w -> discographies w !! dr = Some d ->
  exists lg, Discography.export G dr path w = Ok (tt, add_logs w lg)
    /\ forall ar a r,
         ar ∈ Dict.values (d_albums d) -> albums w !! ar = Some a ->
         r ∈ a_tracks a ->
         exporting_track r (os_path.join (os_path.join path (d_artist d))
                                         (a_name a)) ∈ lg.
Proof.
  intros W Hd.
  set (export_path := os_path.join path (d_artist d)).
  set (lg0 := ([Log DEBUG "Exporting %s to %s" [ADiscography dr; AStr path]]
               ++ if negb (FS.isdir export_path (fs w))
                  then [Log DEBUG "Creating discography directory: %s"
                            [AStr export_path]]
                  else [])%list).
  destruct (for_each_dry
              (fun album => Album.export G album export_path)
              (fun ar lg => forall a r,
                   albums w !! ar = Some a -> r ∈ a_tracks a ->
                   exporting_track r (os_path.join export_path (a_name a)) ∈ lg)
              (Dict.values (d_albums d)) (add_logs w lg0)) as (lg & E & Q).
  { intros ar w' Har (T & A & D & L & F). simpl in *.
    pose proof (Forall_lookup_1 _ _ _ _ (wf_discographies _ W) Hd) as Fd.
    simpl in Fd. rewrite Forall_forall in Fd.
    destruct (lookup_lt_is_Some_2 (albums w) ar) as [a Ha]; [by apply Fd|].
    assert (W' : wf w').
    { destruct W as [WL WD WA]. split; by rewrite ?T, ?A, ?D, ?L. }
    destruct (Album_export_dry ar export_path w' a W') as (lg & E & Q);
      [by rewrite A|].
    exists lg. split; [done|]. intros a' r Ha' Hr.
    rewrite Ha in Ha'. injection Ha' as <-. by apply Q. }
  exists (lg0 ++ lg)%list. split.
  - rewrite <- add_logs_app, <- E. unfold Discography.export. run.
    rewrite Hd, dry. simpl. fold export_path. unfold add_logs, lg0. simpl.
    destruct (FS.isdir export_path (fs w)); simpl;
      by rewrite <- ?app_assoc.
  - intros ar a r Har Ha Hr. destruct (Q ar Har) as (lgx & Qx & S).
    apply elem_of_app. right. by eapply S, Qx.
Qed.

Lemma Library_export_dry (self : ref) (path : string) (w : world)
    (l : library) :
  wf w -> libraries w !! self = Some l ->
  exists lg, Library.export G self path w = Ok (tt, add_logs w lg)
    /\ forall dr d ar a r,
         dr ∈ Dict.values (l_discographies l) ->
         discographies w !! dr = Some d ->
         ar ∈ Dict.values (d_albums d) -> albums w !! ar = Some a ->
         r ∈ a_tracks a ->
         exporting_track r (os_path.join (os_path.join path (d_artist d))
                                         (a_name a)) ∈ lg.
Proof.
  intros W Hl.
  set (lg0 := ([Log DEBUG "Exporting library to %s" [AStr path]]
               ++ if negb (FS.isdir path (fs w))
                  then [Log DEBUG "Creating library directory: %s" []]
                  else [])%list).
  destruct (for_each_dry
              (fun discography => Discography.export G discography path)
              (fun dr lg => forall d ar a r,
                   discographies w !! dr = Some d ->
                   ar ∈ Dict.values (d_albums d) -> albums w !! ar = Some a ->
                   r ∈ a_tracks a ->
                   exporting_track r
                     (os_path.join (os_path.join path (d_artist d))
                                   (a_name a)) ∈ lg)
              (Dict.values (l_discographies l)) (add_logs w lg0))
    as (lg & E & Q).
  { intros dr w' Hdr (T & A & D & L & F). simpl in *.
    pose proof (Forall_lookup_1 _ _ _ _ (wf_libraries _ W) Hl) as Fl.
    simpl in Fl. rewrite Forall_forall in Fl.
    destruct (lookup_lt_is_Some_2 (discographies w) dr) as [d Hd];
      [by apply Fl|].
    assert (W' : wf w').
    { destruct W as [WL WD WA]. split; by rewrite ?T, ?A, ?D, ?L. }
    destruct (Discography_export_dry dr path w' d W') as (lg & E & Q);
      [by rewrite D|].
    exists lg. split; [done|]. intros d' ar a r Hd' Har Ha Hr.
    rewrite Hd in Hd'. injection Hd' as <-.
    eapply Q; [done | by rewrite A | done]. }
  exists (lg0 ++ lg)%list. split.
  - rewrite <- add_logs_app, <- E. unfold Library.export. run.
    rewrite dry. simpl. unfold add_logs, lg0. simpl.
    destruct (FS.isdir path (fs w)); simpl; rewrite Hl; simpl;
      by rewrite <- ?app_assoc.
  - intros dr d ar a r Hdr Hd Har Ha Hr. destruct (Q dr Hdr) as (lgx & Qx & S).
    apply elem_of_app. right. by eapply S, Qx.
Qed.

End DryRun.

(** ** C3: [get_type] *)

(** C3, as the code has it: [get_type] returns the extension with its
    leading dot. For every track that [Track.__init__] builds it is the
    extension [os.path.splitext] returns for the path, letter case kept,
    which starts with a dot, and it is ["mp3"] only when that extension
    is empty. *)
Theorem C3_get_type_keeps_the_dot (path : string) (w : world) (r : ref)
    (w' : world) :
  Track.__init__ path w = Ok (r, w') ->
  exists t, tracks w' !! r = Some t /\ t_path t = path
    /\ ((snd (os_path.splitext path) = "" /\ Track.get_type t = "mp3")
        \/ exists e, snd (os_path.splitext path) = String "." e
                     /\ Track.get_type t = String "." e).
Proof.
  intros H.
  destruct (Track_init_spec _ _ _ _ H) as (md & -> & Ht & _).
  eexists. split.
  { rewrite Ht. by apply list_lookup_middle. }
  split; [done|]. unfold Track.get_type. simpl.
  destruct (splitext_ext path) as [E | [e E]]; rewrite E; eauto.
Qed.

(** For [dir/stem.ext] the type is [".ext"]. *)
Lemma get_type_file_path (dir stem ext : string) (w : world) (r : ref)
    (w' : world) :
  stem <> "" -> lacks "/" stem = true -> lacks "." stem = true ->
  lacks "/" ext = true -> lacks "." ext = true ->
  Track.__init__ (file_path dir stem ext) w = Ok (r, w') ->
  exists t, tracks w' !! r = Some t /\ Track.get_type t = String "." ext.
Proof.
  intros Hne Hs1 Hs2 He1 He2 H.
  destruct (Track_init_spec _ _ _ _ H) as (md & -> & Ht & _).
  eexists. split; [rewrite Ht; by apply list_lookup_middle|].
  unfold Track.get_type. simpl. by rewrite splitext_file_path.
Qed.

(** At [/src/song1.mp3] the type is [".mp3"]. *)
Lemma C3_get_type_song1 :
  exists t, tracks song1_made !! 0%nat = Some t
    /\ t_path t = "/src/song1.mp3"
    /\ Track.get_type t = ".mp3".
Proof.
  destruct (C3_get_type_keeps_the_dot "/src/song1.mp3"
              (initial_world song1_root) 0%nat song1_made eq_refl)
    as (t & Ht & Hp & [[E _] | (e & E & Hty)]).
  - vm_compute in E. discriminate E.
  - exists t. split; [exact Ht|]. split; [exact Hp|].
    rewrite Hty. vm_compute in E. injection E as <-. reflexivity.
Defined.

(** ** C4: [get_track_number] *)

(** C4: when the [tracknumber] tag is ["N/M"], stored as a string or as
    the one-element list [EasyID3] gives, with [M] a non-empty run of
    digits, [get_track_number] is exactly [N]; without a [tracknumber]
    tag it is the empty string. *)
Theorem C4_track_number (t : track) :
  (forall v n m,
      Dict.get "tracknumber" (t_metadata t) = Some v ->
      v = TStr (n +:+ String "/" m) \/ v = TList [n +:+ String "/" m] ->
      m <> "" -> PyStr.all_chars PyStr.is_digit m = true ->
      Track.get_track_number t = n)
  /\ (Dict.get "tracknumber" (t_metadata t) = None ->
      Track.get_track_number t = "").
Proof.
  split.
  - intros v n m Hv Hform Hm Hd.
    assert (E : Track._get_metadata t "tracknumber"
                = Some (n +:+ String "/" m)).
    { unfold Track._get_metadata. rewrite Hv. by destruct Hform as [-> | ->]. }
    unfold Track.get_track_number. rewrite E.
    rewrite sub_total_tracks_suffix by done.
    destruct n; [done|]. done.
  - intros H. unfold Track.get_track_number, Track._get_metadata.
    by rewrite H.
Qed.

Lemma C4_track_number_witness :
  Track.get_track_number
    (MkTrack "/src/song1.mp3" ".mp3" [("tracknumber", TList ["3/12"])]) = "3"
  /\ Track.get_track_number
       (MkTrack "/src/song1.mp3" ".mp3" [("title", TStr "song1")]) = "".
Proof.
  split.
  - apply (proj1 (C4_track_number _) (TList ["3/12"]) "3" "12");
      [reflexivity | by right | done | reflexivity].
  - apply (proj2 (C4_track_number _)). reflexivity.
Defined.

(** ** C5: [get_artist] *)

(** C5 as stated fails: the [albumartist] tag is present and resolves to
    the empty string, yet [get_artist] returns the [artist] tag. *)
Lemma C5_present_but_empty :
  Track._get_metadata empty_albumartist "albumartist" = Some ""
  /\ Track.get_artist empty_albumartist = "Foo"
  /\ ~ (forall t s, Track._get_metadata t "albumartist" = Some s ->
                    Track.get_artist t = s).
Proof.
  split; [reflexivity|]. split; [reflexivity|].
  intros H. specialize (H empty_albumartist "" eq_refl). discriminate H.
Qed.

(** C5, amended: [get_artist] returns the resolved [albumartist] tag when
    it is not empty; when that tag is absent or empty, the resolved
    [artist] tag when it is not empty; when both are absent or empty,
    ["Unknown Artist"]; a tag with the values [[X; Y]] resolves to
    ["X & Y"]. *)
Theorem C5_get_artist (t : track) :
  (forall s, Track._get_metadata t "albumartist" = Some s -> s <> "" ->
             Track.get_artist t = s)
  /\ (forall s, missing (Track._get_metadata t "albumartist") ->
                Track._get_metadata t "artist" = Some s -> s <> "" ->
                Track.get_artist t = s)
  /\ (missing (Track._get_metadata t "albumartist") ->
      missing (Track._get_metadata t "artist") ->
      Track.get_artist t = "Unknown Artist")
  /\ (forall name x y,
         Dict.get name (t_metadata t) = Some (TList [x; y]) ->
         Track._get_metadata t name = Some (x +:+ " & " +:+ y)).
Proof.
  unfold Track.get_artist. repeat split.
  - intros s -> Hs. by rewrite !or__nonempty.
  - intros s [-> | ->] -> Hs; by destruct s.
  - by intros [-> | ->] [-> | ->].
  - intros name x y H. unfold Track._get_metadata. by rewrite H.
Qed.

Lemma C5_get_artist_witness :
  Track.get_artist
    (MkTrack "/src/a.mp3" ".mp3"
             [("albumartist", TList ["X"; "Y"]); ("artist", TList ["Z"])])
  = "X & Y"
  /\ Track.get_artist empty_albumartist = "Foo"
  /\ Track.get_artist (MkTrack "/src/a.mp3" ".mp3" [("title", TStr "a")])
     = "Unknown Artist".
Proof.
  split; [|split].
  - apply (proj1 (C5_get_artist _)); [reflexivity | done].
  - apply (proj1 (proj2 (C5_get_artist _))); [by right | reflexivity | done].
  - apply (proj1 (proj2 (proj2 (C5_get_artist _)))); by left.
Defined.

(** ** C9: empty tags *)

(** C9: a tag that resolves to the empty string counts as absent:
    [get_artist] is ["Unknown Artist"] when [albumartist] and [artist]
    are both empty, [get_album] is ["Unknown Album"] when [album] is
    empty, [get_track_number] is empty when [tracknumber] is; and each
    accessor gives what it gives once the empty tags are taken out. *)
Theorem C9_empty_tag_is_absent (t : track) :
  (Track._get_metadata t "albumartist" = Some "" ->
   Track._get_metadata t "artist" = Some "" ->
   Track.get_artist t = "Unknown Artist")
  /\ (Track._get_metadata t "album" = Some "" ->
      Track.get_album t = "Unknown Album")
  /\ (Track._get_metadata t "tracknumber" = Some "" ->
      Track.get_track_number t = "")
  /\ (forall t',
         (forall name, Track._get_metadata t name = Some "" ->
                       Track._get_metadata t' name = None) ->
         (forall name, Track._get_metadata t name <> Some "" ->
                       Track._get_metadata t' name
                       = Track._get_metadata t name) ->
         Track.get_artist t' = Track.get_artist t
         /\ Track.get_album t' = Track.get_album t
         /\ Track.get_track_number t' = Track.get_track_number t).
Proof.
  split; [|split; [|split]].
  - unfold Track.get_artist. by intros -> ->.
  - unfold Track.get_album. by intros ->.
  - unfold Track.get_track_number. by intros ->.
  - intros t' Hempty Hother.
    assert (Hor : forall name b,
               Track.or_ (Track._get_metadata t' name) b
               = Track.or_ (Track._get_metadata t name) b).
    { intros name b.
      destruct (decide (Track._get_metadata t name = Some "")) as [E|N].
      - by rewrite (Hempty _ E), E.
      - by rewrite (Hother _ N). }
    unfold Track.get_artist, Track.get_album, Track.get_track_number.
    rewrite !or__assoc, !Hor. split; [done|]. split; [done|].
    destruct (decide (Track._get_metadata t "tracknumber" = Some ""))
      as [E|N].
    + by rewrite (Hempty _ E), E.
    + by rewrite (Hother _ N).
Qed.

Lemma C9_empty_tag_is_absent_witness :
  let t := MkTrack "/src/a.mp3" ".mp3"
             [("albumartist", TStr ""); ("artist", TStr "");
              ("album", TStr ""); ("tracknumber", TStr "")] in
  Track.get_artist t = "Unknown Artist"
  /\ Track.get_album t = "Unknown Album"
  /\ Track.get_track_number t = "".
Proof.
  intros t. split; [|split].
  - apply (proj1 (C9_empty_tag_is_absent t)); reflexivity.
  - apply (proj1 (proj2 (C9_empty_tag_is_absent t))); reflexivity.
  - apply (proj1 (proj2 (proj2 (C9_empty_tag_is_absent t)))); reflexivity.
Defined.

(** ** C10: lookup-or-create *)

(** C10: [get_discography(artist, create=True)] on a library returns a
    discography and, called again in the state it leaves, returns the
    same object and leaves that state, hence the mapping, as it is;
    [Discography.get_album(name, create=True)] likewise; with
    [create=False] either call returns what the mapping holds for the
    key, nothing when the key is missing, and changes no state. *)
Theorem C10_lookup_or_create :
  (forall self artist w l,
      libraries w !! self = Some l ->
      exists dr w1 l1,
        Library.get_discography self artist true w = Ok (Some dr, w1)
        /\ libraries w1 !! self = Some l1
        /\ Dict.get artist (l_discographies l1) = Some dr
        /\ Library.get_discography self artist true w1 = Ok (Some dr, w1))
  /\ (forall self name w d,
         discographies w !! self = Some d ->
         exists ar w1 d1,
           Discography.get_album self name true w = Ok (Some ar, w1)
           /\ discographies w1 !! self = Some d1
           /\ Dict.get name (d_albums d1) = Some ar
           /\ Discography.get_album self name true w1 = Ok (Some ar, w1))
  /\ (forall self artist w l,
         libraries w !! self = Some l ->
         Library.get_discography self artist false w
         = Ok (Dict.get artist (l_discographies l), w))
  /\ (forall self name w d,
         discographies w !! self = Some d ->
         Discography.get_album self name false w
         = Ok (Dict.get name (d_albums d), w)).
Proof.
  split_and!.
  - intros self artist w l H.
    destruct (Dict.get artist (l_discographies l)) as [dr|] eqn:E.
    + exists dr, w, l. by rewrite (get_discography_found _ _ _ _ _ H E).
    + eexists _, _, _. rewrite (get_discography_created _ _ _ _ H E).
      split; [done|].
      assert (Hl1 : libraries (with_new_discography self artist l w) !! self
                    = Some (MkLibrary (l_path l)
                              (Dict.set artist (length (discographies w))
                                        (l_discographies l)))).
      { simpl. by rewrite list_lookup_insert_eq by (by eapply lookup_lt_Some). }
      split; [exact Hl1|]. split; [apply get_set_eq|].
      apply (get_discography_found _ _ _ _ _ Hl1). apply get_set_eq.
  - intros self name w d H.
    destruct (Dict.get name (d_albums d)) as [ar|] eqn:E.
    + exists ar, w, d. by rewrite (get_album_found _ _ _ _ _ H E).
    + eexists _, _, _. rewrite (get_album_created _ _ _ _ H E).
      split; [done|].
      assert (Hd1 : discographies (with_new_album self name d w) !! self
                    = Some (MkDiscography
                              (Dict.set name (length (albums w)) (d_albums d))
                              (d_artist d))).
      { simpl. by rewrite list_lookup_insert_eq by (by eapply lookup_lt_Some). }
      split; [exact Hd1|]. split; [apply get_set_eq|].
      apply (get_album_found _ _ _ _ _ Hd1). apply get_set_eq.
  - intros. by apply get_discography_lookup.
  - intros. by apply get_album_lookup.
Qed.

Lemma C10_lookup_or_create_witness :
  (exists dr w1 l1,
      Library.get_discography 0 "Foo" true fresh_library = Ok (Some dr, w1)
      /\ libraries w1 !! 0%nat = Some l1
      /\ Dict.get "Foo" (l_discographies l1) = Some dr
      /\ Library.get_discography 0 "Foo" true w1 = Ok (Some dr, w1))
  /\ (exists ar w1 d1,
         Discography.get_album 0 "Bar" true fresh_library = Ok (Some ar, w1)
         /\ discographies w1 !! 0%nat = Some d1
         /\ Dict.get "Bar" (d_albums d1) = Some ar
         /\ Discography.get_album 0 "Bar" true w1 = Ok (Some ar, w1))
  /\ Library.get_discography 0 "Foo" false fresh_library
     = Ok (None, fresh_library)
  /\ Discography.get_album 0 "Bar" false fresh_library
     = Ok (None, fresh_library).
Proof.
  destruct C10_lookup_or_create as (H1 & H2 & H3 & H4). split_and!.
  - apply (H1 0%nat "Foo" fresh_library (MkLibrary "/src" [])). reflexivity.
  - apply (H2 0%nat "Bar" fresh_library (MkDiscography [] "Foo")). reflexivity.
  - apply (H3 0%nat "Foo" fresh_library (MkLibrary "/src" [])). reflexivity.
  - apply (H4 0%nat "Bar" fresh_library (MkDiscography [] "Foo")). reflexivity.
Defined.

(** ** C8: files without a tag header *)

(** [Track.__init__] on a file without an ID3 header. *)
Lemma Track_init_no_header (path : string) (w : world) (a : string) :
  FS.read path (fs w) = Some (Content ID3NoHeader a) ->
  exists r w' t,
    Track.__init__ path w = Ok (r, w')
    /\ tracks w' !! r = Some t
    /\ t_path t = path
    /\ Track.get_title t
       = Some (os_path.basename (fst (os_path.splitext path)))
    /\ (forall name, name <> "title" -> Track._get_metadata t name = None)
    /\ Track.get_artist t = "Unknown Artist"
    /\ Track.get_album t = "Unknown Album".
Proof.
  intros H. unfold Track.__init__, EasyID3, try_except. run.
  destruct (os_path.splitext path) as [trunk type] eqn:E. simpl.
  rewrite H. simpl. eexists _, _, _. split; [done|]. simpl.
  split; [apply lookup_snoc|]. split_and!; try done.
  intros name N. unfold Track._get_metadata. cbn [t_metadata Dict.get].
  destruct (String.eqb_spec "title" name); [congruence | done].
Qed.

(** C8 as stated fails: [b.mp3] has no readable tag header, its header
    being one the reader fails on; the construction of its track raises,
    and so does the scan of the tree, which holds a well-tagged file
    too. *)
Lemma C8_unreadable_header_raises :
  FS.read "/src/b.mp3" broken_root = Some (Content ID3Broken "junk")
  /\ no_readable_header (Content ID3Broken "junk")
  /\ Track.__init__ "/src/b.mp3" (initial_world broken_root)
     = Raise MutagenError
  /\ Library.__init__ "/src" true (initial_world broken_root)
     = Raise MutagenError
  /\ ~ (forall path w c,
          FS.read path (fs w) = Some c -> no_readable_header c ->
          exists r w', Track.__init__ path w = Ok (r, w')).
Proof.
  split_and!; [reflexivity | done | reflexivity | reflexivity |].
  intros H.
  destruct (H "/src/b.mp3" (initial_world broken_root)
              (Content ID3Broken "junk") eq_refl) as (r & w' & E);
    [done | discriminate E].
Qed.

(** C8, amended: for a file without an ID3 header [Track.__init__]
    returns a track whose only tag is the title, the file name with its
    extension stripped ([stem] for [dir/stem.ext]), so that the artist is
    ["Unknown Artist"] and the album ["Unknown Album"]; and a scan of a
    tree whose media files are tagged or headerless completes, with one
    track per media file, in order, the headerless ones filed under
    ["Unknown Artist"] / ["Unknown Album"]. For a file whose header the
    reader fails on, [Track.__init__] raises the reader's error. *)
Theorem C8_untagged_file :
  (forall path w a,
      FS.read path (fs w) = Some (Content ID3NoHeader a) ->
      exists r w' t,
        Track.__init__ path w = Ok (r, w')
        /\ tracks w' !! r = Some t
        /\ t_path t = path
        /\ Track.get_title t
           = Some (os_path.basename (fst (os_path.splitext path)))
        /\ (forall name, name <> "title" -> Track._get_metadata t name = None)
        /\ Track.get_artist t = "Unknown Artist"
        /\ Track.get_album t = "Unknown Album")
  /\ (forall dir stem ext w a,
         stem <> "" -> lacks "/" stem = true -> lacks "." stem = true ->
         lacks "/" ext = true -> lacks "." ext = true ->
         FS.read (file_path dir stem ext) (fs w)
         = Some (Content ID3NoHeader a) ->
         exists r w' t,
           Track.__init__ (file_path dir stem ext) w = Ok (r, w')
           /\ tracks w' !! r = Some t
           /\ Track.get_title t = Some stem)
  /\ (forall src root,
         forallb (readable root) (scanned src root) = true ->
         exists w,
           Library.__init__ src true (initial_world root) = Ok (0%nat, w)
           /\ map t_path (tracks w) = scanned src root
           /\ forall r t a,
                tracks w !! r = Some t ->
                FS.read (t_path t) root = Some (Content ID3NoHeader a) ->
                Track.get_title t
                = Some (os_path.basename (fst (os_path.splitext (t_path t))))
                /\ in_album w 0 "Unknown Artist" "Unknown Album" r)
  /\ (forall path w a,
         FS.read path (fs w) = Some (Content ID3Broken a) ->
         Track.__init__ path w = Raise MutagenError).
Proof.
  split_and!.
  4: { intros path w a H. unfold Track.__init__, EasyID3, try_except. run.
       destruct (os_path.splitext path) as [trunk type]. simpl.
       by rewrite H. }
  - apply Track_init_no_header.
  - intros dir stem ext w a Hne Hs1 Hs2 He1 He2 H.
    destruct (Track_init_no_header _ _ _ H) as (r & w' & t & E & Ht & _ & T & _).
    exists r, w', t. split; [done|]. split; [done|].
    rewrite T, splitext_file_path by done. cbn [fst].
    by rewrite basename_stem.
  - intros src root Hr.
    destruct (Library_init_ok src root Hr) as (w & E & [W S Hmade Hfiled] & F & T).
    exists w. split; [done|]. split; [done|]. intros r t a Ht Hread.
    destruct (Hmade r t Ht) as (c & Hc & _ & Et). rewrite F, Hread in Hc.
    injection Hc as <-. pose proof (Hfiled r t Ht) as Hin.
    rewrite Et in Hin |- *. done.
Qed.

Lemma C8_untagged_file_witness :
  (exists r w' t,
      Track.__init__ "/src/a.ogg" (initial_world mixed_root) = Ok (r, w')
      /\ tracks w' !! r = Some t
      /\ t_path t = "/src/a.ogg"
      /\ Track.get_title t = Some "a"
      /\ (forall name, name <> "title" -> Track._get_metadata t name = None)
      /\ Track.get_artist t = "Unknown Artist"
      /\ Track.get_album t = "Unknown Album")
  /\ (exists r w' t,
         Track.__init__ "/src/a.ogg" (initial_world mixed_root) = Ok (r, w')
         /\ tracks w' !! r = Some t
         /\ Track.get_title t = Some "a")
  /\ (exists w,
         Library.__init__ "/src" true (initial_world mixed_root) = Ok (0%nat, w)
         /\ map t_path (tracks w) = ["/src/a.ogg"; "/src/song1.mp3"])
  /\ Track.__init__ "/src/b.mp3" (initial_world broken_root)
     = Raise MutagenError.
Proof.
  destruct C8_untagged_file as (H1 & H2 & H3 & H4). split_and!.
  4: { apply (H4 "/src/b.mp3" (initial_world broken_root) "junk").
       reflexivity. }
  - apply (H1 "/src/a.ogg" (initial_world mixed_root) "audio-a"). reflexivity.
  - apply (H2 "/src" "a" "ogg" (initial_world mixed_root) "audio-a");
      first [done | reflexivity].
  - destruct (H3 "/src" mixed_root) as (w & E & T & _); [reflexivity|].
    exists w. split; [exact E | exact T].
Defined.

(** ** C7: simulate mode *)

(** C7: with [DRY_RUN] set, the export of a loaded library returns
    without an exception, leaves the file system (and every object) as
    it was, and logs the export of every track of the library, one per
    scanned file. *)
Theorem C7_simulate (G : globals) (src dst : string) (root : FS.node)
    (self : ref) (w : world) :
  DRY_RUN G = true ->
  Library.__init__ src true (initial_world root) = Ok (self, w) ->
  exists w',
    Library.export G self dst w = Ok (tt, w')
    /\ main G src dst (initial_world root) = Ok (tt, w')
    /\ fs w = root /\ fs w' = root
    /\ same_store w w'
    /\ map t_path (tracks w) = scanned src root
    /\ forall r t, tracks w !! r = Some t ->
         exists path, exporting_track r path ∈ logs w'.
Proof.
  intros dry E.
  destruct (Library_init_inv _ _ _ _ E)
    as (-> & [W [l Hl] Hmade Hfiled] & F & T & _).
  destruct (Library_export_dry G dry 0 dst w l W Hl) as (lg & E' & Q).
  exists (add_logs w lg). split_and!; try done.
  - unfold main, mbind, M_bind, bind. by rewrite E.
  - intros r t Ht.
    destruct (Hfiled r t Ht) as (l' & dr & d & ar & a & Hl' & Hdr & Hd & Har & Ha & Hin).
    rewrite Hl in Hl'. injection Hl' as <-.
    eexists. simpl. apply elem_of_app. right.
    eapply Q; eauto using get_values.
Qed.

Lemma C7_simulate_witness :
  exists w',
    Library.export (Globals true false) 0 "/dst" mixed_loaded = Ok (tt, w')
    /\ main (Globals true false) "/src" "/dst" (initial_world mixed_root)
       = Ok (tt, w')
    /\ fs mixed_loaded = mixed_root /\ fs w' = mixed_root
    /\ same_store mixed_loaded w'
    /\ map t_path (tracks mixed_loaded) = scanned "/src" mixed_root
    /\ forall r t, tracks mixed_loaded !! r = Some t ->
         exists path, exporting_track r path ∈ logs w'.
Proof.
  apply (C7_simulate (Globals true false) "/src" "/dst" mixed_root 0%nat
                     mixed_loaded); reflexivity.
Defined.

(** ** C1: colliding file names *)

(** [Track.export] never looks at what the destination holds: the path
    it writes is the directory joined with the computed file name. *)
Lemma Track_export_path (G : globals) (r : ref) (path : string) (w : world)
    (t : track) (p : string) (w' : world) :
  tracks w !! r = Some t ->
  Track.export G r path w = Ok (p, w') ->
  p = os_path.join path (Track.filename t).
Proof.
  intros Ht. unfold Track.export. run. rewrite Ht. simpl.
  destruct (DRY_RUN G); simpl; [by intros [= <- _]|].
  destruct (MOVE_EXPORT G); simpl.
  - destruct (FS.move _ _ _) as [[]|]; simpl; [by intros [= <- _] | done].
  - destruct (FS.copy _ _ _) as [[]|]; simpl; [by intros [= <- _] | done].
Qed.

Lemma Track_export_tracks (G : globals) (r : ref) (path : string) (w : world)
    (p : string) (w' : world) :
  Track.export G r path w = Ok (p, w') -> tracks w' = tracks w.
Proof.
  unfold Track.export. run. destruct (tracks w !! r) as [t|]; simpl; [|done].
  destruct (DRY_RUN G); simpl; [by intros [= _ <-]|].
  destruct (MOVE_EXPORT G); simpl.
  - destruct (FS.move _ _ _) as [[]|]; simpl; [by intros [= _ <-] | done].
  - destruct (FS.copy _ _ _) as [[]|]; simpl; [by intros [= _ <-] | done].
Qed.

(** Two tracks with the same computed name are exported, one after the
    other, to the same path, under every setting of the flags. *)
Lemma Track_export_same_path (G : globals) (r1 r2 : ref) (path : string)
    (w w1 w2 : world) (t1 t2 : track) (p1 p2 : string) :
  tracks w !! r1 = Some t1 -> tracks w !! r2 = Some t2 ->
  Track.filename t1 = Track.filename t2 ->
  Track.export G r1 path w = Ok (p1, w1) ->
  Track.export G r2 path w1 = Ok (p2, w2) ->
  p1 = p2.
Proof.
  intros H1 H2 Hname E1 E2.
  rewrite (Track_export_path _ _ _ _ _ _ _ H1 E1).
  rewrite <- (Track_export_tracks _ _ _ _ _ _ E1) in H2.
  rewrite (Track_export_path _ _ _ _ _ _ _ H2 E2). by rewrite Hname.
Qed.

(** C1, as the code has it: no counter is appended. Exporting the two
    files of [same_title_root] in copy mode leaves one file in [A/B],
    the second track written over the first (the name has two dots, see
    C3); and for the two bare files, whose computed name is exactly
    ["Same Title.mp3"], [A/B] holds that one name in whichever order the
    set is walked, and no ["Same Title (1).mp3"]. *)
Theorem C1_collision_overwrites :
  (exists root',
      fs_after (main (Globals false false) "/src" "/dst") same_title_root
      = Some root'
      /\ FS.lookup "/dst/A/B" root'
         = Some (FS.Dir [("Same Title..mp3",
                          FS.File (Content (ID3Header same_title_tags) "audio-b"))]))
  /\ (forall first_b : bool,
         exists root' c,
           fs_after (export_two first_b) bare_root = Some root'
           /\ FS.lookup "/dst/A/B" root'
              = Some (FS.Dir [("Same Title.mp3", FS.File c)])
           /\ FS.lookup "/dst/A/B/Same Title (1).mp3" root' = None).
Proof.
  split.
  - eexists. split; vm_compute; reflexivity.
  - intros [|]; eexists _, _; (split; [vm_compute; reflexivity|]);
      split; vm_compute; reflexivity.
Qed.

(** ** C2: the scenario of [/src/song1.mp3] *)

(** C2, as the code has it: in copy mode the export of [song1_root]
    writes [/dst/Foo/Bar/3. Baz..mp3], with the dot of the extension
    doubled, and no [/dst/Foo/Bar/3. Baz.mp3]; the source file is still
    where it was. *)
Theorem C2_song1_exported_with_two_dots :
  exists root' c,
    fs_after (main (Globals false false) "/src" "/dst") song1_root
    = Some root'
    /\ FS.read "/src/song1.mp3" song1_root = Some c
    /\ FS.lookup "/dst/Foo/Bar" root'
       = Some (FS.Dir [("3. Baz..mp3", FS.File c)])
    /\ FS.lookup "/dst/Foo/Bar/3. Baz.mp3" root' = None
    /\ FS.read "/src/song1.mp3" root' = Some c.
Proof.
  eexists _, _. split; [vm_compute; reflexivity|].
  split; [vm_compute; reflexivity|]. split_and!; vm_compute; reflexivity.
Qed.

(** ** C6: what the scan takes *)

(** C6, as the code has it: [$] also matches before a final line feed,
    so the file named ["x.mp3\n"], whose extension is [".mp3\n"], is
    taken by the scan and filed in an album; [y.flac] and [notes.txt]
    are not. *)
Theorem C6_name_with_final_line_feed_is_loaded :
  exists w,
    Library.__init__ "/src" true (initial_world newline_root) = Ok (0%nat, w)
    /\ tracks w = [MkTrack ("/src/x.mp3" +:+ nl) (".mp3" +:+ nl)
                           [("title", TStr "x")]]
    /\ in_album w 0 "Unknown Artist" "Unknown Album" 0
    /\ re_.MEDIA_FILES_REGEX_match ("x.mp3" +:+ nl) = true
    /\ has_media_extension ("x.mp3" +:+ nl) = false
    /\ snd (os_path.splitext ("x.mp3" +:+ nl)) = ".mp3" +:+ nl.
Proof.
  eexists. split; [vm_compute; reflexivity|].
  split; [vm_compute; reflexivity|]. split.
  - eexists _, _, _, _, _. split_and!; try (vm_compute; reflexivity).
    apply list_elem_of_here.
  - split_and!; vm_compute; reflexivity.
Qed.

Lemma lower_ascii_LF (c : ascii) :
  PyStr.lower_ascii c = PyStr.LF -> c = PyStr.LF.
Proof.
  destruct c as [[] [] [] [] [] [] [] []]; vm_compute; intros H;
    first [reflexivity | discriminate H].
Qed.

Lemma endswith_cons (suf : string) (c : ascii) (s : string) :
  PyStr.endswith suf s = true -> PyStr.endswith suf (String c s) = true.
Proof. intros H. simpl. rewrite H. apply orb_true_r. Qed.

Lemma has_media_extension_cons (c : ascii) (s : string) :
  has_media_extension s = true -> has_media_extension (String c s) = true.
Proof.
  unfold has_media_extension. cbn [PyStr.lower].
  intros H. apply orb_true_iff in H as [H | H];
    apply (endswith_cons _ (PyStr.lower_ascii c)) in H; rewrite H;
    [done | apply orb_true_r].
Qed.

Lemma media_tail_extension (r : string) :
  re_.media_tail r = true ->
  has_media_extension (String "." r) = true
  \/ exists g, String "." r = g +:+ nl /\ has_media_extension g = true.
Proof.
  unfold re_.media_tail. intros H.
  repeat (apply orb_true_iff in H as [H | H]);
    apply String.eqb_eq in H.
  1, 2: left; unfold has_media_extension; cbn [PyStr.lower]; rewrite H;
    vm_compute; reflexivity.
  all: right;
    destruct r as [|a [|b [|c [|d [|e r]]]]]; try discriminate H;
    cbn [PyStr.lower] in H; injection H as Ha Hb Hc Hd;
    apply lower_ascii_LF in Hd as ->;
    exists (String "." (String a (String b (String c ""))));
    (split; [reflexivity|]);
    unfold has_media_extension; cbn [PyStr.lower]; rewrite Ha, Hb, Hc;
    vm_compute; reflexivity.
Qed.

(** A name the regular expression takes ends with [.mp3] or [.ogg],
    letter case aside, or with one of them and a final line feed. *)
Lemma MEDIA_FILES_REGEX_match_extension (f : string) :
  re_.MEDIA_FILES_REGEX_match f = true ->
  has_media_extension f = true
  \/ exists g, f = g +:+ nl /\ has_media_extension g = true.
Proof.
  induction f as [|c r IH]; [done|]. cbn [re_.MEDIA_FILES_REGEX_match].
  intros H. apply orb_true_iff in H as [H | H];
    apply andb_true_iff in H as [Hc Hr].
  - apply Ascii.eqb_eq in Hc as ->. by apply media_tail_extension.
  - destruct (IH Hr) as [E | (g & -> & E)].
    + left. by apply has_media_extension_cons.
    + right. exists (String c g). split; [reflexivity|].
      by apply has_media_extension_cons.
Qed.

Lemma scanned_spec (top : string) (root : FS.node) (p : string) :
  p ∈ scanned top root ->
  exists parent_dir dirs files f,
    (parent_dir, dirs, files) ∈ FS.walk top root /\ f ∈ files
    /\ re_.MEDIA_FILES_REGEX_match f = true
    /\ p = os_path.join parent_dir f.
Proof.
  unfold scanned. intros H. apply list_elem_of_In, in_flat_map in H.
  destruct H as ([[parent_dir dirs] files] & Hin & Hp).
  apply in_map_iff in Hp as (f & <- & Hf).
  apply filter_In in Hf as [Hf Hm].
  exists parent_dir, dirs, files, f.
  split_and!; [by apply list_elem_of_In | by apply list_elem_of_In | done..].
Qed.

(** After [Library(path)] every track was built from a file of a walked
    directory whose name the regular expression takes. *)
Lemma loaded_tracks_match (top : string) (root : FS.node) (self : ref)
    (w : world) (t : track) :
  Library.__init__ top true (initial_world root) = Ok (self, w) ->
  t ∈ tracks w ->
  exists parent_dir dirs files f,
    (parent_dir, dirs, files) ∈ FS.walk top root /\ f ∈ files
    /\ re_.MEDIA_FILES_REGEX_match f = true
    /\ t_path t = os_path.join parent_dir f
    /\ (has_media_extension f = true
        \/ exists g, f = g +:+ nl /\ has_media_extension g = true).
Proof.
  intros E Ht. destruct (Library_init_inv _ _ _ _ E) as (_ & _ & _ & T & _).
  assert (Hp : t_path t ∈ scanned top root).
  { rewrite <- T. by apply list_elem_of_fmap_2. }
  destruct (scanned_spec _ _ _ Hp) as (d & dirs & files & f & ? & ? & Hm & ?).
  exists d, dirs, files, f. split_and!; try done.
  by apply MEDIA_FILES_REGEX_match_extension.
Qed.

(** * Further properties of the script *)

(** ** [MEDIA_FILES_REGEX] on names without a line feed *)

Lemma lower_ascii_dot (c : ascii) : PyStr.lower_ascii c = "."%char -> c = "."%char.
Proof.
  destruct c as [[] [] [] [] [] [] [] []]; vm_compute; intros H;
    first [reflexivity | discriminate H].
Qed.

Lemma endswith_lower_match (f ext : string) :
  ext = "mp3" \/ ext = "ogg" ->
  lacks PyStr.LF f = true ->
  PyStr.endswith (String "." ext) (PyStr.lower f) = true ->
  re_.MEDIA_FILES_REGEX_match f = true.
Proof.
  intros Hext. induction f as [|c r IH]; intros Hlf H.
  - destruct Hext as [-> | ->]; discriminate H.
  - unfold lacks in Hlf. cbn [PyStr.all_chars] in Hlf.
    apply andb_true_iff in Hlf as [Hc Hr].
    cbn [PyStr.lower PyStr.endswith] in H.
    cbn [re_.MEDIA_FILES_REGEX_match].
    apply orb_true_iff in H as [H | H].
    + apply String.eqb_eq in H. injection H as Hdot Hlow.
      apply lower_ascii_dot in Hdot as ->.
      unfold re_.media_tail. rewrite Hlow.
      by destruct Hext as [-> | ->].
    + rewrite Hc, (IH Hr H). apply orb_true_r.
Qed.

(** X1: on a name without a line feed the regular expression of the scan
    is the suffix test: it takes the name exactly when the name ends with
    [.mp3] or [.ogg], letter case aside. *)
Theorem X1_media_regex_is_suffix_test (f : string) :
  lacks PyStr.LF f = true ->
  (re_.MEDIA_FILES_REGEX_match f = true <-> has_media_extension f = true).
Proof.
  intros Hlf. split.
  - intros H.
    destruct (MEDIA_FILES_REGEX_match_extension f H) as [E | (g & -> & _)];
      [done|].
    rewrite lacks_app in Hlf. apply andb_true_iff in Hlf as [_ Hnl].
    discriminate Hnl.
  - unfold has_media_extension. intros H.
    apply orb_true_iff in H as [H | H];
      [apply (endswith_lower_match f "mp3") | apply (endswith_lower_match f "ogg")];
      auto.
Qed.

Lemma X1_media_regex_is_suffix_test_witness :
  re_.MEDIA_FILES_REGEX_match "Live.At.Home.MP3" = true
  <-> has_media_extension "Live.At.Home.MP3" = true.
Proof. apply X1_media_regex_is_suffix_test. reflexivity. Defined.

(** ** [get_track_number]: what [re.sub] removes *)

Lemma digits_end_Some (r rest : string) :
  re_.digits_end r = Some rest ->
  exists m, r = m +:+ rest /\ m <> ""
    /\ PyStr.all_chars PyStr.is_digit m = true
    /\ (rest = "" \/ rest = nl).
Proof.
  revert rest. induction r as [|c r IH]; intros rest H; [done|].
  cbn [re_.digits_end] in H.
  destruct (PyStr.is_digit c) eqn:Hc; [|done].
  assert (Hrec : re_.digits_end r = Some rest ->
                 exists m, String c r = m +:+ rest /\ m <> ""
                   /\ PyStr.all_chars PyStr.is_digit m = true
                   /\ (rest = "" \/ rest = nl)).
  { intros Hr. destruct (IH _ Hr) as (m & -> & _ & Hm & Hrest).
    exists (String c m). split_and!; [done | done | | done].
    simpl. by rewrite Hc. }
  destruct r as [|d [|e r]].
  - injection H as <-. exists (String c ""). split_and!; auto.
    simpl. by rewrite Hc.
  - destruct (Ascii.eqb_spec d PyStr.LF) as [->|]; [|by apply Hrec].
    injection H as <-. exists (String c ""). split_and!; auto.
    simpl. by rewrite Hc.
  - by apply Hrec.
Qed.

(** [re.sub(r'/\d+$', '', s)] returns [s], or [s] without its final
    [/digits]. *)
Lemma sub_total_tracks_cases (s : string) :
  re_.sub_total_tracks s = s
  \/ exists n m tail,
       s = n +:+ String "/" (m +:+ tail) /\ m <> ""
       /\ PyStr.all_chars PyStr.is_digit m = true
       /\ (tail = "" \/ tail = nl)
       /\ re_.sub_total_tracks s = n +:+ tail.
Proof.
  induction s as [|c r IH]; [by left|].
  cbn [re_.sub_total_tracks].
  assert (Hrec : String c (re_.sub_total_tracks r) = String c r
                 \/ exists n m tail,
                      String c r = n +:+ String "/" (m +:+ tail) /\ m <> ""
                      /\ PyStr.all_chars PyStr.is_digit m = true
                      /\ (tail = "" \/ tail = nl)
                      /\ String c (re_.sub_total_tracks r) = n +:+ tail).
  { destruct IH as [-> | (n & m & tail & -> & Hm & Hd & Ht & ->)]; [by left|].
    right. exists (String c n), m, tail. split_and!; done. }
  destruct (Ascii.eqb_spec c "/") as [->|]; [|done].
  destruct (re_.digits_end r) as [rest|] eqn:E; [|done].
  destruct (digits_end_Some _ _ E) as (m & -> & Hm & Hd & Hrest).
  right. exists "", m, rest. split_and!; done.
Qed.

Lemma sub_total_tracks_no_slash (s : string) :
  lacks "/" s = true -> re_.sub_total_tracks s = s.
Proof.
  induction s as [|c r IH]; [done|]. unfold lacks. cbn [PyStr.all_chars].
  intros H. apply andb_true_iff in H as [Hc Hr]. apply negb_true_iff in Hc.
  cbn [re_.sub_total_tracks]. rewrite Hc. f_equal. by apply IH.
Qed.

(** X2: [get_track_number] returns the resolved [tracknumber] tag as it
    is, or, when the tag ends with a slash and digits (and maybe one line
    feed), the tag without them; nothing else is ever cut. A tag without
    a slash comes back unchanged. *)
Theorem X2_track_number_cuts_only_the_total (t : track) (s : string) :
  Track._get_metadata t "tracknumber" = Some s ->
  (Track.get_track_number t = s
   \/ exists n m tail,
        s = n +:+ String "/" (m +:+ tail) /\ m <> ""
        /\ PyStr.all_chars PyStr.is_digit m = true
        /\ (tail = "" \/ tail = nl)
        /\ Track.get_track_number t = n +:+ tail)
  /\ (lacks "/" s = true -> Track.get_track_number t = s).
Proof.
  intros H. unfold Track.get_track_number. rewrite H.
  destruct s as [|c s]; [split; [by left | done]|].
  cbn [PyStr.truthy]. split.
  - apply sub_total_tracks_cases.
  - apply sub_total_tracks_no_slash.
Qed.

Lemma X2_track_number_cuts_only_the_total_witness :
  Track.get_track_number
    (MkTrack "/src/a.mp3" ".mp3" [("tracknumber", TList ["A7"])]) = "A7".
Proof.
  apply (proj2 (X2_track_number_cuts_only_the_total
                  (MkTrack "/src/a.mp3" ".mp3" [("tracknumber", TList ["A7"])])
                  "A7" eq_refl)).
  reflexivity.
Defined.

(** ** The accessors never return an empty name *)

(** X3: [get_artist], [get_album] and [get_type] are never the empty
    string, whatever the tags and the extension are. *)
Theorem X3_names_never_empty (t : track) :
  Track.get_artist t <> "" /\ Track.get_album t <> ""
  /\ Track.get_type t <> "".
Proof.
  unfold Track.get_artist, Track.get_album, Track.get_type. split_and!.
  - destruct (Track._get_metadata t "albumartist") as [[|]|];
      destruct (Track._get_metadata t "artist") as [[|]|]; done.
  - by destruct (Track._get_metadata t "album") as [[|]|].
  - by destruct (t_type t).
Qed.

(** ** A tagged file without a title *)

Lemma get_tags (k : string) (tags : Dict.dict (list string)) :
  Dict.get k (map (fun kv => (fst kv, TList (snd kv))) tags)
  = TList <$> Dict.get k tags.
Proof.
  induction tags as [|[k' v] tags IH]; [done|]. simpl.
  by destruct (String.eqb k' k).
Qed.

(** X4: a file with an ID3 header but neither a [title] nor a
    [tracknumber] tag makes a track without a title, and the name
    [export] computes for it is ["None"], a dot and the type. *)
Theorem X4_untitled_file_is_named_None (path : string) (w : world)
    (tags : Dict.dict (list string)) (a : string) :
  FS.read path (fs w) = Some (Content (ID3Header tags) a) ->
  Dict.get "title" tags = None ->
  Dict.get "tracknumber" tags = None ->
  exists r w' t,
    Track.__init__ path w = Ok (r, w')
    /\ tracks w' !! r = Some t
    /\ Track.get_title t = None
    /\ Track.filename t = "None." +:+ Track.get_type t.
Proof.
  intros Hread Htitle Hno.
  unfold Track.__init__, EasyID3, try_except. run.
  destruct (os_path.splitext path) as [trunk type]. simpl.
  rewrite Hread. simpl. eexists _, _, _. split; [done|]. simpl.
  split; [apply lookup_snoc|].
  unfold Track.filename, Track.get_track_number, Track.get_title,
    Track._get_metadata. cbn [t_metadata].
  by rewrite !get_tags, Htitle, Hno.
Qed.

Lemma X4_untitled_file_is_named_None_witness :
  exists r w' t,
    Track.__init__ "/src/u.mp3" (initial_world untitled_root) = Ok (r, w')
    /\ tracks w' !! r = Some t
    /\ Track.get_title t = None
    /\ Track.filename t = "None." +:+ Track.get_type t.
Proof.
  apply (X4_untitled_file_is_named_None "/src/u.mp3"
           (initial_world untitled_root) [("artist", ["Foo"])] "audio-u");
    reflexivity.
Defined.

(** ** [Album.add] *)

Lemma NoDup_set_add (r : ref) (s : list ref) : NoDup s -> NoDup (Album.set_add r s).
Proof.
  intros H. unfold Album.set_add. case_bool_decide; [done|].
  apply NoDup_app. split; [done|]. split.
  - intros x Hx Hx'. apply list_elem_of_singleton in Hx' as ->. done.
  - apply NoDup_singleton.
Qed.

Lemma set_add_again (r : ref) (s : list ref) :
  Album.set_add r (Album.set_add r s) = Album.set_add r s.
Proof.
  unfold Album.set_add at 1. rewrite bool_decide_eq_true_2; [done|].
  apply elem_of_set_add.
Qed.

(** X5: [Album.add] never refuses a track. When the artist of the track
    is not the artist of the album it logs one warning, otherwise it logs
    nothing; either way the album then holds the track and every track it
    held, and no other object changes. *)
Theorem X5_add_warns_but_adds (self tr : ref) (w : world) (a : album)
    (t : track) :
  albums w !! self = Some a -> tracks w !! tr = Some t ->
  exists w' a',
    Album.add self tr w = Ok (tt, w')
    /\ albums w' !! self = Some a'
    /\ tr ∈ a_tracks a'
    /\ (forall r, r ∈ a_tracks a -> r ∈ a_tracks a')
    /\ a_artist a' = a_artist a /\ a_name a' = a_name a
    /\ (forall i, i <> self -> albums w' !! i = albums w !! i)
    /\ tracks w' = tracks w /\ discographies w' = discographies w
    /\ libraries w' = libraries w /\ fs w' = fs w
    /\ logs w'
       = (logs w ++
          if String.eqb (Track.get_artist t) (a_artist a) then []
          else [Log WARNING
                    "Track artist (%s) does not match album artist (%s): "
                    [AStr (Track.get_artist t); AStr (a_artist a)]])%list.
Proof.
  intros Ha Ht. unfold Album.add. run. rewrite Ht, Ha. simpl.
  assert (Hlt : self < length (albums w)) by (by eapply lookup_lt_Some).
  destruct (String.eqb (Track.get_artist t) (a_artist a)); simpl;
    eexists _, _; (split; [done|]); simpl;
    rewrite list_lookup_insert_eq by done;
    (split; [done|]); simpl;
    (split; [apply elem_of_set_add|]);
    (split; [intros r; apply set_add_mono|]);
    split_and!; try done;
    try (intros i Hi; by rewrite list_lookup_insert_ne);
    by rewrite app_nil_r.
Qed.

Lemma X5_add_warns_but_adds_witness :
  exists w' a',
    Album.add 0 0 stray_track = Ok (tt, w')
    /\ albums w' !! 0%nat = Some a'
    /\ 0%nat ∈ a_tracks a'
    /\ logs w'
       = [Log WARNING
              "Track artist (%s) does not match album artist (%s): "
              [AStr "Foo"; AStr "Various"]].
Proof.
  destruct (X5_add_warns_but_adds 0%nat 0%nat stray_track
              (MkAlbum [] "Various" "Hits")
              (MkTrack "/src/a.mp3" ".mp3" [("artist", TList ["Foo"])])
              eq_refl eq_refl)
    as (w' & a' & E & Ha & Hin & _ & _ & _ & _ & _ & _ & _ & _ & Hl).
  exists w', a'. split_and!; [exact E | exact Ha | exact Hin | exact Hl].
Defined.

(** X6: the tracks of an album are a set: [Album.add] keeps them free of
    duplicates, and adding a track that is already there changes no
    object. *)
Theorem X6_add_is_a_set_insertion (self tr : ref) (w : world) (a : album)
    (t : track) :
  albums w !! self = Some a -> tracks w !! tr = Some t ->
  NoDup (a_tracks a) ->
  exists w' a',
    Album.add self tr w = Ok (tt, w')
    /\ albums w' !! self = Some a'
    /\ NoDup (a_tracks a')
    /\ length (a_tracks a')
       = length (a_tracks a) + (if bool_decide (tr ∈ a_tracks a) then 0 else 1)
    /\ exists w'',
         Album.add self tr w' = Ok (tt, w'') /\ albums w'' = albums w'
         /\ tracks w'' = tracks w' /\ discographies w'' = discographies w'
         /\ libraries w'' = libraries w' /\ fs w'' = fs w'.
Proof.
  intros Ha Ht Hnd.
  destruct (add_spec _ _ _ _ _ Ha Ht) as [lg E].
  assert (Hlt : self < length (albums w)) by (by eapply lookup_lt_Some).
  set (a' := MkAlbum (Album.set_add tr (a_tracks a)) (a_artist a) (a_name a)).
  assert (Ha' : albums (with_added_track self tr a lg w) !! self = Some a').
  { simpl. by rewrite list_lookup_insert_eq. }
  exists (with_added_track self tr a lg w), a'.
  split; [exact E|]. split; [exact Ha'|].
  split; [by apply NoDup_set_add|]. split.
  { simpl. unfold Album.set_add. case_bool_decide; [lia|].
    rewrite length_app. simpl. lia. }
  destruct (add_spec self tr (with_added_track self tr a lg w) a' t Ha' Ht)
    as [lg' E'].
  eexists. split; [exact E'|]. simpl. split_and!; try done.
  rewrite set_add_again. rewrite list_insert_insert_eq. done.
Qed.

Lemma X6_add_is_a_set_insertion_witness :
  exists w' a',
    Album.add 0 0 stray_track = Ok (tt, w')
    /\ albums w' !! 0%nat = Some a'
    /\ NoDup (a_tracks a')
    /\ length (a_tracks a') = 1.
Proof.
  destruct (X6_add_is_a_set_insertion 0%nat 0%nat stray_track
              (MkAlbum [] "Various" "Hits")
              (MkTrack "/src/a.mp3" ".mp3" [("artist", TList ["Foo"])])
              eq_refl eq_refl (NoDup_nil_2 (A:=nat)))
    as (w' & a' & E & Ha & Hnd & Hlen & _).
  exists w', a'. split_and!; [exact E | exact Ha | exact Hnd | exact Hlen].
Defined.

(** ** What lookup-or-create creates *)

(** X7: for an artist the library does not know,
    [get_discography(artist, create=True)] makes a new object, a
    discography of that artist without albums, and binds the artist to
    it; the other artists stay bound to what they were bound to and no
    other object changes. *)
Theorem X7_get_discography_creates (self : ref) (artist : string) (w : world)
    (l : library) :
  libraries w !! self = Some l ->
  Dict.get artist (l_discographies l) = None ->
  exists dr w',
    Library.get_discography self artist true w = Ok (Some dr, w')
    /\ discographies w !! dr = None
    /\ discographies w' !! dr = Some (MkDiscography [] artist)
    /\ (forall i d, discographies w !! i = Some d ->
                    discographies w' !! i = Some d)
    /\ (forall other, other <> artist ->
          Library.get_discography self other false w'
          = Ok (Dict.get other (l_discographies l), w'))
    /\ (forall i, i <> self -> libraries w' !! i = libraries w !! i)
    /\ tracks w' = tracks w /\ albums w' = albums w /\ fs w' = fs w.
Proof.
  intros Hl Hnone. eexists _, _.
  rewrite (get_discography_created _ _ _ _ Hl Hnone).
  assert (Hlt : self < length (libraries w)) by (by eapply lookup_lt_Some).
  split; [done|]. simpl. split; [by apply lookup_ge_None_2|].
  split; [apply lookup_snoc|].
  split; [intros i d; apply lookup_snoc_old|]. split_and!; try done.
  - intros other Hne.
    erewrite get_discography_lookup;
      [|simpl; by rewrite list_lookup_insert_eq].
    simpl. by rewrite get_set_ne.
  - intros i Hi. by rewrite list_lookup_insert_ne.
Qed.

Lemma X7_get_discography_creates_witness :
  exists dr w',
    Library.get_discography 0 "Bar" true fresh_library = Ok (Some dr, w')
    /\ discographies fresh_library !! dr = None
    /\ discographies w' !! dr = Some (MkDiscography [] "Bar").
Proof.
  destruct (X7_get_discography_creates 0%nat "Bar" fresh_library
              (MkLibrary "/src" []) eq_refl eq_refl)
    as (dr & w' & E & Hnew & Hd & _).
  exists dr, w'. split_and!; [exact E | exact Hnew | exact Hd].
Defined.

(** X8: for a name the discography does not know,
    [get_album(name, create=True)] makes a new object, an album of the
    artist of the discography, with that name and no track, and binds the
    name to it; the other names stay bound to what they were bound to and
    no other object changes. *)
Theorem X8_get_album_creates (self : ref) (name : string) (w : world)
    (d : discography) :
  discographies w !! self = Some d ->
  Dict.get name (d_albums d) = None ->
  exists ar w',
    Discography.get_album self name true w = Ok (Some ar, w')
    /\ albums w !! ar = None
    /\ albums w' !! ar = Some (MkAlbum [] (d_artist d) name)
    /\ (forall i a, albums w !! i = Some a -> albums w' !! i = Some a)
    /\ (forall other, other <> name ->
          Discography.get_album self other false w'
          = Ok (Dict.get other (d_albums d), w'))
    /\ (forall i, i <> self -> discographies w' !! i = discographies w !! i)
    /\ tracks w' = tracks w /\ libraries w' = libraries w /\ fs w' = fs w.
Proof.
  intros Hd Hnone. eexists _, _.
  rewrite (get_album_created _ _ _ _ Hd Hnone).
  assert (Hlt : self < length (discographies w)) by (by eapply lookup_lt_Some).
  split; [done|]. simpl. split; [by apply lookup_ge_None_2|].
  split; [apply lookup_snoc|].
  split; [intros i a; apply lookup_snoc_old|]. split_and!; try done.
  - intros other Hne.
    erewrite get_album_lookup;
      [|simpl; by rewrite list_lookup_insert_eq].
    simpl. by rewrite get_set_ne.
  - intros i Hi. by rewrite list_lookup_insert_ne.
Qed.

Lemma X8_get_album_creates_witness :
  exists ar w',
    Discography.get_album 0 "Bar" true fresh_library = Ok (Some ar, w')
    /\ albums fresh_library !! ar = None
    /\ albums w' !! ar = Some (MkAlbum [] "Foo" "Bar").
Proof.
  destruct (X8_get_album_creates 0%nat "Bar" fresh_library
              (MkDiscography [] "Foo") eq_refl eq_refl)
    as (ar & w' & E & Hnew & Ha & _).
  exists ar, w'. split_and!; [exact E | exact Hnew | exact Ha].
Defined.

(** ** The grouping kept by the scan *)

Lemma for_each_inv {A} (P : world -> Prop) (body : A -> M unit)
    (l : list A) (w w' : world) :
  (forall x w1 w2, x ∈ l -> P w1 -> body x w1 = Ok (tt, w2) -> P w2) ->
  P w -> for_each l body w = Ok (tt, w') -> P w'.
Proof.
  revert w. induction l as [|x l IH]; intros w Hbody HP H; simpl in H.
  - by injection H as <-.
  - unfold mbind, M_bind, bind in H.
    destruct (body x w) as [[[] w1]|] eqn:E; [|done].
    apply (IH w1); [|by eapply Hbody; [apply list_elem_of_here|..]|done].
    intros y w2 w3 Hy. apply Hbody. by apply list_elem_of_further.
Qed.

Lemma get_set_inv {V} (k k' : string) (v x : V) (d : Dict.dict V) :
  Dict.get k' (Dict.set k v d) = Some x ->
  (k' = k /\ x = v) \/ Dict.get k' d = Some x.
Proof.
  destruct (decide (k = k')) as [->|N].
  - rewrite get_set_eq. intros [= ->]. by left.
  - rewrite get_set_ne by done. by right.
Qed.

Lemma elem_of_set_add_inv (r x : ref) (s : list ref) :
  x ∈ Album.set_add r s -> x = r \/ x ∈ s.
Proof.
  unfold Album.set_add. case_bool_decide; [by right|].
  intros Hx. apply elem_of_app in Hx as [Hx | Hx]; [by right|].
  left. by apply list_elem_of_singleton in Hx.
Qed.

Lemma value_in_store (P : nat -> Prop) (k : string) (r : ref)
    (d : Dict.dict ref) :
  Forall P (Dict.values d) -> Dict.get k d = Some r -> P r.
Proof.
  intros F H. rewrite Forall_forall in F. apply F. by eapply get_values.
Qed.

Lemma grouped_logs (w : world) (lg : list logrec) :
  grouped w -> Forall no_warning lg ->
  grouped (World (tracks w) (albums w) (discographies w) (libraries w)
                 (fs w) lg).
Proof. intros [GD GA GT GQ] H. by split. Qed.

Lemma grouped_new_track (w : world) (t0 : track) (lg : list logrec) :
  wf w -> grouped w -> Forall no_warning lg ->
  grouped (World (tracks w ++ [t0]) (albums w) (discographies w)
                 (libraries w) (fs w) (logs w ++ lg)).
Proof.
  intros [WL WD WA] [GD GA GT GQ] Hlg. split; simpl; [done | done | |].
  - intros ar a r t Ha Hr Ht.
    pose proof (Forall_lookup_1 _ _ _ _ WA Ha) as F. simpl in F.
    rewrite Forall_forall in F. rewrite lookup_app_l in Ht by (by apply F).
    by eapply GT.
  - apply Forall_app. by split.
Qed.

Lemma grouped_track_init (path : string) (w : world) (r : ref) (w' : world) :
  wf w -> grouped w -> Track.__init__ path w = Ok (r, w') -> grouped w'.
Proof.
  intros W G. unfold Track.__init__, EasyID3, try_except. run.
  destruct (os_path.splitext path) as [trunk type]. simpl.
  destruct (FS.read path (fs w)) as [[[tags| |] a]|]; simpl; try done;
    intros [= <- <-]; rewrite <- ?app_assoc;
    apply grouped_new_track; try done;
    repeat (constructor; [done|]); constructor.
Qed.

Lemma grouped_with_new_discography (self : ref) (artist : string)
    (l : library) (w : world) :
  wf w -> grouped w -> libraries w !! self = Some l ->
  grouped (with_new_discography self artist l w).
Proof.
  intros [WL WD WA] [GD GA GT GQ] Hl.
  assert (Hself : self < length (libraries w)) by (by eapply lookup_lt_Some).
  split; simpl.
  - intros i l0 k dr d Hi Hk Hdr.
    assert (Hold : Dict.get k (l_discographies l0) = Some dr ->
                   libraries w !! i = Some l0 -> d_artist d = k).
    { intros Hk' Hi'.
      pose proof (Forall_lookup_1 _ _ _ _ WL Hi') as F. simpl in F.
      pose proof (value_in_store _ _ _ _ F Hk') as Hlt. simpl in Hlt.
      rewrite lookup_app_l in Hdr by done. by eapply GD. }
    destruct (decide (self = i)) as [<-|N].
    + rewrite list_lookup_insert_eq in Hi by done. injection Hi as <-.
      simpl in Hk. apply get_set_inv in Hk as [[-> ->] | Hk].
      * rewrite lookup_snoc in Hdr. by injection Hdr as <-.
      * pose proof (Forall_lookup_1 _ _ _ _ WL Hl) as F. simpl in F.
        pose proof (value_in_store _ _ _ _ F Hk) as Hlt. simpl in Hlt.
        rewrite lookup_app_l in Hdr by done. by eapply GD.
    + rewrite list_lookup_insert_ne in Hi by done. by apply Hold.
  - intros dr d n ar a Hdr Hn Ha.
    apply lookup_app_Some in Hdr as [Hdr | [_ Hdr]]; [by eapply GA|].
    destruct (dr - length (discographies w)) as [|m]; [|done].
    injection Hdr as <-. done.
  - done.
  - apply Forall_app. split; [done|]. repeat (constructor; [done|]).
    constructor.
Qed.

Lemma grouped_with_new_album (self : ref) (name : string) (d : discography)
    (w : world) :
  wf w -> grouped w -> discographies w !! self = Some d ->
  grouped (with_new_album self name d w).
Proof.
  intros [WL WD WA] [GD GA GT GQ] Hd.
  assert (Hself : self < length (discographies w))
    by (by eapply lookup_lt_Some).
  split; simpl.
  - intros i l k dr d0 Hi Hk Hdr. destruct (decide (self = dr)) as [<-|N].
    + rewrite list_lookup_insert_eq in Hdr by done. injection Hdr as <-.
      simpl. by eapply GD.
    + rewrite list_lookup_insert_ne in Hdr by done. by eapply GD.
  - intros dr d0 n ar a Hdr Hn Ha.
    assert (Hold : forall d1, discographies w !! dr = Some d1 ->
                     Dict.get n (d_albums d1) = Some ar ->
                     a_artist a = d_artist d1 /\ a_name a = n).
    { intros d1 Hd1 Hn1.
      pose proof (Forall_lookup_1 _ _ _ _ WD Hd1) as F. simpl in F.
      pose proof (value_in_store _ _ _ _ F Hn1) as Hlt. simpl in Hlt.
      rewrite lookup_app_l in Ha by done. by eapply GA. }
    destruct (decide (self = dr)) as [<-|N].
    + rewrite list_lookup_insert_eq in Hdr by done. injection Hdr as <-.
      simpl in Hn |- *. apply get_set_inv in Hn as [[-> ->] | Hn].
      * rewrite lookup_snoc in Ha. by injection Ha as <-.
      * by apply (Hold d).
    + rewrite list_lookup_insert_ne in Hdr by done. by apply (Hold d0).
  - intros ar a r t Ha Hr Ht.
    apply lookup_app_Some in Ha as [Ha | [_ Ha]]; [by eapply GT|].
    destruct (ar - length (albums w)) as [|m]; [|done].
    injection Ha as <-. by apply elem_of_nil in Hr.
  - apply Forall_app. split; [done|]. repeat (constructor; [done|]).
    constructor.
Qed.

Lemma grouped_with_added_track (self tr : ref) (a : album) (t : track)
    (lg : list logrec) (w : world) :
  grouped w -> albums w !! self = Some a -> tracks w !! tr = Some t ->
  Track.get_artist t = a_artist a -> Track.get_album t = a_name a ->
  Forall no_warning lg ->
  grouped (with_added_track self tr a lg w).
Proof.
  intros [GD GA GT GQ] Ha Ht Hartist Halbum Hlg.
  assert (Hself : self < length (albums w)) by (by eapply lookup_lt_Some).
  split; simpl; [done | | | done].
  - intros dr d n ar a0 Hdr Hn Ha0. destruct (decide (self = ar)) as [<-|N].
    + rewrite list_lookup_insert_eq in Ha0 by done. injection Ha0 as <-.
      simpl. by eapply GA.
    + rewrite list_lookup_insert_ne in Ha0 by done. by eapply GA.
  - intros ar a0 r t0 Ha0 Hr Ht0. destruct (decide (self = ar)) as [<-|N].
    + rewrite list_lookup_insert_eq in Ha0 by done. injection Ha0 as <-.
      simpl in Hr |- *. apply elem_of_set_add_inv in Hr as [-> | Hr].
      * rewrite Ht in Ht0. by injection Ht0 as <-.
      * by eapply GT.
    + rewrite list_lookup_insert_ne in Ha0 by done. by eapply GT.
Qed.

(** When the artists agree [Album.add] logs nothing. *)
Lemma add_spec_quiet (self tr : ref) (w : world) (a : album) (t : track) :
  albums w !! self = Some a -> tracks w !! tr = Some t ->
  Track.get_artist t = a_artist a ->
  Album.add self tr w = Ok (tt, with_added_track self tr a (logs w) w).
Proof.
  intros Ha Ht E. unfold Album.add. run. rewrite Ht, Ha. simpl.
  by rewrite E, String.eqb_refl.
Qed.

Lemma get_discography_grouped (self : ref) (artist : string) (w : world)
    (l : library) (o : option ref) (w' : world) :
  wf w -> grouped w -> libraries w !! self = Some l ->
  Library.get_discography self artist true w = Ok (o, w') -> grouped w'.
Proof.
  intros W G Hl. destruct (Dict.get artist (l_discographies l)) as [dr|] eqn:E.
  - rewrite (get_discography_found _ _ _ _ _ Hl E). by intros [= _ <-].
  - rewrite (get_discography_created _ _ _ _ Hl E). intros [= _ <-].
    by apply grouped_with_new_discography.
Qed.

Lemma get_album_grouped (self : ref) (name : string) (w : world)
    (d : discography) (o : option ref) (w' : world) :
  wf w -> grouped w -> discographies w !! self = Some d ->
  Discography.get_album self name true w = Ok (o, w') -> grouped w'.
Proof.
  intros W G Hd. destruct (Dict.get name (d_albums d)) as [ar|] eqn:E.
  - rewrite (get_album_found _ _ _ _ _ Hd E). by intros [= _ <-].
  - rewrite (get_album_created _ _ _ _ Hd E). intros [= _ <-].
    by apply grouped_with_new_album.
Qed.

Lemma load_file_grouped (self : ref) (parent_dir file_ : string)
    (w w' : world) :
  loaded self w -> grouped w ->
  Library.load_file self parent_dir file_ w = Ok (tt, w') ->
  grouped w'.
Proof.
  intros [W [l Hl] Hmade Hfiled] G H.
  destruct (readable (fs w) (os_path.join parent_dir file_)) eqn:Hr;
    [|by rewrite load_file_unreadable in H].
  destruct (readable_spec _ _ Hr) as (c & Hc & Hb).
  destruct (Track_init_ok _ _ _ Hc Hb W) as (w1 & E1 & W1 & G1 & T1).
  set (t := MkTrack (os_path.join parent_dir file_)
                    (snd (os_path.splitext (os_path.join parent_dir file_)))
                    (metadata_of (os_path.join parent_dir file_) c)) in *.
  set (r := length (tracks w)) in *.
  assert (Ht1 : tracks w1 !! r = Some t) by (rewrite T1; apply lookup_snoc).
  pose proof (grouped_track_init _ _ _ _ W G E1) as GR1.
  destruct (grows_libraries _ _ G1 _ _ Hl) as (l1 & Hl1 & _ & _).
  destruct (get_discography_ok self (Track.get_artist t) w1 l1 W1 Hl1)
    as (dr & w2 & l2 & d2 & E2 & W2 & G2 & T2 & Hl2 & Hdr & Hd2).
  pose proof (get_discography_grouped _ _ _ _ _ _ W1 GR1 Hl1 E2) as GR2.
  destruct (get_album_ok dr (Track.get_album t) w2 d2 W2 Hd2)
    as (ar & w3 & d3 & a3 & E3 & W3 & G3 & T3 & Hd3 & Har & Ha3).
  pose proof (get_album_grouped _ _ _ _ _ _ W2 GR2 Hd2 E3) as GR3.
  assert (Ht3 : tracks w3 !! r = Some t) by (by rewrite T3, T2).
  destruct (grows_libraries _ _ G3 _ _ Hl2) as (l3 & Hl3 & _ & Gl3).
  pose proof (grouped_discographies _ GR3 _ _ _ _ _ Hl3 (Gl3 _ _ Hdr) Hd3)
    as Hda.
  destruct (grouped_albums _ GR3 _ _ _ _ _ Hd3 Har Ha3) as [Haa Han].
  assert (Hartist : Track.get_artist t = a_artist a3) by congruence.
  pose proof (add_spec_quiet ar r w3 a3 t Ha3 Ht3 Hartist) as E4.
  unfold Library.load_file in H. unfold mbind, M_bind, bind at 1 in H.
  rewrite E1 in H. unfold deref at 1, bind at 1 in H. rewrite Ht1 in H.
  unfold bind at 1 in H. rewrite E2 in H. unfold bind at 1 in H.
  rewrite E3, E4 in H. injection H as <-.
  apply (grouped_with_added_track ar r a3 t); [done.. | by apply grouped_quiet].
Qed.

Lemma load_file_loaded (self : ref) (parent_dir file_ : string)
    (w w' : world) :
  loaded self w ->
  Library.load_file self parent_dir file_ w = Ok (tt, w') ->
  loaded self w'.
Proof.
  intros L H.
  destruct (readable (fs w) (os_path.join parent_dir file_)) eqn:Hr;
    [|by rewrite load_file_unreadable in H].
  destruct (load_file_ok self parent_dir file_ w L Hr) as (w1 & E & L1 & _).
  rewrite E in H. by injection H as <-.
Qed.

Lemma load_dir_grouped (self : ref)
    (entry : string * list string * list string) (w w' : world) :
  loaded self w /\ grouped w ->
  Library.load_dir self entry w = Ok (tt, w') ->
  loaded self w' /\ grouped w'.
Proof.
  destruct entry as [[parent_dir dirs] files]. intros [L G].
  unfold Library.load_dir. run.
  apply (for_each_inv (fun w => loaded self w /\ grouped w)).
  - intros f w1 w2 _ [L1 G1] E.
    split; [by eapply load_file_loaded | by eapply load_file_grouped].
  - split; [by apply loaded_logs|]. apply grouped_logs; [done|].
    apply Forall_app. split; [by apply grouped_quiet|].
    by repeat constructor.
Qed.

(** After [Library(path)] the objects are grouped. *)
Lemma Library_init_grouped (top : string) (root : FS.node) (self : ref)
    (w : world) :
  Library.__init__ top true (initial_world root) = Ok (self, w) ->
  grouped w.
Proof.
  set (w0 := World [] [] [] [MkLibrary top []] root
               [Log DEBUG "Initialising library: %s" [AStr top];
                Log DEBUG "Loading files from %s" [AStr top]]).
  assert (L0 : loaded 0 w0).
  { split; [split; simpl; repeat constructor | by eexists | done | done]. }
  assert (G0 : grouped w0).
  { split; simpl; [| | |by repeat constructor].
    - intros [|i] l k dr d; [|done]. intros [= <-]. done.
    - done.
    - done. }
  unfold Library.__init__, Library.load. run. fold w0.
  destruct (for_each _ _ w0) as [[[] w1]|] eqn:E; [|done].
  intros [= _ <-].
  eapply (for_each_inv (fun w => loaded 0 w /\ grouped w)); [| |exact E];
    [|done].
  intros e w2 w3 _ P. by apply load_dir_grouped.
Qed.

(** X9: after [Library(path)] a track is in the album [name] of the
    discography of [artist] exactly when [artist] is its resolved artist
    and [name] its resolved album: every track is filed once, where it
    belongs. *)
Theorem X9_filed_where_it_belongs (src : string) (root : FS.node)
    (self : ref) (w : world) (r : ref) (t : track) (artist name : string) :
  Library.__init__ src true (initial_world root) = Ok (self, w) ->
  tracks w !! r = Some t ->
  (in_album w self artist name r
   <-> artist = Track.get_artist t /\ name = Track.get_album t).
Proof.
  intros E Ht. pose proof (Library_init_grouped _ _ _ _ E) as [GD GA GT _].
  destruct (Library_init_inv _ _ _ _ E) as (-> & [_ _ _ Hfiled] & _).
  split.
  - intros (l & dr & d & ar & a & Hl & Hdr & Hd & Har & Ha & Hin).
    pose proof (GD _ _ _ _ _ Hl Hdr Hd) as Hk.
    destruct (GA _ _ _ _ _ Hd Har Ha) as [Haa Han].
    destruct (GT _ _ _ _ Ha Hin Ht) as [Hta Htn].
    split; congruence.
  - intros [-> ->]. by apply Hfiled.
Qed.

Lemma X9_filed_where_it_belongs_witness :
  in_album mixed_loaded 0 "Foo" "Bar" 1
  <-> "Foo" = Track.get_artist
                (MkTrack "/src/song1.mp3" ".mp3"
                   (metadata_of "/src/song1.mp3"
                      (Content (ID3Header song1_tags) "audio-1")))
      /\ "Bar" = Track.get_album
                   (MkTrack "/src/song1.mp3" ".mp3"
                      (metadata_of "/src/song1.mp3"
                         (Content (ID3Header song1_tags) "audio-1"))).
Proof.
  apply (X9_filed_where_it_belongs "/src" mixed_root 0%nat mixed_loaded);
    reflexivity.
Defined.

(** X10: after [Library(path)] every discography carries the artist it
    is bound to and every album the artist and the name it is filed
    under, so that the warning of [Album.add] about a foreign artist is
    never logged by a scan. *)
Theorem X10_scan_never_warns (src : string) (root : FS.node) (self : ref)
    (w : world) :
  Library.__init__ src true (initial_world root) = Ok (self, w) ->
  Forall no_warning (logs w)
  /\ forall l artist dr d name ar a,
       libraries w !! self = Some l ->
       Dict.get artist (l_discographies l) = Some dr ->
       discographies w !! dr = Some d ->
       Dict.get name (d_albums d) = Some ar ->
       albums w !! ar = Some a ->
       d_artist d = artist /\ a_artist a = artist /\ a_name a = name.
Proof.
  intros E. pose proof (Library_init_grouped _ _ _ _ E) as [GD GA GT GQ].
  split; [done|]. intros l artist dr d name ar a Hl Hdr Hd Har Ha.
  pose proof (GD _ _ _ _ _ Hl Hdr Hd) as Hk.
  destruct (GA _ _ _ _ _ Hd Har Ha) as [Haa Han].
  split_and!; congruence.
Qed.

Lemma X10_scan_never_warns_witness :
  Forall no_warning (logs mixed_loaded)
  /\ forall l artist dr d name ar a,
       libraries mixed_loaded !! 0%nat = Some l ->
       Dict.get artist (l_discographies l) = Some dr ->
       discographies mixed_loaded !! dr = Some d ->
       Dict.get name (d_albums d) = Some ar ->
       albums mixed_loaded !! ar = Some a ->
       d_artist d = artist /\ a_artist a = artist /\ a_name a = name.
Proof.
  apply (X10_scan_never_warns "/src" mixed_root 0%nat mixed_loaded).
  reflexivity.
Defined.

(** ** When the scan fails, and when it finds nothing *)

Lemma Library_init_raises (top : string) (root : FS.node) :
  forallb (readable root) (scanned top root) = false ->
  Library.__init__ top true (initial_world root) = Raise MutagenError.
Proof.
  intros Hr.
  set (w0 := World [] [] [] [MkLibrary top []] root
               [Log DEBUG "Initialising library: %s" [AStr top];
                Log DEBUG "Loading files from %s" [AStr top]]).
  assert (L0 : loaded 0 w0).
  { split; [split; simpl; repeat constructor | by eexists | done | done]. }
  pose proof (load_dirs_raise 0 (FS.walk top root) w0 L0 Hr) as E.
  unfold Library.__init__, Library.load. run. fold w0. by rewrite E.
Qed.

(** X11: [Library(path)] raises the error of mutagen exactly when some
    file the scan takes cannot be opened by [EasyID3] for another reason
    than a missing header, and returns otherwise; files the regular
    expression leaves out are never opened. *)
Theorem X11_scan_fails_on_broken_media_only (top : string) (root : FS.node) :
  (forallb (readable root) (scanned top root) = false
   <-> Library.__init__ top true (initial_world root) = Raise MutagenError)
  /\ (forallb (readable root) (scanned top root) = true
      <-> exists w, Library.__init__ top true (initial_world root) = Ok (0%nat, w)).
Proof.
  split; split.
  - apply Library_init_raises.
  - intros E. destruct (forallb _ _) eqn:Hr; [|done].
    destruct (Library_init_ok top root Hr) as (w & E' & _). congruence.
  - intros Hr. destruct (Library_init_ok top root Hr) as (w & E & _). eauto.
  - intros [w E]. by destruct (Library_init_inv _ _ _ _ E) as (_ & _ & _ & _ & ?).
Qed.

(** X12: when the source path names no directory the scan does not
    raise: [Library(path)] returns a library without any discography, and
    nothing was read or changed. *)
Theorem X12_missing_source_is_an_empty_library (top : string) (root : FS.node) :
  FS.isdir top root = false ->
  exists w,
    Library.__init__ top true (initial_world root) = Ok (0%nat, w)
    /\ libraries w = [MkLibrary top []]
    /\ tracks w = [] /\ albums w = [] /\ discographies w = []
    /\ fs w = root.
Proof.
  intros H.
  assert (Hwalk : FS.walk top root = []).
  { unfold FS.walk, FS.isdir in *.
    by destruct (FS.lookup top root) as [[c|es]|]. }
  unfold Library.__init__, Library.load. run. rewrite Hwalk. simpl.
  eexists. split; [done|]. done.
Qed.

Lemma X12_missing_source_is_an_empty_library_witness :
  exists w,
    Library.__init__ "/music" true (initial_world song1_root) = Ok (0%nat, w)
    /\ libraries w = [MkLibrary "/music" []]
    /\ tracks w = [] /\ albums w = [] /\ discographies w = []
    /\ fs w = song1_root.
Proof.
  apply (X12_missing_source_is_an_empty_library "/music" song1_root).
  reflexivity.
Defined.

(** ** Where the export puts a track *)

(** X13: with [DRY_RUN] set, the export of a loaded library to [dst]
    announces every track in the directory [dst/artist/album] of its
    resolved artist and album. *)
Theorem X13_export_layout (G : globals) (src dst : string) (root : FS.node)
    (self : ref) (w : world) :
  DRY_RUN G = true ->
  Library.__init__ src true (initial_world root) = Ok (self, w) ->
  exists w',
    Library.export G self dst w = Ok (tt, w')
    /\ forall r t, tracks w !! r = Some t ->
         exporting_track r
           (os_path.join (os_path.join dst (Track.get_artist t))
                         (Track.get_album t)) ∈ logs w'.
Proof.
  intros dry E. pose proof (Library_init_grouped _ _ _ _ E) as [GD GA GT _].
  destruct (Library_init_inv _ _ _ _ E)
    as (-> & [W [l Hl] Hmade Hfiled] & _).
  destruct (Library_export_dry G dry 0 dst w l W Hl) as (lg & E' & Q).
  exists (add_logs w lg). split; [done|]. intros r t Ht.
  destruct (Hfiled r t Ht)
    as (l' & dr & d & ar & a & Hl' & Hdr & Hd & Har & Ha & Hin).
  rewrite Hl in Hl'. injection Hl' as <-.
  pose proof (GD _ _ _ _ _ Hl Hdr Hd) as Hk.
  destruct (GA _ _ _ _ _ Hd Har Ha) as [_ Han].
  simpl. apply elem_of_app. right. rewrite <- Hk at 1. rewrite <- Han.
  eapply Q; eauto using get_values.
Qed.

Lemma X13_export_layout_witness :
  exists w',
    Library.export (Globals true true) 0 "/dst" mixed_loaded = Ok (tt, w')
    /\ forall r t, tracks mixed_loaded !! r = Some t ->
         exporting_track r
           (os_path.join (os_path.join "/dst" (Track.get_artist t))
                         (Track.get_album t)) ∈ logs w'.
Proof.
  apply (X13_export_layout (Globals true true) "/src" "/dst" mixed_root 0%nat
                           mixed_loaded); reflexivity.
Defined.

(** ** The file system under [copy], [move] and [makedirs] *)

(** The equations of the recursive file-system operations. *)
Lemma write_at_leaf (c0 : string) (new : FS.node) (es : list (string * FS.node)) :
  FS.write_at [c0] new (FS.Dir es)
  = match Dict.get c0 es, new with
    | Some (FS.Dir _), FS.File _ => Raise IsADirectoryError
    | Some (FS.File _), FS.Dir _ => Raise NotADirectoryError
    | _, _ => Ok (FS.Dir (Dict.set c0 new es))
    end.
Proof. reflexivity. Qed.

Lemma write_at_cons (c0 c1 : string) (ds : list string) (new : FS.node)
    (es : list (string * FS.node)) :
  FS.write_at (c0 :: c1 :: ds) new (FS.Dir es)
  = match Dict.get c0 es with
    | None => Raise FileNotFoundError
    | Some child =>
        rbind (FS.write_at (c1 :: ds) new child)
              (fun child' => Ok (FS.Dir (Dict.set c0 child' es)))
    end.
Proof. reflexivity. Qed.

Lemma remove_at_leaf (c0 : string) (es : list (string * FS.node)) :
  FS.remove_at [c0] (FS.Dir es)
  = match Dict.get c0 es with
    | None => Raise FileNotFoundError
    | Some _ => Ok (FS.Dir (FS.remove_entry c0 es))
    end.
Proof. reflexivity. Qed.

Lemma remove_at_cons (c0 c1 : string) (cs : list string)
    (es : list (string * FS.node)) :
  FS.remove_at (c0 :: c1 :: cs) (FS.Dir es)
  = match Dict.get c0 es with
    | None => Raise FileNotFoundError
    | Some child =>
        rbind (FS.remove_at (c1 :: cs) child)
              (fun child' => Ok (FS.Dir (Dict.set c0 child' es)))
    end.
Proof. reflexivity. Qed.

Lemma makedirs_at_cons (c0 : string) (ds : list string)
    (es : list (string * FS.node)) :
  FS.makedirs_at (c0 :: ds) (FS.Dir es)
  = match Dict.get c0 es with
    | None => Ok (FS.Dir (es ++ [(c0, FS.fresh_dirs ds)]))
    | Some child =>
        rbind (FS.makedirs_at ds child)
              (fun child' => Ok (FS.Dir (Dict.set c0 child' es)))
    end.
Proof. reflexivity. Qed.

Lemma resolve_cons (k : string) (rest : list string)
    (es : list (string * FS.node)) :
  FS.resolve (k :: rest) (FS.Dir es)
  = match Dict.get k es with
    | Some child => FS.resolve rest child
    | None => None
    end.
Proof. reflexivity. Qed.

Lemma same_kind_refl (n : FS.node) : same_kind n n.
Proof. by destruct n. Qed.

Lemma same_kind_trans (a b c : FS.node) :
  same_kind a b -> same_kind b c -> same_kind a c.
Proof. by destruct a, b, c. Qed.

Lemma keeps_refl (root : FS.node) : keeps root root.
Proof. intros cs n H. eauto using same_kind_refl. Qed.

Lemma keeps_trans (a b c : FS.node) : keeps a b -> keeps b c -> keeps a c.
Proof.
  intros Hab Hbc cs n H. destruct (Hab _ _ H) as (n1 & H1 & K1).
  destruct (Hbc _ _ H1) as (n2 & H2 & K2). eauto using same_kind_trans.
Qed.

Lemma get_app_old {V} (k k' : string) (v x : V) (d : Dict.dict V) :
  Dict.get k d = Some x -> Dict.get k (d ++ [(k', v)])%list = Some x.
Proof.
  induction d as [|[k0 v0] d IH]; [done|]. simpl.
  by destruct (String.eqb k0 k).
Qed.

Lemma get_app_new {V} (k : string) (v : V) (d : Dict.dict V) :
  Dict.get k d = None -> Dict.get k (d ++ [(k, v)])%list = Some v.
Proof.
  induction d as [|[k0 v0] d IH]; simpl.
  - by rewrite String.eqb_refl.
  - by destruct (String.eqb k0 k).
Qed.

Lemma resolve_fresh_dirs (comps : list string) :
  FS.resolve comps (FS.fresh_dirs comps) = Some (FS.Dir []).
Proof.
  induction comps as [|c comps IH]; [done|]. simpl.
  unfold FS.lookup_entry. simpl. by rewrite String.eqb_refl.
Qed.

(** Writing a file keeps what there was. *)
Lemma write_at_keeps (ds : list string) (c : content) (r r' : FS.node) :
  FS.write_at ds (FS.File c) r = Ok r' -> keeps r r'.
Proof.
  revert r r'. induction ds as [|c0 ds IH]; intros r r' H cs n Hn.
  { by destruct r. }
  destruct r as [x|es]; [by destruct ds|].
  destruct cs as [|k rest].
  { injection Hn as <-.
    destruct ds as [|c1 ds'];
      [rewrite write_at_leaf in H | rewrite write_at_cons in H].
    - destruct (Dict.get c0 es) as [[|]|]; try done;
        injection H as <-; eexists; split; done.
    - destruct (Dict.get c0 es) as [child0|]; [|done].
      destruct (FS.write_at (c1 :: ds') (FS.File c) child0); [|done].
      injection H as <-. eexists; split; done. }
  rewrite resolve_cons in Hn.
  destruct (Dict.get k es) as [child|] eqn:Hk; [|done].
  destruct ds as [|c1 ds'];
    [rewrite write_at_leaf in H | rewrite write_at_cons in H].
  - assert (Hr' : r' = FS.Dir (Dict.set c0 (FS.File c) es)
                  /\ forall e, Dict.get c0 es <> Some (FS.Dir e)).
    { destruct (Dict.get c0 es) as [[|]|]; try done; injection H as <-;
        split; done. }
    destruct Hr' as [-> Hnd]. rewrite resolve_cons.
    destruct (decide (c0 = k)) as [->|N].
    + rewrite get_set_eq. destruct child as [x|e]; [|by destruct (Hnd e)].
      destruct rest; [|done]. injection Hn as <-. eexists; split; done.
    + rewrite get_set_ne, Hk by done. eauto using same_kind_refl.
  - destruct (Dict.get c0 es) as [child0|] eqn:H0; [|done].
    destruct (FS.write_at (c1 :: ds') (FS.File c) child0) as [child0'|] eqn:Hw;
      [|done].
    injection H as <-. rewrite resolve_cons.
    destruct (decide (c0 = k)) as [->|N].
    + rewrite get_set_eq. rewrite Hk in H0. injection H0 as <-.
      by apply (IH _ _ Hw).
    + rewrite get_set_ne, Hk by done. eauto using same_kind_refl.
Qed.

(** Making directories keeps what there was. *)
Lemma makedirs_at_keeps (ds : list string) (r r' : FS.node) :
  FS.makedirs_at ds r = Ok r' -> keeps r r'.
Proof.
  revert r r'. induction ds as [|c0 ds IH]; intros r r' H cs n Hn.
  { by destruct r. }
  destruct r as [x|es]; [by destruct ds|]. rewrite makedirs_at_cons in H.
  destruct cs as [|k rest].
  { injection Hn as <-. destruct (Dict.get c0 es) as [child0|].
    - destruct (FS.makedirs_at ds child0); [|done].
      injection H as <-. eexists; split; done.
    - injection H as <-. eexists; split; done. }
  rewrite resolve_cons in Hn.
  destruct (Dict.get k es) as [child|] eqn:Hk; [|done].
  destruct (Dict.get c0 es) as [child0|] eqn:H0.
  - destruct (FS.makedirs_at ds child0) as [child0'|] eqn:Hw; [|done].
    injection H as <-. rewrite resolve_cons.
    destruct (decide (c0 = k)) as [->|N].
    + rewrite get_set_eq. rewrite Hk in H0. injection H0 as <-.
      by apply (IH _ _ Hw).
    + rewrite get_set_ne, Hk by done. eauto using same_kind_refl.
  - injection H as <-. rewrite resolve_cons.
    rewrite (get_app_old _ _ _ _ _ Hk). eauto using same_kind_refl.
Qed.

(** After [makedirs] the path names a directory. *)
Lemma makedirs_at_resolve (ds : list string) (r r' : FS.node) :
  FS.makedirs_at ds r = Ok r' -> exists e, FS.resolve ds r' = Some (FS.Dir e).
Proof.
  revert r r'. induction ds as [|c0 ds IH]; intros r r' H.
  { by destruct r. }
  destruct r as [x|es]; [by destruct ds|]. rewrite makedirs_at_cons in H.
  destruct (Dict.get c0 es) as [child0|] eqn:H0.
  - destruct (FS.makedirs_at ds child0) as [child0'|] eqn:Hw; [|done].
    injection H as <-. rewrite resolve_cons.
    rewrite get_set_eq. by apply (IH _ _ Hw).
  - injection H as <-. rewrite resolve_cons.
    rewrite (get_app_new _ _ _ H0), resolve_fresh_dirs. eauto.
Qed.

(** What was written is there. *)
Lemma write_at_resolve (ds : list string) (new r r' : FS.node) :
  FS.write_at ds new r = Ok r' -> FS.resolve ds r' = Some new.
Proof.
  revert r r'. induction ds as [|c0 ds IH]; intros r r' H.
  { by destruct r. }
  destruct r as [x|es]; [by destruct ds|].
  destruct ds as [|c1 ds'];
    [rewrite write_at_leaf in H | rewrite write_at_cons in H].
  - assert (r' = FS.Dir (Dict.set c0 new es)) as ->.
    { destruct (Dict.get c0 es) as [[|]|], new; try done;
        by injection H as <-. }
    rewrite resolve_cons. by rewrite get_set_eq.
  - destruct (Dict.get c0 es) as [child0|]; [|done].
    destruct (FS.write_at (c1 :: ds') new child0) as [child0'|] eqn:Hw; [|done].
    injection H as <-.
    rewrite resolve_cons, get_set_eq. by apply (IH _ _ Hw).
Qed.

(** Writing a file at one path leaves the files at the other paths as
    they are. *)
Lemma write_at_other_file (ds cs : list string) (c c0 : content)
    (r r' : FS.node) :
  FS.write_at ds (FS.File c) r = Ok r' ->
  FS.resolve cs r = Some (FS.File c0) -> cs <> ds ->
  FS.resolve cs r' = Some (FS.File c0).
Proof.
  revert cs r r'. induction ds as [|d0 ds IH]; intros cs r r' H Hn Hne.
  { by destruct r. }
  destruct r as [x|es]; [by destruct ds|].
  destruct cs as [|k rest]; [done|].
  rewrite resolve_cons in Hn.
  destruct (Dict.get k es) as [child|] eqn:Hk; [|done].
  destruct ds as [|d1 ds'];
    [rewrite write_at_leaf in H | rewrite write_at_cons in H].
  - assert (Hr' : r' = FS.Dir (Dict.set d0 (FS.File c) es)
                  /\ forall e, Dict.get d0 es <> Some (FS.Dir e)).
    { destruct (Dict.get d0 es) as [[|]|]; try done; injection H as <-;
        split; done. }
    destruct Hr' as [-> Hnd]. rewrite resolve_cons.
    destruct (decide (d0 = k)) as [->|N].
    + destruct child as [x|e]; [|by destruct (Hnd e)].
      destruct rest; [by destruct Hne | done].
    + by rewrite get_set_ne, Hk.
  - destruct (Dict.get d0 es) as [child0|] eqn:H0; [|done].
    destruct (FS.write_at (d1 :: ds') (FS.File c) child0) as [child0'|] eqn:Hw;
      [|done].
    injection H as <-. rewrite resolve_cons.
    destruct (decide (d0 = k)) as [->|N].
    + rewrite get_set_eq. rewrite Hk in H0. injection H0 as <-.
      apply (IH _ _ _ Hw Hn). congruence.
    + by rewrite get_set_ne, Hk.
Qed.

(** Writing a file makes no other path appear. *)
Lemma write_at_new_only (ds cs : list string) (c : content)
    (r r' : FS.node) (n : FS.node) :
  FS.write_at ds (FS.File c) r = Ok r' ->
  FS.resolve cs r' = Some n ->
  cs = ds \/ is_Some (FS.resolve cs r).
Proof.
  revert cs r r' n. induction ds as [|d0 ds IH]; intros cs r r' n H Hn.
  { by destruct r. }
  destruct r as [x|es]; [by destruct ds|].
  destruct cs as [|k rest]; [right; by eexists|].
  destruct ds as [|d1 ds'];
    [rewrite write_at_leaf in H | rewrite write_at_cons in H].
  - assert (r' = FS.Dir (Dict.set d0 (FS.File c) es)) as ->.
    { destruct (Dict.get d0 es) as [[|]|]; try done; by injection H as <-. }
    rewrite resolve_cons in Hn |- *.
    destruct (decide (d0 = k)) as [->|N].
    + rewrite get_set_eq in Hn. destruct rest; [by left | done].
    + rewrite get_set_ne in Hn by done. right.
      destruct (Dict.get k es); [by eexists | done].
  - destruct (Dict.get d0 es) as [child0|] eqn:H0; [|done].
    destruct (FS.write_at (d1 :: ds') (FS.File c) child0) as [child0'|] eqn:Hw;
      [|done].
    injection H as <-. rewrite resolve_cons in Hn |- *.
    destruct (decide (d0 = k)) as [->|N].
    + rewrite get_set_eq in Hn. rewrite H0.
      destruct (IH _ _ _ _ Hw Hn) as [-> | Hs]; [by left | by right].
    + rewrite get_set_ne in Hn by done. right.
      destruct (Dict.get k es); [by eexists | done].
Qed.

Lemma get_not_in {V} (k : string) (d : Dict.dict V) :
  k ∉ map fst d -> Dict.get k d = None.
Proof.
  induction d as [|[k0 v0] d IH]; [done|]. simpl. intros H.
  apply not_elem_of_cons in H as [Hne Hd].
  destruct (String.eqb_spec k0 k); [congruence | by apply IH].
Qed.

Lemma get_remove_entry (k : string) (es : list (string * FS.node)) :
  NoDup (map fst es) -> Dict.get k (FS.remove_entry k es) = None.
Proof.
  induction es as [|[k0 n0] es IH]; [done|]. simpl. intros H.
  apply NoDup_cons in H as [Hk0 Hnd].
  destruct (String.eqb_spec k0 k) as [->|N].
  - by apply get_not_in.
  - simpl. destruct (String.eqb_spec k0 k); [done | by apply IH].
Qed.

Lemma names_distinct_Dir (es : list (string * FS.node)) :
  names_distinct (FS.Dir es) = true ->
  NoDup (map fst es)
  /\ forall k child, Dict.get k es = Some child -> names_distinct child = true.
Proof.
  cbn [names_distinct]. intros H. apply andb_true_iff in H as [Hnd Hall].
  apply bool_decide_eq_true in Hnd. split; [done|].
  clear Hnd. induction es as [|[k0 n0] es IH]; [done|].
  apply andb_true_iff in Hall as [H0 Hall]. intros k child. simpl.
  destruct (String.eqb k0 k); [by intros [= <-] | by apply IH].
Qed.

(** What was unlinked is gone. *)
Lemma remove_at_gone (cs : list string) (r r' : FS.node) :
  names_distinct r = true ->
  FS.remove_at cs r = Ok r' -> FS.resolve cs r' = None.
Proof.
  revert r r'. induction cs as [|c0 cs IH]; intros r r' Hd H.
  { by destruct r. }
  destruct r as [x|es]; [by destruct cs|].
  destruct (names_distinct_Dir _ Hd) as [Hnd Hch].
  destruct cs as [|c1 cs'];
    [rewrite remove_at_leaf in H | rewrite remove_at_cons in H].
  - destruct (Dict.get c0 es); [|done]. injection H as <-.
    rewrite resolve_cons. by rewrite get_remove_entry.
  - destruct (Dict.get c0 es) as [child0|] eqn:H0; [|done].
    destruct (FS.remove_at (c1 :: cs') child0) as [child0'|] eqn:Hw; [|done].
    injection H as <-.
    rewrite resolve_cons, get_set_eq.
    apply (IH _ _ (Hch _ _ H0) Hw).
Qed.

(** ** [Track.export] in copy and in move mode *)

Lemma same_path_false (a b : string) :
  FS.same_path a b = false -> FS.components a <> FS.components b.
Proof. unfold FS.same_path. apply bool_decide_eq_false. Qed.

Lemma same_path_true (a b : string) :
  FS.same_path a b = true -> FS.components a = FS.components b.
Proof. unfold FS.same_path. apply bool_decide_eq_true. Qed.

Lemma read_lookup (p : string) (root : FS.node) (c : content) :
  FS.read p root = Some c <-> FS.lookup p root = Some (FS.File c).
Proof.
  unfold FS.read. destruct (FS.lookup p root) as [[x|es]|]; split; try done;
    by intros [= ->].
Qed.

(** X14: in copy mode an export of a track that returns has written the
    content of the source file at the computed path (inside it, under
    the name of the source, when the computed path was a directory), and
    the source file is still there with its content. *)
Theorem X14_copy_export (G : globals) (r : ref) (path : string) (w : world)
    (t : track) (p : string) (w' : world) :
  DRY_RUN G = false -> MOVE_EXPORT G = false ->
  tracks w !! r = Some t ->
  Track.export G r path w = Ok (p, w') ->
  exists c,
    FS.read (t_path t) (fs w) = Some c
    /\ p = os_path.join path (Track.filename t)
    /\ FS.read (if FS.isdir p (fs w)
                then os_path.join p (os_path.basename (t_path t)) else p)
               (fs w') = Some c
    /\ FS.read (t_path t) (fs w') = Some c.
Proof.
  intros dry mv Ht. unfold Track.export. run. rewrite Ht, dry, mv. simpl.
  unfold FS.copy.
  set (export_path := os_path.join path (Track.filename t)).
  set (dst := if FS.isdir export_path (fs w)
              then os_path.join export_path (os_path.basename (t_path t))
              else export_path).
  destruct (FS.lookup (t_path t) (fs w)) as [[c|es]|] eqn:Hsrc; try done.
  destruct (FS.same_path (t_path t) dst) eqn:Hsame; [done|].
  destruct (FS.write_at (FS.components dst) (FS.File c) (fs w))
    as [root'|] eqn:Hw; [|done].
  simpl. intros [= <- <-]. simpl. exists c.
  split; [by apply read_lookup|]. split; [done|]. split.
  - apply read_lookup. unfold FS.lookup. by eapply write_at_resolve.
  - apply read_lookup. unfold FS.lookup.
    eapply write_at_other_file; [exact Hw | exact Hsrc |].
    by apply same_path_false.
Qed.

Lemma X14_copy_export_witness :
  exists c,
    FS.read "/src/song1.mp3" (fs song1_made) = Some c
    /\ "/src/3. Baz..mp3" = os_path.join "/src" "3. Baz..mp3"
    /\ FS.read "/src/3. Baz..mp3" (fs song1_copied) = Some c
    /\ FS.read "/src/song1.mp3" (fs song1_copied) = Some c.
Proof.
  apply (X14_copy_export (Globals false false) 0%nat "/src" song1_made
           (MkTrack "/src/song1.mp3" ".mp3"
              (metadata_of "/src/song1.mp3"
                 (Content (ID3Header song1_tags) "audio-1")))
           "/src/3. Baz..mp3" song1_copied); reflexivity.
Defined.

(** An export that has to read a source that is not there raises. *)
Lemma Track_export_missing (G : globals) (r : ref) (path : string)
    (w : world) (t : track) :
  DRY_RUN G = false -> tracks w !! r = Some t ->
  FS.lookup (t_path t) (fs w) = None ->
  let dst := os_path.join path (Track.filename t) in
  Track.export G r path w
  = Raise (if MOVE_EXPORT G && FS.isdir dst (fs w)
              && FS.exists_ (os_path.join dst (os_path.basename (t_path t)))
                            (fs w)
           then ShutilError else FS.lookup_error (t_path t) (fs w)).
Proof.
  intros dry Ht Hsrc. unfold Track.export. run. rewrite Ht, dry. simpl.
  destruct (MOVE_EXPORT G); simpl.
  - unfold FS.move, FS.rename. rewrite Hsrc.
    destruct (FS.isdir _ (fs w)) eqn:Hdir; [|done].
    destruct (FS.same_path (t_path t) _) eqn:Hsame.
    + apply same_path_true in Hsame. unfold FS.isdir, FS.lookup in *.
      rewrite Hsame in Hsrc. by rewrite Hsrc in Hdir.
    + by destruct (FS.exists_ _ (fs w)).
  - unfold FS.copy. by rewrite Hsrc.
Qed.

(** The error for a path that names nothing is [NotADirectoryError]
    exactly when the path runs through a regular file, and
    [FileNotFoundError] otherwise. *)
Lemma resolve_error_spec (comps : list string) (n : FS.node) :
  (FS.resolve_error comps n = NotADirectoryError
   <-> exists pre suf c, comps = (pre ++ suf)%list /\ suf <> []
                         /\ FS.resolve pre n = Some (FS.File c))
  /\ (FS.resolve_error comps n = NotADirectoryError
      \/ FS.resolve_error comps n = FileNotFoundError).
Proof.
  revert n. induction comps as [|c rest IH]; intros n.
  - split; [|by right]. split; [done|].
    intros (pre & suf & x & E & Hs & _). by destruct pre, suf.
  - destruct n as [x|es]; simpl.
    + split; [|by left]. split; [|done]. intros _.
      by exists [], (c :: rest), x.
    + unfold FS.lookup_entry.
      destruct (Dict.get c es) as [child|] eqn:Hc.
      * destruct (IH child) as [[I1 I2] I3]. split; [|done]. split.
        -- intros H. destruct (I1 H) as (pre & suf & x & -> & Hs & Hr).
           exists (c :: pre), suf, x. split_and!; [done | done |].
           simpl. unfold FS.lookup_entry. by rewrite Hc.
        -- intros (pre & suf & x & E & Hs & Hr). apply I2.
           destruct pre as [|c' pre]; [done|].
           simpl in E. injection E as <- ->.
           simpl in Hr. unfold FS.lookup_entry in Hr. rewrite Hc in Hr.
           by exists pre, suf, x.
      * split; [|by right]. split; [done|].
        intros (pre & suf & x & E & Hs & Hr).
        destruct pre as [|c' pre]; [done|].
        simpl in E. injection E as <- ->.
        simpl in Hr. unfold FS.lookup_entry in Hr. by rewrite Hc in Hr.
Qed.

Lemma lookup_error_through (p : string) (root : FS.node) :
  (through_file p root -> FS.lookup_error p root = NotADirectoryError)
  /\ (~ through_file p root -> FS.lookup_error p root = FileNotFoundError).
Proof.
  unfold through_file, FS.lookup_error.
  destruct (resolve_error_spec (FS.components p) root) as [[I1 I2] [E|E]].
  - split; [done|]. intros N. destruct N. by apply I1.
  - split; [by apply I2 | done].
Qed.

(** [os.rename] and [shutil.move] of a regular file. *)
Lemma rename_file (src dst : string) (root root' : FS.node) (c : content) :
  names_distinct root = true ->
  FS.lookup src root = Some (FS.File c) ->
  FS.rename src dst root = Ok root' ->
  FS.read dst root' = Some c
  /\ (FS.same_path src dst = false -> FS.lookup src root' = None).
Proof.
  intros Hnd Hsrc. unfold FS.rename. rewrite Hsrc.
  destruct (FS.same_path src dst) eqn:Hsame.
  - intros [= <-]. split; [|done]. apply read_lookup. unfold FS.lookup in *.
    by rewrite <- (same_path_true _ _ Hsame).
  - destruct (FS.remove_at (FS.components src) root) as [r1|] eqn:Hrm; [|done].
    simpl. intros Hw. split.
    + apply read_lookup. unfold FS.lookup. by eapply write_at_resolve.
    + intros _. unfold FS.lookup.
      destruct (FS.resolve (FS.components src) root') as [n|] eqn:Hn; [|done].
      destruct (write_at_new_only _ _ _ _ _ _ Hw Hn) as [E | [x Hx]].
      * by apply same_path_false in Hsame.
      * by rewrite (remove_at_gone _ _ _ Hnd Hrm) in Hx.
Qed.

Lemma move_file (src dst : string) (root root' : FS.node) (c : content)
    (written : string) :
  names_distinct root = true ->
  FS.lookup src root = Some (FS.File c) ->
  FS.move src dst root = Ok (root', written) ->
  written = (if FS.isdir dst root
             then os_path.join dst (os_path.basename src) else dst)
  /\ FS.read written root' = Some c
  /\ (FS.same_path src written = false -> FS.lookup src root' = None).
Proof.
  intros Hnd Hsrc. unfold FS.move.
  destruct (FS.isdir dst root) eqn:Hdir.
  - destruct (FS.same_path src dst) eqn:Hsp.
    { apply same_path_true in Hsp. unfold FS.isdir, FS.lookup in *.
      rewrite <- Hsp in Hdir. by rewrite Hsrc in Hdir. }
    destruct (FS.exists_ (os_path.join dst (os_path.basename src)) root);
      [done|].
    destruct (FS.rename src (os_path.join dst (os_path.basename src)) root)
      as [r1|] eqn:Hrn; [|done].
    simpl. intros [= <- <-]. split; [done|].
    by apply (rename_file _ _ _ _ _ Hnd Hsrc Hrn).
  - destruct (FS.rename src dst root) as [r1|] eqn:Hrn; [|done].
    simpl. intros [= <- <-]. split; [done|].
    by apply (rename_file _ _ _ _ _ Hnd Hsrc Hrn).
Qed.

Lemma Track_export_move_inv (G : globals) (r : ref) (path : string)
    (w : world) (t : track) (p : string) (w' : world) :
  DRY_RUN G = false -> MOVE_EXPORT G = true ->
  tracks w !! r = Some t ->
  Track.export G r path w = Ok (p, w') ->
  exists written,
    FS.move (t_path t) (os_path.join path (Track.filename t)) (fs w)
    = Ok (fs w', written).
Proof.
  intros dry mv Ht. unfold Track.export. run. rewrite Ht, dry, mv. simpl.
  destruct (FS.move _ _ (fs w)) as [[root' written]|]; [|done].
  simpl. intros [= _ <-]. eauto.
Qed.

(** X15: in move mode, on a tree without doubled names, an export that
    returns has put the content of the source file at the computed path
    (inside it, under the name of the source, when the computed path was
    a directory); unless that is the source path itself, the source path
    names nothing any more and a second export of the track raises. *)
Theorem X15_move_export (G : globals) (r : ref) (path : string) (w : world)
    (t : track) (c : content) (p : string) (w' : world) :
  DRY_RUN G = false -> MOVE_EXPORT G = true ->
  names_distinct (fs w) = true ->
  tracks w !! r = Some t ->
  FS.read (t_path t) (fs w) = Some c ->
  Track.export G r path w = Ok (p, w') ->
  let written := if FS.isdir p (fs w)
                 then os_path.join p (os_path.basename (t_path t)) else p in
  p = os_path.join path (Track.filename t)
  /\ FS.read written (fs w') = Some c
  /\ (FS.same_path (t_path t) written = false ->
      FS.lookup (t_path t) (fs w') = None
      /\ exists e, Track.export G r path w' = Raise e).
Proof.
  intros dry mv Hnd Ht Hread H.
  pose proof (Track_export_path _ _ _ _ _ _ _ Ht H) as Hp.
  pose proof (Track_export_tracks _ _ _ _ _ _ H) as Htr.
  apply read_lookup in Hread.
  destruct (Track_export_move_inv _ _ _ _ _ _ _ dry mv Ht H) as [written Hm].
  rewrite <- Hp in Hm.
  destruct (move_file _ _ _ _ _ _ Hnd Hread Hm) as (-> & Hw & Hg).
  split; [done|]. split; [done|]. intros Hsame. split; [by apply Hg|].
  rewrite <- Htr in Ht.
  rewrite (Track_export_missing G r path w' t dry Ht (Hg Hsame)). eauto.
Qed.

Lemma X15_move_export_witness :
  "/src/3. Baz..mp3" = os_path.join "/src" "3. Baz..mp3"
  /\ FS.read "/src/3. Baz..mp3" (fs song1_moved)
     = Some (Content (ID3Header song1_tags) "audio-1")
  /\ (FS.same_path "/src/song1.mp3" "/src/3. Baz..mp3" = false ->
      FS.lookup "/src/song1.mp3" (fs song1_moved) = None
      /\ exists e, Track.export (Globals false true) 0 "/src" song1_moved
                   = Raise e).
Proof.
  apply (X15_move_export (Globals false true) 0%nat "/src" song1_made
           (MkTrack "/src/song1.mp3" ".mp3"
              (metadata_of "/src/song1.mp3"
                 (Content (ID3Header song1_tags) "audio-1")))
           (Content (ID3Header song1_tags) "audio-1")
           "/src/3. Baz..mp3" song1_moved); reflexivity.
Defined.

(** X16: when the source path of a track names nothing, its export
    raises: [ShutilError] in move mode when the computed path is a
    directory that already holds an entry with the name of the source;
    otherwise, in copy and in move mode, [NotADirectoryError] when the
    source path runs through a regular file and [FileNotFoundError] when
    it does not. Under [DRY_RUN] the export returns all the same. *)
Theorem X16_missing_source (G : globals) (r : ref) (path : string)
    (w : world) (t : track) :
  tracks w !! r = Some t ->
  FS.lookup (t_path t) (fs w) = None ->
  let dst := os_path.join path (Track.filename t) in
  let taken :=
    FS.isdir dst (fs w)
    && FS.exists_ (os_path.join dst (os_path.basename (t_path t))) (fs w) in
  (DRY_RUN G = false -> MOVE_EXPORT G = false \/ taken = false ->
   (through_file (t_path t) (fs w) ->
    Track.export G r path w = Raise NotADirectoryError)
   /\ (~ through_file (t_path t) (fs w) ->
       Track.export G r path w = Raise FileNotFoundError))
  /\ (DRY_RUN G = false -> MOVE_EXPORT G = true -> taken = true ->
      Track.export G r path w = Raise ShutilError)
  /\ (DRY_RUN G = true ->
      exists w', Track.export G r path w = Ok (dst, w')).
Proof.
  intros Ht Hsrc dst taken. split_and!.
  - intros dry Hm.
    rewrite (Track_export_missing G r path w t dry Ht Hsrc).
    fold dst. rewrite <- andb_assoc. fold taken.
    assert (MOVE_EXPORT G && taken = false) as ->.
    { destruct Hm as [-> | ->]; [done | by destruct (MOVE_EXPORT G)]. }
    destruct (lookup_error_through (t_path t) (fs w)) as [T N].
    split; intros Hth; f_equal; auto.
  - intros dry mv Htk.
    rewrite (Track_export_missing G r path w t dry Ht Hsrc).
    fold dst. rewrite <- andb_assoc. fold taken. by rewrite mv, Htk.
  - intros dry. rewrite (Track_export_dry G dry _ _ _ _ Ht). eauto.
Qed.

Lemma X16_missing_source_witness :
  Track.export (Globals false false) 0 "/dst" song1_moved
  = Raise FileNotFoundError
  /\ Track.export (Globals false true) 0 "/dst" inner_track
     = Raise NotADirectoryError.
Proof.
  split.
  - apply (X16_missing_source (Globals false false) 0%nat "/dst" song1_moved
             (MkTrack "/src/song1.mp3" ".mp3"
                (metadata_of "/src/song1.mp3"
                   (Content (ID3Header song1_tags) "audio-1"))));
      [reflexivity | reflexivity | reflexivity | by left |].
    intros Hth.
    apply (lookup_error_through "/src/song1.mp3" (fs song1_moved)) in Hth.
    discriminate Hth.
  - apply (X16_missing_source (Globals false true) 0%nat "/dst" inner_track
             (MkTrack "/src/song1.mp3/inner.mp3" ".mp3"
                [("title", TStr "inner")]));
      [reflexivity | reflexivity | reflexivity | by right |].
    by exists ["src"; "song1.mp3"], ["inner.mp3"],
              (Content (ID3Header song1_tags) "audio-1").
Defined.

(** ** What an export leaves in place *)

Lemma bind_inv {A B} (m : M A) (k : A -> M B) (w : world) (b : B)
    (w' : world) :
  mbind k m w = Ok (b, w') ->
  exists a w1, m w = Ok (a, w1) /\ k a w1 = Ok (b, w').
Proof.
  unfold mbind, M_bind, bind. destruct (m w) as [[a w1]|]; [eauto | done].
Qed.

Lemma logger_inv (lv : level) (msg : string) (args : list logarg)
    (w : world) (u : unit) (w' : world) :
  logger lv msg args w = Ok (u, w') ->
  w' = World (tracks w) (albums w) (discographies w) (libraries w) (fs w)
             (logs w ++ [Log lv msg args]).
Proof. unfold logger. by intros [= _ <-]. Qed.

Lemma deref_inv {A} (sel : world -> list A) (r : ref) (w : world) (a : A)
    (w' : world) :
  deref sel r w = Ok (a, w') -> w' = w /\ sel w !! r = Some a.
Proof.
  unfold deref. destruct (sel w !! r); [|done]. by intros [= <- <-].
Qed.

Lemma get_fs_inv (w : world) (root : FS.node) (w' : world) :
  get_fs w = Ok (root, w') -> w' = w /\ root = fs w.
Proof. unfold get_fs. by intros [= <- <-]. Qed.

Lemma frame_refl (G : globals) (w : world) : frame G w w.
Proof. split; [done|]. intros _. apply keeps_refl. Qed.

Lemma frame_trans (G : globals) (w1 w2 w3 : world) :
  frame G w1 w2 -> frame G w2 w3 -> frame G w1 w3.
Proof.
  intros [(T1 & A1 & D1 & L1) K1] [(T2 & A2 & D2 & L2) K2]. split.
  - repeat split; congruence.
  - intros mv. eapply keeps_trans; eauto.
Qed.

Lemma frame_logs (G : globals) (w : world) (lg : list logrec) :
  frame G w (World (tracks w) (albums w) (discographies w) (libraries w)
                   (fs w) lg).
Proof. split; [done|]. intros _. apply keeps_refl. Qed.

Lemma for_each_frame {A} (G : globals) (body : A -> M unit) (l : list A)
    (w w' : world) :
  (forall x w1 w2, body x w1 = Ok (tt, w2) -> frame G w1 w2) ->
  for_each l body w = Ok (tt, w') -> frame G w w'.
Proof.
  intros Hbody. apply (for_each_inv (frame G w)); [|apply frame_refl].
  intros x w1 w2 _ F E. eapply frame_trans; eauto.
Qed.

Lemma Track_export_frame (G : globals) (r : ref) (path : string)
    (w : world) (p : string) (w' : world) :
  Track.export G r path w = Ok (p, w') -> frame G w w'.
Proof.
  unfold Track.export. run. destruct (tracks w !! r) as [t|]; [|done]. simpl.
  destruct (DRY_RUN G); simpl.
  { intros [= _ <-]. apply frame_logs. }
  destruct (MOVE_EXPORT G) eqn:mv; simpl.
  - destruct (FS.move _ _ (fs w)) as [[root' written]|]; [|done].
    simpl. intros [= _ <-]. split; [done|]. by rewrite mv.
  - unfold FS.copy.
    destruct (FS.lookup (t_path t) (fs w)) as [[c|es]|]; try done.
    destruct (FS.same_path _ _); [done|].
    destruct (FS.write_at _ _ (fs w)) as [root'|] eqn:Hw; [|done].
    simpl. intros [= _ <-]. split; [done|]. intros _. simpl.
    by eapply write_at_keeps.
Qed.

(** The step every export starts with: the directory is made when it is
    not there, unless [DRY_RUN] is set. *)
Lemma ensure_dir_frame (G : globals) (p : string) (msg : string)
    (args : list logarg) (w : world) (u : unit) (w' : world) :
  when (negb (FS.isdir p (fs w)))
       (logger DEBUG msg args;; when (negb (DRY_RUN G)) (makedirs p)) w
  = Ok (u, w') ->
  frame G w w' /\ (DRY_RUN G = false -> FS.isdir p (fs w') = true).
Proof.
  unfold when. destruct (FS.isdir p (fs w)) eqn:Hdir; simpl.
  { intros [= _ <-]. split; [apply frame_refl | done]. }
  intros H. apply bind_inv in H as ([] & w1 & Hlog & H).
  apply logger_inv in Hlog as ->. destruct (DRY_RUN G); simpl in H.
  { injection H as _ <-. split; [apply frame_logs | done]. }
  unfold makedirs, fs_op, FS.makedirs in H. simpl in H.
  destruct (FS.makedirs_at (FS.components p) (fs w)) as [root'|] eqn:Hm;
    [|done].
  simpl in H. injection H as _ <-. split.
  - split; [done|]. intros _. simpl. by eapply makedirs_at_keeps.
  - intros _. simpl. unfold FS.isdir, FS.lookup.
    by destruct (makedirs_at_resolve _ _ _ Hm) as [e ->].
Qed.

Lemma Album_export_frame (G : globals) (ar : ref) (path : string)
    (w w' : world) :
  Album.export G ar path w = Ok (tt, w') -> frame G w w'.
Proof.
  unfold Album.export. intros H.
  apply bind_inv in H as ([] & w1 & Hlog & H). apply logger_inv in Hlog as ->.
  apply bind_inv in H as (a & w2 & Hd & H). apply deref_inv in Hd as [-> Ha].
  apply bind_inv in H as (root & w3 & Hf & H). apply get_fs_inv in Hf as [-> ->].
  apply bind_inv in H as ([] & w4 & He & H).
  apply ensure_dir_frame in He as [F4 _].
  eapply frame_trans; [apply frame_logs|].
  eapply frame_trans; [exact F4|].
  eapply for_each_frame; [|exact H].
  intros r w5 w6 E. apply bind_inv in E as (p & w7 & E & Hret).
  injection Hret as <-. by eapply Track_export_frame.
Qed.

Lemma Discography_export_frame (G : globals) (dr : ref) (path : string)
    (w w' : world) :
  Discography.export G dr path w = Ok (tt, w') -> frame G w w'.
Proof.
  unfold Discography.export. intros H.
  apply bind_inv in H as ([] & w1 & Hlog & H). apply logger_inv in Hlog as ->.
  apply bind_inv in H as (d & w2 & Hd & H). apply deref_inv in Hd as [-> Hd].
  apply bind_inv in H as (root & w3 & Hf & H). apply get_fs_inv in Hf as [-> ->].
  apply bind_inv in H as ([] & w4 & He & H).
  apply ensure_dir_frame in He as [F4 _].
  eapply frame_trans; [apply frame_logs|].
  eapply frame_trans; [exact F4|].
  eapply for_each_frame; [|exact H].
  intros ar w5 w6 E. cbv beta in E. by eapply Album_export_frame.
Qed.

Lemma Library_export_frame (G : globals) (self : ref) (path : string)
    (w w' : world) :
  Library.export G self path w = Ok (tt, w') -> frame G w w'.
Proof.
  unfold Library.export. intros H.
  apply bind_inv in H as ([] & w1 & Hlog & H). apply logger_inv in Hlog as ->.
  apply bind_inv in H as (root & w3 & Hf & H). apply get_fs_inv in Hf as [-> ->].
  apply bind_inv in H as ([] & w4 & He & H).
  apply ensure_dir_frame in He as [F4 _].
  apply bind_inv in H as (l & w5 & Hd & H). apply deref_inv in Hd as [-> Hl].
  eapply frame_trans; [apply frame_logs|].
  eapply frame_trans; [exact F4|].
  eapply for_each_frame; [|exact H].
  intros dr w5 w6 E. cbv beta in E. by eapply Discography_export_frame.
Qed.

Lemma keeps_isdir (root root' : FS.node) (p : string) :
  keeps root root' -> FS.isdir p root = true -> FS.isdir p root' = true.
Proof.
  intros K. unfold FS.isdir, FS.lookup.
  destruct (FS.resolve (FS.components p) root) as [[x|es]|] eqn:H; try done.
  destruct (K _ _ H) as (n' & -> & Hk). by destruct n'.
Qed.

Lemma keeps_exists (root root' : FS.node) (p : string) :
  keeps root root' -> FS.exists_ p root = true -> FS.exists_ p root' = true.
Proof.
  intros K. unfold FS.exists_, FS.lookup.
  destruct (FS.resolve (FS.components p) root) as [n|] eqn:H; [|done].
  by destruct (K _ _ H) as (n' & -> & Hk).
Qed.

Lemma keeps_read (root root' : FS.node) (p : string) (c : content) :
  keeps root root' -> FS.read p root = Some c ->
  exists c', FS.read p root' = Some c'.
Proof.
  intros K. unfold FS.read, FS.lookup.
  destruct (FS.resolve (FS.components p) root) as [[x|es]|] eqn:H; try done.
  destruct (K _ _ H) as (n' & -> & Hk). destruct n'; [eauto | done].
Qed.

(** X17: an export of a library that returns has changed no object,
    whatever the flags; and unless files are moved it has removed
    nothing: every path that named a directory still names one and every
    path that named a file still names a file. *)
Theorem X17_export_removes_nothing (G : globals) (self : ref) (dst : string)
    (w w' : world) :
  Library.export G self dst w = Ok (tt, w') ->
  same_objects w w'
  /\ (MOVE_EXPORT G = false ->
      forall p,
        (FS.isdir p (fs w) = true -> FS.isdir p (fs w') = true)
        /\ (forall c, FS.read p (fs w) = Some c ->
                      exists c', FS.read p (fs w') = Some c')).
Proof.
  intros H. destruct (Library_export_frame _ _ _ _ _ H) as [S K].
  split; [done|]. intros mv p. specialize (K mv). split.
  - by apply keeps_isdir.
  - intros c. by apply keeps_read.
Qed.

Lemma X17_export_removes_nothing_witness :
  same_objects song1_loaded song1_exported
  /\ (MOVE_EXPORT (Globals false false) = false ->
      forall p,
        (FS.isdir p (fs song1_loaded) = true ->
         FS.isdir p (fs song1_exported) = true)
        /\ (forall c, FS.read p (fs song1_loaded) = Some c ->
                      exists c', FS.read p (fs song1_exported) = Some c')).
Proof.
  apply (X17_export_removes_nothing (Globals false false) 0%nat "/dst"
           song1_loaded song1_exported). reflexivity.
Defined.

(** ** Where a copy-mode export leaves the tracks *)

(** A loop whose rounds keep [P], each establish [Q] for their element,
    and keep the [Q] of the others, ends with [Q] for every element. *)
Lemma for_each_post {A} (P : world -> Prop) (Q : A -> world -> Prop)
    (body : A -> M unit) (l : list A) (w w' : world) :
  (forall x w1 w2, x ∈ l -> P w1 -> body x w1 = Ok (tt, w2) ->
                   P w2 /\ Q x w2) ->
  (forall x y w1 w2, y ∈ l -> P w1 -> Q x w1 -> body y w1 = Ok (tt, w2) ->
                     Q x w2) ->
  P w -> for_each l body w = Ok (tt, w') ->
  P w' /\ forall x, x ∈ l -> Q x w'.
Proof.
  revert w. induction l as [|x l IH]; intros w Hest Hstab HP H; simpl in H.
  - injection H as <-. split; [done|]. intros x Hx. by apply elem_of_nil in Hx.
  - unfold mbind, M_bind, bind in H.
    destruct (body x w) as [[[] w1]|] eqn:E; [|done].
    destruct (Hest x w w1 (list_elem_of_here _ _) HP E) as [P1 Q1].
    destruct (IH w1) as [P' Q']; [| |done|done|].
    { intros y w2 w3 Hy. apply Hest. by apply list_elem_of_further. }
    { intros y z w2 w3 Hz. apply Hstab. by apply list_elem_of_further. }
    split; [done|]. intros y Hy. apply elem_of_cons in Hy as [-> | Hy]; [|auto].
    apply (for_each_inv (fun w => P w /\ Q x w) body l w1 w'); [|done|done].
    intros z w2 w3 Hz [P2 Q2] E2. split.
    + by apply (Hest z w2 w3 (list_elem_of_further _ _ _ Hz) P2 E2).
    + by apply (Hstab x z w2 w3 (list_elem_of_further _ _ _ Hz) P2 Q2 E2).
Qed.

Lemma Track_export_copy_inv (G : globals) (r : ref) (path : string)
    (w : world) (t : track) (p : string) (w' : world) :
  DRY_RUN G = false -> MOVE_EXPORT G = false ->
  tracks w !! r = Some t ->
  Track.export G r path w = Ok (p, w') ->
  exists written,
    FS.copy (t_path t) (os_path.join path (Track.filename t)) (fs w)
    = Ok (fs w', written).
Proof.
  intros dry mv Ht. unfold Track.export. run. rewrite Ht, dry, mv. simpl.
  destruct (FS.copy _ _ (fs w)) as [[root' written]|]; [|done].
  simpl. intros [= _ <-]. eauto.
Qed.

(** After a copy the destination path names something. *)
Lemma copy_exists (src dst : string) (root root' : FS.node)
    (written : string) :
  FS.copy src dst root = Ok (root', written) -> FS.exists_ dst root' = true.
Proof.
  unfold FS.copy.
  destruct (FS.lookup src root) as [[c|es]|]; try done.
  destruct (FS.same_path src _); [done|].
  destruct (FS.write_at _ _ root) as [r1|] eqn:Hw; [|done].
  simpl. intros [= <- <-].
  destruct (FS.isdir dst root) eqn:Hdir.
  - apply (keeps_exists root); [by eapply write_at_keeps|].
    unfold FS.isdir, FS.exists_ in *. by destruct (FS.lookup dst root).
  - unfold FS.exists_, FS.lookup. by rewrite (write_at_resolve _ _ _ _ Hw).
Qed.

Lemma album_placed_keeps (trs : list track) (dir : string) (a : album)
    (root root' : FS.node) :
  keeps root root' -> album_placed trs dir a root ->
  album_placed trs dir a root'.
Proof.
  intros K [Hd Ht]. split; [by eapply keeps_isdir|].
  intros r t Hr Hl. eapply keeps_exists; eauto.
Qed.

Lemma discography_placed_keeps (trs : list track) (albs : list album)
    (dir : string) (d : discography) (root root' : FS.node) :
  keeps root root' -> discography_placed trs albs dir d root ->
  discography_placed trs albs dir d root'.
Proof.
  intros K [Hd Ha]. split; [by eapply keeps_isdir|].
  intros ar a Har Hl. eapply album_placed_keeps; eauto.
Qed.

Section CopyMode.
Variable G : globals.
Hypothesis dry : DRY_RUN G = false.
Hypothesis mv : MOVE_EXPORT G = false.

Lemma Album_export_placed (ar : ref) (path : string) (w w' : world)
    (a : album) :
  albums w !! ar = Some a ->
  Album.export G ar path w = Ok (tt, w') ->
  album_placed (tracks w) path a (fs w').
Proof.
  intros Ha H. unfold Album.export in H.
  apply bind_inv in H as ([] & w1 & Hlog & H). apply logger_inv in Hlog as ->.
  apply bind_inv in H as (a' & w2 & Hd & H). apply deref_inv in Hd as [-> Ha'].
  simpl in Ha'. rewrite Ha in Ha'. injection Ha' as <-.
  apply bind_inv in H as (root & w3 & Hf & H). apply get_fs_inv in Hf as [-> ->].
  apply bind_inv in H as ([] & w4 & He & H).
  set (dir := os_path.join path (a_name a)) in *.
  assert (Hdir4 : FS.isdir dir (fs w4) = true).
  { destruct (FS.isdir dir (fs w)) eqn:Hdir.
    - unfold when in He. simpl in He. rewrite Hdir in He. simpl in He.
      by injection He as <-.
    - by apply ensure_dir_frame in He as [_ Hm]; apply Hm. }
  apply ensure_dir_frame in He as [[(T4 & _) _] _]. simpl in T4.
  pose (P := fun w1 => tracks w1 = tracks w
                         /\ FS.isdir dir (fs w1) = true).
  pose (Q := fun r w1 => forall t, tracks w !! r = Some t ->
                 FS.exists_ (os_path.join dir (Track.filename t)) (fs w1)
                 = true).
  assert (Hpost : P w' /\ forall x, x ∈ a_tracks a -> Q x w').
  { refine (for_each_post P Q _ _ _ _ _ _ (conj T4 Hdir4) H);
      subst P Q; cbv beta.
    - intros x w1 w2 Hx HP E.
      destruct HP as [T1 D1].
      apply bind_inv in E as (p & w5 & E & Hret). injection Hret as <-.
      destruct (Track_export_frame _ _ _ _ _ _ E) as [(T2 & _) K].
      split; [split; [congruence | by eapply keeps_isdir; eauto]|].
      intros t Ht. rewrite <- T1 in Ht.
      destruct (Track_export_copy_inv _ _ _ _ _ _ _ dry mv Ht E) as [wr Hc].
      by eapply copy_exists.
    - intros x y w1 w2 Hy HP HQ E.
      destruct HP as [T1 D1].
      apply bind_inv in E as (p & w5 & E & Hret). injection Hret as <-.
      destruct (Track_export_frame _ _ _ _ _ _ E) as [_ K].
      intros t Ht. eapply keeps_exists; eauto. }
  subst P Q. cbv beta in Hpost. destruct Hpost as [[_ Hd'] HQ].
  split; [done|]. intros r t Hr Ht. by apply (HQ r).
Qed.

Lemma Discography_export_placed (dr : ref) (path : string) (w w' : world)
    (d : discography) :
  discographies w !! dr = Some d ->
  Discography.export G dr path w = Ok (tt, w') ->
  discography_placed (tracks w) (albums w) path d (fs w').
Proof.
  intros Hd H. unfold Discography.export in H.
  apply bind_inv in H as ([] & w1 & Hlog & H). apply logger_inv in Hlog as ->.
  apply bind_inv in H as (d' & w2 & Hd' & H). apply deref_inv in Hd' as [-> Hd'].
  simpl in Hd'. rewrite Hd in Hd'. injection Hd' as <-.
  apply bind_inv in H as (root & w3 & Hf & H). apply get_fs_inv in Hf as [-> ->].
  apply bind_inv in H as ([] & w4 & He & H).
  set (dir := os_path.join path (d_artist d)) in *.
  assert (Hdir4 : FS.isdir dir (fs w4) = true).
  { destruct (FS.isdir dir (fs w)) eqn:Hdir.
    - unfold when in He. simpl in He. rewrite Hdir in He. simpl in He.
      by injection He as <-.
    - by apply ensure_dir_frame in He as [_ Hm]; apply Hm. }
  apply ensure_dir_frame in He as [[(T4 & A4 & _) _] _]. simpl in T4, A4.
  pose (P := fun w1 => (tracks w1 = tracks w /\ albums w1 = albums w)
                         /\ FS.isdir dir (fs w1) = true).
  pose (Q := fun ar w1 => forall a, albums w !! ar = Some a ->
                 album_placed (tracks w) dir a (fs w1)).
  assert (Hpost : P w' /\ forall x, x ∈ Dict.values (d_albums d) -> Q x w').
  { refine (for_each_post P Q _ _ _ _ _ _ (conj (conj T4 A4) Hdir4) H);
      subst P Q; cbv beta.
    - intros x w1 w2 Hx HP E.
      destruct HP as [[T1 A1] D1]. cbv beta in E.
      destruct (Album_export_frame _ _ _ _ _ E) as [(T2 & A2 & _) K].
      split; [split; [split; congruence | by eapply keeps_isdir; eauto]|].
      intros a Ha. rewrite <- A1 in Ha. rewrite <- T1.
      by apply (Album_export_placed _ _ _ _ _ Ha E).
    - intros x y w1 w2 Hy HP HQ E.
      destruct HP as [[T1 A1] D1]. cbv beta in E.
      destruct (Album_export_frame _ _ _ _ _ E) as [_ K].
      intros a Ha. eapply album_placed_keeps; eauto. }
  subst P Q. cbv beta in Hpost. destruct Hpost as [[_ Hd'] HQ].
  split; [done|]. intros ar a Har Ha. by apply (HQ ar).
Qed.

Lemma Library_export_placed (self : ref) (path : string) (w w' : world)
    (l : library) :
  libraries w !! self = Some l ->
  Library.export G self path w = Ok (tt, w') ->
  FS.isdir path (fs w') = true
  /\ forall dr d, dr ∈ Dict.values (l_discographies l) ->
       discographies w !! dr = Some d ->
       discography_placed (tracks w) (albums w) path d (fs w').
Proof.
  intros Hl H. unfold Library.export in H.
  apply bind_inv in H as ([] & w1 & Hlog & H). apply logger_inv in Hlog as ->.
  apply bind_inv in H as (root & w3 & Hf & H). apply get_fs_inv in Hf as [-> ->].
  apply bind_inv in H as ([] & w4 & He & H).
  assert (Hdir4 : FS.isdir path (fs w4) = true).
  { destruct (FS.isdir path (fs w)) eqn:Hdir.
    - unfold when in He. simpl in He. rewrite Hdir in He. simpl in He.
      by injection He as <-.
    - by apply ensure_dir_frame in He as [_ Hm]; apply Hm. }
  apply ensure_dir_frame in He as [[(T4 & A4 & D4 & L4) _] _].
  simpl in T4, A4, D4, L4.
  apply bind_inv in H as (l' & w5 & Hd & H). apply deref_inv in Hd as [-> Hl'].
  rewrite L4, Hl in Hl'. injection Hl' as <-.
  pose (P := fun w1 => (tracks w1 = tracks w /\ albums w1 = albums w
                          /\ discographies w1 = discographies w)
                         /\ FS.isdir path (fs w1) = true).
  pose (Q := fun dr w1 => forall d, discographies w !! dr = Some d ->
                 discography_placed (tracks w) (albums w) path d (fs w1)).
  assert (Hpost : P w' /\ forall x, x ∈ Dict.values (l_discographies l) -> Q x w').
  { refine (for_each_post P Q _ _ _ _ _ _ (conj (conj T4 (conj A4 D4)) Hdir4) H);
      subst P Q; cbv beta.
    - intros x w1 w2 Hx HP E.
      destruct HP as [(T1 & A1 & D1) P1]. cbv beta in E.
      destruct (Discography_export_frame _ _ _ _ _ E) as [(T2 & A2 & D2 & _) K].
      split; [split; [split_and!; congruence | by eapply keeps_isdir; eauto]|].
      intros d Hd. rewrite <- D1 in Hd. rewrite <- T1, <- A1.
      by apply (Discography_export_placed _ _ _ _ _ Hd E).
    - intros x y w1 w2 Hy HP HQ E.
      destruct HP as [(T1 & A1 & D1) P1]. cbv beta in E.
      destruct (Discography_export_frame _ _ _ _ _ E) as [_ K].
      intros d Hd. eapply discography_placed_keeps; eauto. }
  subst P Q. cbv beta in Hpost. destruct Hpost as [[_ Hd'] HQ].
  split; [done|]. intros dr d Hdr Hd. by apply (HQ dr).
Qed.

End CopyMode.

(** X18: in copy mode, after the export of a loaded library to [dst] has
    returned, [dst] is a directory and, for every track, so are
    [dst/artist] and [dst/artist/album] for its resolved artist and
    album, and the path [dst/artist/album/filename] the export computes
    for the track names something. *)
Theorem X18_copy_export_places_every_track (G : globals) (src dst : string)
    (root : FS.node) (self : ref) (w w' : world) :
  DRY_RUN G = false -> MOVE_EXPORT G = false ->
  Library.__init__ src true (initial_world root) = Ok (self, w) ->
  Library.export G self dst w = Ok (tt, w') ->
  FS.isdir dst (fs w') = true
  /\ forall r t, tracks w !! r = Some t ->
       let artist_dir := os_path.join dst (Track.get_artist t) in
       let album_dir := os_path.join artist_dir (Track.get_album t) in
       FS.isdir artist_dir (fs w') = true
       /\ FS.isdir album_dir (fs w') = true
       /\ FS.exists_ (os_path.join album_dir (Track.filename t)) (fs w')
          = true.
Proof.
  intros dry mv E H.
  pose proof (Library_init_grouped _ _ _ _ E) as [GD GA GT _].
  destruct (Library_init_inv _ _ _ _ E)
    as (-> & [W [l Hl] Hmade Hfiled] & _).
  destruct (Library_export_placed G dry mv 0 dst w w' l Hl H) as [Hdst Hpl].
  split; [done|]. intros r t Ht.
  destruct (Hfiled r t Ht)
    as (l' & dr & d & ar & a & Hl' & Hdr & Hd & Har & Ha & Hin).
  rewrite Hl in Hl'. injection Hl' as <-.
  pose proof (GD _ _ _ _ _ Hl Hdr Hd) as Hk.
  destruct (GA _ _ _ _ _ Hd Har Ha) as [_ Han].
  destruct (Hpl dr d (get_values _ _ _ Hdr) Hd) as [Hdd Hal].
  destruct (Hal ar a (get_values _ _ _ Har) Ha) as [Had Htr].
  rewrite Hk in Hdd, Had, Htr. rewrite Han in Had, Htr.
  split_and!; [done | done | by apply (Htr r t)].
Qed.

Lemma X18_copy_export_places_every_track_witness :
  FS.isdir "/dst" (fs song1_exported) = true
  /\ forall r t, tracks song1_loaded !! r = Some t ->
       let artist_dir := os_path.join "/dst" (Track.get_artist t) in
       let album_dir := os_path.join artist_dir (Track.get_album t) in
       FS.isdir artist_dir (fs song1_exported) = true
       /\ FS.isdir album_dir (fs song1_exported) = true
       /\ FS.exists_ (os_path.join album_dir (Track.filename t))
                     (fs song1_exported) = true.
Proof.
  apply (X18_copy_export_places_every_track (Globals false false) "/src" "/dst"
           song1_root 0%nat song1_loaded song1_exported); reflexivity.
Defined.
